(** * Admin dashboard script ([static/js/script.js]): model and properties

    The script is a single [$(document).ready] callback that wires four
    behaviours onto the page: the final-price calculator, the image preview,
    the delete confirmation and the flash-message toasts.  This development
    embeds the callback and the handlers it registers, together with the
    parts of the platform they call (ECMAScript's [parseFloat],
    [Number.prototype.toFixed], [String.prototype.trim]; the jQuery
    traversals; the browser's event loop), and proves the properties the
    specification states about them. *)

From Stdlib Require Import ZArith NArith QArith Qpower Qround Qabs Lqa.
From Stdlib Require Import List Bool Lia String Ascii.
From Stdlib Require Import Floats.SpecFloat.
Import ListNotations.
Local Open Scope string_scope.
Local Open Scope list_scope.

(* ===================================================================== *)
(** * Part I: the model                                                   *)
(* ===================================================================== *)

(** ** ECMAScript strings

    A JavaScript string is a sequence of UTF-16 code units. *)

Definition jsstring := list N.

(** [js "abc"] is the JavaScript string with the code units of an ASCII
    literal. *)
Definition js (s : string) : jsstring :=
  map N_of_ascii (list_ascii_of_string s).

Definition jsstring_eqb (a b : jsstring) : bool :=
  if list_eq_dec N.eq_dec a b then true else false.

(** [s.startsWith(p)] *)
Fixpoint starts_with (p s : jsstring) : bool :=
  match p, s with
  | [], _ => true
  | a :: p', b :: s' => N.eqb a b && starts_with p' s'
  | _ :: _, [] => false
  end.

(** [s.includes(p)]: [p] occurs in [s] as a substring. *)
Fixpoint includes (p s : jsstring) : bool :=
  starts_with p s ||
  match s with
  | [] => false
  | _ :: s' => includes p s'
  end.

(** WhiteSpace and LineTerminator code points (ECMA-262, 12.2 and 12.3):
    TAB, VT, FF, SP, NBSP, ZWNBSP, the Unicode space separators, and LF, CR,
    LS, PS.  They are what [trim] strips and what [parseFloat] skips. *)
Definition is_white_space (c : N) : bool :=
  (existsb (N.eqb c)
     [9; 10; 11; 12; 13; 32; 160; 5760; 8232; 8233; 8239; 8287; 12288; 65279]
   || ((8192 <=? c) && (c <=? 8202)))%N.

Fixpoint trim_start (s : jsstring) : jsstring :=
  match s with
  | [] => []
  | c :: r => if is_white_space c then trim_start r else s
  end.

Definition trim_end (s : jsstring) : jsstring := rev (trim_start (rev s)).

(** [String.prototype.trim] *)
Definition trim (s : jsstring) : jsstring := trim_end (trim_start s).

(** ToBoolean of a string: the empty string is the only falsy one. *)
Definition string_truthy (s : jsstring) : bool :=
  match s with [] => false | _ :: _ => true end.

(** ** ECMAScript numbers

    A Number is an IEEE 754 binary64 value.  The model is the Standard
    Library's [spec_float] at precision 53 and maximal exponent 1024, whose
    operations round to nearest, ties to even; all NaNs are one value. *)

Module Number.
Local Open Scope Q_scope.

Definition prec : Z := 53.
Definition emax : Z := 1024.

Definition number := spec_float.

Definition NaN : number := S754_nan.
Definition pos_zero : number := S754_zero false.

Definition sub : number -> number -> number := SFsub prec emax.
Definition mul : number -> number -> number := SFmul prec emax.
Definition div : number -> number -> number := SFdiv prec emax.

Definition is_nan (x : number) : bool :=
  match x with S754_nan => true | _ => false end.

Definition is_finite (x : number) : bool :=
  match x with S754_zero _ | S754_finite _ _ _ => true | _ => false end.

(** ToBoolean of a Number: [+0], [-0] and [NaN] are falsy. *)
Definition truthy (x : number) : bool :=
  match x with
  | S754_zero _ | S754_nan => false
  | _ => true
  end.

(** [x || y] on Numbers. *)
Definition or_else (x y : number) : number := if truthy x then x else y.

(** The Number nearest to [(-1)^neg * m * 10^e10].  A non-negative power of
    ten is rounded from the integer it denotes, a negative one by the
    correctly rounded division of two integers. *)
Definition of_decimal (neg : bool) (m : N) (e10 : Z) : number :=
  match m with
  | N0 => S754_zero neg
  | Npos p =>
      if (0 <=? e10)%Z
      then binary_round prec emax neg (Z.to_pos (Zpos p * 10 ^ e10)) 0
      else SFdiv prec emax (S754_finite neg p 0)
                           (S754_finite false (Z.to_pos (10 ^ (- e10))) 0)
  end.

(** The Number of a numeric literal of the script, such as [100]. *)
Definition of_Z (z : Z) : number :=
  binary_normalize prec emax z 0 false.

(** *** parseFloat *)

Definition is_digit (c : N) : bool := ((48 <=? c) && (c <=? 57))%N.

(** The longest prefix of decimal digits, and the rest. *)
Fixpoint span_digits (s : jsstring) : jsstring * jsstring :=
  match s with
  | c :: r =>
      if is_digit c
      then let '(ds, rest) := span_digits r in (c :: ds, rest)
      else ([], s)
  | [] => ([], [])
  end.

(** The value of a digit string, most significant digit first. *)
Definition digits_value (ds : jsstring) : N :=
  fold_left (fun acc c => (10 * acc + (c - 48))%N) ds 0%N.

(** A leading [+] or [-]: whether it is [-], and the rest. *)
Definition take_sign (s : jsstring) : bool * jsstring :=
  match s with
  | 43%N :: r => (false, r)
  | 45%N :: r => (true, r)
  | _ => (false, s)
  end.

(** ExponentPart, when one is there: [e] or [E], an optional sign and at
    least one digit.  Its value, 0 when there is none. *)
Definition exponent_part (s : jsstring) : Z :=
  match s with
  | c :: r =>
      if (N.eqb c 101 || N.eqb c 69)%bool
      then let '(neg, r') := take_sign r in
           let '(ds, _) := span_digits r' in
           match ds with
           | [] => 0%Z
           | _ :: _ =>
               let v := Z.of_N (digits_value ds) in
               if neg then (- v)%Z else v
           end
      else 0%Z
  | [] => 0%Z
  end.

(** StrUnsignedDecimalLiteral: the value of the longest prefix of [s] that
    is one, [NaN] when no prefix is. *)
Definition unsigned_literal (neg : bool) (s : jsstring) : number :=
  if starts_with (js "Infinity") s then S754_infinity neg
  else
    let '(ip, r1) := span_digits s in
    match r1 with
    | 46%N :: r2 =>
        let '(fp, r3) := span_digits r2 in
        match ip, fp with
        | [], [] => NaN
        | _, _ =>
            of_decimal neg (digits_value (ip ++ fp))
                       (exponent_part r3 - Z.of_nat (List.length fp))
        end
    | _ =>
        match ip with
        | [] => NaN
        | _ :: _ => of_decimal neg (digits_value ip) (exponent_part r1)
        end
    end.

(** [parseFloat(s)] for a string [s]. *)
Definition parseFloat (s : jsstring) : number :=
  let '(neg, r) := take_sign (trim_start s) in
  unsigned_literal neg r.

(** *** Number to string *)

(** The decimal digits of [n], most significant first, no leading zero;
    ["0"] for zero.  [fuel] bounds the number of digits. *)
Fixpoint digits_aux (fuel : nat) (n : N) : jsstring :=
  match fuel with
  | O => []
  | S f =>
      if (n <? 10)%N then [(48 + n)%N]
      else digits_aux f (n / 10)%N ++ [(48 + n mod 10)%N]
  end.

Definition decimal_digits (n : N) : jsstring :=
  digits_aux (S (N.to_nat (N.size n))) n.

(** The real number a finite Number denotes. *)
Definition real_of (m : positive) (e : Z) : Q := inject_Z (Zpos m) * 2 ^ e.

Definition Qltb (x y : Q) : bool :=
  match x ?= y with Lt => true | _ => false end.

Definition number_eqb (x y : number) : bool :=
  match x, y with
  | S754_zero a, S754_zero b => Bool.eqb a b
  | S754_infinity a, S754_infinity b => Bool.eqb a b
  | S754_nan, S754_nan => true
  | S754_finite a m e, S754_finite b m' e' =>
      Bool.eqb a b && Pos.eqb m m' && Z.eqb e e'
  | _, _ => false
  end.

(** The least [n], from [n0] upwards, with [x < 10^n]. *)
Fixpoint magnitude_from (fuel : nat) (n0 : Z) (x : Q) : Z :=
  match fuel with
  | O => n0
  | S f => if Qltb x (10 ^ n0) then n0 else magnitude_from f (n0 + 1) x
  end.

(** The decimal exponent of a positive finite Number: [10^(n-1) <= x < 10^n].
    The least positive Number is above [10^-324], the greatest below
    [10^309]. *)
Definition magnitude (x : Q) : Z := magnitude_from 640 (-323) x.

(** Number::toString, step 5, for one digit count [k]: the [k]-digit
    decimals [s * 10^(n-k)] next to [x], kept when they denote the Number
    [x]; of two, the one nearer to [x], the even one on a tie.  The upper
    neighbour [10^k * 10^(n-k)] is written [10^(k-1) * 10^(n+1-k)]. *)
Definition shortest_at (x : number) (r : Q) (n : Z) (k : Z) : option (N * Z) :=
  let scale := 10 ^ (n - k) in
  let lo := Qfloor (r / scale) in
  let hi := (lo + 1)%Z in
  let ok c := number_eqb (of_decimal false (Z.to_N c) (n - k)) x in
  let norm c := if (c =? 10 ^ k)%Z then (Z.to_N (10 ^ (k - 1)), (n + 1)%Z)
                else (Z.to_N c, n) in
  match ok lo, ok hi with
  | true, true =>
      match (r - inject_Z lo * scale) ?= (inject_Z hi * scale - r) with
      | Lt => Some (norm lo)
      | Gt => Some (norm hi)
      | Eq => Some (norm (if Z.even lo then lo else hi))
      end
  | true, false => Some (norm lo)
  | false, true => Some (norm hi)
  | false, false => None
  end.

(** The least [k] from [k] upwards with a [k]-digit decimal denoting [x],
    and that decimal; seventeen digits tell any two Numbers apart. *)
Fixpoint shortest_from (fuel : nat) (x : number) (r : Q) (n : Z) (k : Z)
  : N * Z * Z :=
  match fuel with
  | O => (Z.to_N (Qfloor (r / 10 ^ (n - k))), n, k)
  | S f =>
      match shortest_at x r n k with
      | Some (s, n') => (s, n', k)
      | None => shortest_from f x r n (k + 1)
      end
  end.

Definition zeros (n : Z) : jsstring := repeat 48%N (Z.to_nat n).

Definition exponent_suffix (n : Z) : jsstring :=
  101%N :: (if (0 <=? n - 1)%Z then 43%N else 45%N)
        :: decimal_digits (Z.to_N (Z.abs (n - 1))).

(** Number::toString of a positive finite Number (ECMA-262, 6.1.6.1.20,
    steps 5 to 10). *)
Definition to_string_pos (m : positive) (e : Z) : jsstring :=
  let r := real_of m e in
  let '(s, n, k) :=
    shortest_from 17 (S754_finite false m e) r (magnitude r) 1 in
  let ds := decimal_digits s in
  if ((k <=? n) && (n <=? 21))%Z then ds ++ zeros (n - k)
  else if ((0 <? n) && (n <=? 21))%Z
       then firstn (Z.to_nat n) ds ++ 46%N :: skipn (Z.to_nat n) ds
  else if ((-6 <? n) && (n <=? 0))%Z
       then 48%N :: 46%N :: zeros (- n) ++ ds
  else if (k =? 1)%Z then ds ++ exponent_suffix n
  else firstn 1 ds ++ 46%N :: skipn 1 ds ++ exponent_suffix n.

(** Number::toString in radix 10. *)
Definition to_string (x : number) : jsstring :=
  match x with
  | S754_nan => js "NaN"
  | S754_zero _ => js "0"
  | S754_infinity s => (if s then [45%N] else []) ++ js "Infinity"
  | S754_finite s m e => (if s then [45%N] else []) ++ to_string_pos m e
  end.

(** *** Number.prototype.toFixed *)

(** The outcome of a built-in that can throw a RangeError. *)
Inductive completion (A : Type) : Type :=
| Normal (a : A)
| RangeError.
Arguments Normal {A} a.
Arguments RangeError {A}.

(** Step 11 of toFixed: the integer [n] for which [n / 10^f - x] is as close
    to zero as possible, the larger one when there are two. *)
Definition nearest_scaled (x : Q) (f : Z) : Z := Qfloor (x * 10 ^ f + (1 # 2)).

(** Steps 11.b and 11.c: the digits of [n], padded with zeros to [f + 1]
    digits, with a point before the last [f]. *)
Definition fixed_digits (n : N) (f : nat) : jsstring :=
  let m := decimal_digits n in
  match f with
  | O => m
  | S _ =>
      let k := List.length m in
      let m' := if (k <=? f)%nat then repeat 48%N (f + 1 - k) ++ m else m in
      let k' := List.length m' in
      firstn (k' - f) m' ++ 46%N :: skipn (k' - f) m'
  end.

(** [x.toFixed(fractionDigits)] (ECMA-262, 21.1.3.3). *)
Definition toFixed (x : number) (fractionDigits : Z) : completion jsstring :=
  if ((fractionDigits <? 0) || (100 <? fractionDigits))%Z then RangeError
  else
    match x with
    | S754_nan | S754_infinity _ => Normal (to_string x)
    | S754_zero _ => Normal (fixed_digits 0 (Z.to_nat fractionDigits))
    | S754_finite s m e =>
        let r := real_of m e in
        let sign := if s then [45%N] else [] in
        if Qle_bool (10 ^ 21) r
        then Normal (sign ++ to_string_pos m e)
        else Normal (sign ++ fixed_digits (Z.to_N (nearest_scaled r fractionDigits))
                                          (Z.to_nat fractionDigits))
    end.

End Number.

Close Scope Q_scope.

(** ** The page

    The page is the content of the document's [body]: the list of its child
    nodes, in document order.  An element carries the identity of its DOM
    object ([eid]), its tag name in lower case, its content attributes and,
    for a form control, its current value.  The [html], [head] and [body]
    elements themselves are outside the model: they are taken to match none
    of the script's selectors other than [body]. *)

Module Dom.

Record element := {
  eid : nat;
  tag : string;
  attrs : list (string * jsstring);
  value : jsstring
}.

#[warnings="-register-all"]
Inductive node :=
| Text (data : jsstring)
| Elem (e : element) (children : list node).

Definition document := list node.

(** *** Attributes and classes *)

Fixpoint get_attr (name : string) (l : list (string * jsstring))
  : option jsstring :=
  match l with
  | [] => None
  | (k, v) :: r => if String.eqb k name then Some v else get_attr name r
  end.

(** [setAttribute]: replaces the attribute's value in place, or adds the
    attribute at the end. *)
Fixpoint set_attr (name : string) (v : jsstring) (l : list (string * jsstring))
  : list (string * jsstring) :=
  match l with
  | [] => [(name, v)]
  | (k, v0) :: r =>
      if String.eqb k name then (k, v) :: r else (k, v0) :: set_attr name v r
  end.

(** ASCII whitespace, which separates the tokens of a [class] attribute. *)
Definition is_ascii_space (c : N) : bool :=
  existsb (N.eqb c) [9; 10; 12; 13; 32]%N.

(** The tokens of a space-separated attribute value; [cur] is the token
    being read, reversed. *)
Fixpoint tokens_aux (cur : jsstring) (s : jsstring) : list jsstring :=
  match s with
  | [] => match cur with [] => [] | _ :: _ => [rev cur] end
  | c :: r =>
      if is_ascii_space c
      then match cur with
           | [] => tokens_aux [] r
           | _ :: _ => rev cur :: tokens_aux [] r
           end
      else tokens_aux (c :: cur) r
  end.

Definition class_list (e : element) : list jsstring :=
  match get_attr "class" (attrs e) with
  | Some v => tokens_aux [] v
  | None => []
  end.

(** jQuery's [hasClass], and the selector [.c]. *)
Definition hasClass (c : string) (e : element) : bool :=
  existsb (jsstring_eqb (js c)) (class_list e).

(** ASCII lower case, for the attribute values selectors compare without
    regard to case. *)
Definition ascii_lower (s : jsstring) : jsstring :=
  map (fun c => if ((65 <=? c) && (c <=? 90))%N then (c + 32)%N else c) s.

(** *** The script's selectors *)

(** [input[name="n"]] *)
Definition is_input_named (n : string) (e : element) : bool :=
  String.eqb (tag e) "input" &&
  match get_attr "name" (attrs e) with
  | Some v => jsstring_eqb v (js n)
  | None => false
  end.

(** [input[name="price"], input[name="discount"]] *)
Definition is_price_or_discount (e : element) : bool :=
  is_input_named "price" e || is_input_named "discount" e.

(** [input[type="file"]]; HTML compares the value of [type] in a selector
    without regard to ASCII case. *)
Definition is_file_input (e : element) : bool :=
  String.eqb (tag e) "input" &&
  match get_attr "type" (attrs e) with
  | Some v => jsstring_eqb (ascii_lower v) (js "file")
  | None => false
  end.

(** [form[action*="delete"]] *)
Definition is_delete_form (e : element) : bool :=
  String.eqb (tag e) "form" &&
  match get_attr "action" (attrs e) with
  | Some v => includes (js "delete") v
  | None => false
  end.

(** [#i] *)
Definition has_id (i : string) (e : element) : bool :=
  match get_attr "id" (attrs e) with
  | Some v => jsstring_eqb v (js i)
  | None => false
  end.

Definition is_img (e : element) : bool := String.eqb (tag e) "img".

(** *** Traversal *)

(** The elements of a subtree, in document order. *)
Fixpoint elements_of (n : node) : list element :=
  match n with
  | Text _ => []
  | Elem e ks => e :: flat_map elements_of ks
  end.

Definition elements (d : document) : list element := flat_map elements_of d.

(** [$(selector)]: the matched elements, in document order.  A jQuery
    object holds the elements themselves, here their identities. *)
Definition select (p : element -> bool) (d : document) : list nat :=
  map eid (filter p (elements d)).

(** [$('#i')]: jQuery resolves a lone id selector with [getElementById],
    which yields the first element with that id, if any. *)
Definition select_id (i : string) (d : document) : list nat :=
  match filter (has_id i) (elements d) with
  | [] => []
  | e :: _ => [eid e]
  end.

(** The first result of [f] along a list. *)
Definition first_some {A B : Type} (f : A -> option B) : list A -> option B :=
  fix go (l : list A) : option B :=
    match l with
    | [] => None
    | x :: r =>
        match f x with
        | Some y => Some y
        | None => go r
        end
    end.

(** The element with identity [i], with its children: the first one in
    document order. *)
Fixpoint find_in (i : nat) (n : node) : option (element * list node) :=
  match n with
  | Text _ => None
  | Elem e ks =>
      if Nat.eqb (eid e) i then Some (e, ks)
      else first_some (find_in i) ks
  end.

Definition find_node (i : nat) (d : document) : option (element * list node) :=
  first_some (find_in i) d.

(** [textContent] *)
Fixpoint text_content (n : node) : jsstring :=
  match n with
  | Text s => s
  | Elem _ ks => flat_map text_content ks
  end.

(** [.text()] of a one-element jQuery object. *)
Definition text (i : nat) (d : document) : jsstring :=
  match find_node i d with
  | Some (_, ks) => flat_map text_content ks
  | None => []
  end.

(** The child list that element [i] stands in, when [i] is [n] or below;
    [top] is the child list [n] stands in. *)
Fixpoint family_in (i : nat) (top : list node) (n : node)
  : option (list node) :=
  match n with
  | Text _ => None
  | Elem e ks =>
      if Nat.eqb (eid e) i then Some top
      else first_some (family_in i ks) ks
  end.

Definition family (i : nat) (d : document) : option (list node) :=
  first_some (family_in i d) d.

Definition child_elements (l : list node) : list element :=
  flat_map (fun n => match n with Elem e _ => [e] | Text _ => [] end) l.

(** [.siblings(selector)] of a one-element jQuery object: the other element
    children of its parent that match. *)
Definition siblings (p : element -> bool) (i : nat) (d : document) : list nat :=
  match family i d with
  | Some l =>
      map eid (filter (fun e => negb (Nat.eqb (eid e) i) && p e)
                      (child_elements l))
  | None => []
  end.

(** The chain from element [i] up to the top of the subtree, nearest
    first, when [i] is in the subtree. *)
Fixpoint chain_in (i : nat) (n : node) : option (list element) :=
  match n with
  | Text _ => None
  | Elem e ks =>
      if Nat.eqb (eid e) i then Some [e]
      else match first_some (chain_in i) ks with
           | Some c => Some (c ++ [e])
           | None => None
           end
  end.

Definition chain (i : nat) (d : document) : option (list element) :=
  first_some (chain_in i) d.

(** [.closest(selector)] of a one-element jQuery object: the element itself
    or its nearest ancestor that matches. *)
Definition closest (p : element -> bool) (i : nat) (d : document) : list nat :=
  match chain i d with
  | Some c =>
      match filter p c with
      | [] => []
      | e :: _ => [eid e]
      end
  | None => []
  end.

(** *** Mutation *)

(** Apply [f] to every element whose identity is in [ids]. *)
Fixpoint update_in (ids : list nat) (f : element -> element) (n : node) : node :=
  match n with
  | Text s => Text s
  | Elem e ks =>
      Elem (if existsb (Nat.eqb (eid e)) ids then f e else e)
           (map (update_in ids f) ks)
  end.

Definition update (ids : list nat) (f : element -> element) (d : document)
  : document :=
  map (update_in ids f) d.

(** What [update] makes of one element. *)
Definition touched (ids : list nat) (f : element -> element) (e : element)
  : element :=
  if existsb (Nat.eqb (eid e)) ids then f e else e.

(** What [update] makes of an element and its children. *)
Definition updated (ids : list nat) (f : element -> element)
  (x : element * list node) : element * list node :=
  (if existsb (Nat.eqb (eid (fst x))) ids then f (fst x) else fst x,
   map (update_in ids f) (snd x)).

Definition with_value (v : jsstring) (e : element) : element :=
  {| eid := eid e; tag := tag e; attrs := attrs e; value := v |}.

Definition with_attr (name : string) (v : jsstring) (e : element) : element :=
  {| eid := eid e; tag := tag e; attrs := set_attr name v (attrs e);
     value := value e |}.

(** The ordered set of a list of tokens: each token once, where it comes
    first. *)
Fixpoint ordered_set (l : list jsstring) : list jsstring :=
  match l with
  | [] => []
  | t :: r => t :: filter (fun u => negb (jsstring_eqb t u)) (ordered_set r)
  end.

(** The ordered set serializer: the tokens with one space between two. *)
Fixpoint serialize (l : list jsstring) : jsstring :=
  match l with
  | [] => []
  | t :: r =>
      match r with
      | [] => t
      | _ :: _ => t ++ 32%N :: serialize r
      end
  end.

(** [el.classList.remove(c)] (DOM, interface DOMTokenList): the token is
    taken out of the token set of the [class] attribute and the attribute
    is written back from the set; nothing happens on an element without
    the attribute. *)
Definition class_list_remove (c : string) (e : element) : element :=
  match get_attr "class" (attrs e) with
  | Some v =>
      with_attr "class"
        (serialize (filter (fun u => negb (jsstring_eqb (js c) u))
                           (ordered_set (tokens_aux [] v))))
        e
  | None => e
  end.

(** [.val(v)] on a jQuery object. *)
Definition set_val (ids : list nat) (v : jsstring) (d : document) : document :=
  update ids (with_value v) d.

(** [.attr(name, v)] on a jQuery object. *)
Definition set_attribute (ids : list nat) (name : string) (v : jsstring)
  (d : document) : document :=
  update ids (with_attr name v) d.

Definition strip_cr (s : jsstring) : jsstring :=
  filter (fun c => negb (N.eqb c 13)) s.

(** [.val()]: the value of the first element of the jQuery object, carriage
    returns dropped; [None] is [undefined], for an empty object. *)
Definition val (ids : list nat) (d : document) : option jsstring :=
  match ids with
  | [] => None
  | i :: _ =>
      match find_node i d with
      | Some (e, _) => Some (strip_cr (value e))
      | None => None
      end
  end.

(** [.attr(name)] of the element [i]. *)
Definition attr (name : string) (i : nat) (d : document) : option jsstring :=
  match find_node i d with
  | Some (e, _) => get_attr name (attrs e)
  | None => None
  end.

(** Detach the elements whose identity is in [ids], with their subtrees. *)
Fixpoint remove_in (ids : list nat) (n : node) : list node :=
  match n with
  | Text s => [Text s]
  | Elem e ks =>
      if existsb (Nat.eqb (eid e)) ids then []
      else [Elem e (flat_map (remove_in ids) ks)]
  end.

(** [.remove()] on a jQuery object. *)
Definition remove (ids : list nat) (d : document) : document :=
  flat_map (remove_in ids) d.

(** [$('body').append(n)] *)
Definition append_to_body (n : node) (d : document) : document := d ++ [n].

(** The least identity above all those in use in the page. *)
Definition fresh_eid (d : document) : nat :=
  S (fold_right Nat.max 0 (map eid (elements d))).

End Dom.

(** ** The script *)

Module Script.
Import Dom.

(** The severities the flash loop passes to [showToast]: the strings
    ['success'], ['danger'], ['warning'] and ['info']. *)
Inductive severity := success | danger | warning | info.

Definition severity_name (t : severity) : string :=
  match t with
  | success => "success"
  | danger => "danger"
  | warning => "warning"
  | info => "info"
  end.

(** A selected file: its name, and what follows ["data:"] in the data URL
    the browser makes of it (media type, [;base64,] and the encoded
    bytes). *)
Record file := { file_name : jsstring; url_body : jsstring }.

(** The [result] of a reader after [readAsDataURL(f)] has succeeded. *)
Definition data_url (f : file) : jsstring := js "data:" ++ url_body f.

(** The functions the script registers as event handlers. *)
Inductive handler :=
| PriceInput     (* lines 5-10: on 'input' *)
| FileChange     (* lines 13-26: on 'change' *)
| DeleteSubmit   (* lines 29-33: on 'submit' *)
| ToastHidden.   (* lines 55-57: on 'hidden.bs.toast' *)

Definition handler_eqb (a b : handler) : bool :=
  match a, b with
  | PriceInput, PriceInput | FileChange, FileChange
  | DeleteSubmit, DeleteSubmit | ToastHidden, ToastHidden => true
  | _, _ => false
  end.

(** A read in progress: the reader, the file it reads, and the [preview]
    jQuery object its [onload] closure holds. *)
Record pending_read := { reader : nat; source : file; preview : list nat }.

(** The function passed to [setTimeout] (lines 75-77). *)
Inductive callback := AutoDismiss.

Record timer := { due : Z; action : callback }.

(** The state the script runs in: the page, the allocator of element
    identities, the listeners bound so far, the Bootstrap toasts shown, the
    file reads in progress, the pending timers, the clock in ms, the
    [confirm] dialogs displayed, and the alerts Bootstrap is closing: those
    whose fade transition is under way. *)
Record world := {
  doc : document;
  next_eid : nat;
  bound : list (nat * handler);
  shown : list nat;
  reads : list pending_read;
  next_reader : nat;
  timers : list timer;
  now : Z;
  prompts : list jsstring;
  closing : list nat
}.

(** The world in which the ready callback starts, for a page. *)
Definition load (page : document) : world :=
  {| doc := page; next_eid := fresh_eid page; bound := []; shown := [];
     reads := []; next_reader := 0; timers := []; now := 0%Z; prompts := [];
     closing := [] |}.

Definition set_doc (d : document) (w : world) : world :=
  {| doc := d; next_eid := next_eid w; bound := bound w; shown := shown w;
     reads := reads w; next_reader := next_reader w; timers := timers w;
     now := now w; prompts := prompts w; closing := closing w |}.

(** Reserve [n] element identities. *)
Definition alloc (n : nat) (w : world) : world :=
  {| doc := doc w; next_eid := next_eid w + n; bound := bound w;
     shown := shown w; reads := reads w; next_reader := next_reader w;
     timers := timers w; now := now w; prompts := prompts w; closing := closing w |}.

(** [$(...).on(type, h)]: bind [h] on every element of the jQuery object. *)
Definition bind (ids : list nat) (h : handler) (w : world) : world :=
  {| doc := doc w; next_eid := next_eid w;
     bound := bound w ++ map (fun i => (i, h)) ids; shown := shown w;
     reads := reads w; next_reader := next_reader w; timers := timers w;
     now := now w; prompts := prompts w; closing := closing w |}.

(** [new bootstrap.Toast(el).show()]: the call, with the element it is
    made on.  What Bootstrap does from there is its own: it restyles the
    element through its [class] attribute, which the model leaves as the
    template wrote it, and it hides the toast later, which ends with
    [hidden.bs.toast] on the element (the event [Hidden] below). *)
Definition bs_show (el : nat) (w : world) : world :=
  {| doc := doc w; next_eid := next_eid w; bound := bound w;
     shown := shown w ++ [el]; reads := reads w;
     next_reader := next_reader w; timers := timers w; now := now w;
     prompts := prompts w; closing := closing w |}.

Definition set_reads (r : list pending_read) (w : world) : world :=
  {| doc := doc w; next_eid := next_eid w; bound := bound w; shown := shown w;
     reads := r; next_reader := next_reader w; timers := timers w;
     now := now w; prompts := prompts w; closing := closing w |}.

(** [new FileReader()], [reader.onload = ...], [reader.readAsDataURL(f)] *)
Definition start_read (f : file) (targets : list nat) (w : world) : world :=
  {| doc := doc w; next_eid := next_eid w; bound := bound w; shown := shown w;
     reads := reads w ++ [{| reader := next_reader w; source := f;
                             preview := targets |}];
     next_reader := S (next_reader w); timers := timers w; now := now w;
     prompts := prompts w; closing := closing w |}.

(** [setTimeout(cb, delay)] *)
Definition setTimeout (cb : callback) (delay : Z) (w : world) : world :=
  {| doc := doc w; next_eid := next_eid w; bound := bound w; shown := shown w;
     reads := reads w; next_reader := next_reader w;
     timers := timers w ++ [{| due := (now w + delay)%Z; action := cb |}];
     now := now w; prompts := prompts w; closing := closing w |}.

Definition set_timers (t : list timer) (w : world) : world :=
  {| doc := doc w; next_eid := next_eid w; bound := bound w; shown := shown w;
     reads := reads w; next_reader := next_reader w; timers := t;
     now := now w; prompts := prompts w; closing := closing w |}.

Definition set_now (t : Z) (w : world) : world :=
  {| doc := doc w; next_eid := next_eid w; bound := bound w; shown := shown w;
     reads := reads w; next_reader := next_reader w; timers := timers w;
     now := t; prompts := prompts w; closing := closing w |}.

Definition set_closing (c : list nat) (w : world) : world :=
  {| doc := doc w; next_eid := next_eid w; bound := bound w; shown := shown w;
     reads := reads w; next_reader := next_reader w; timers := timers w;
     now := now w; prompts := prompts w; closing := c |}.

(** [confirm(msg)]: the dialog is displayed; the user's answer is the
    call's result. *)
Definition confirm (msg : jsstring) (w : world) : world :=
  {| doc := doc w; next_eid := next_eid w; bound := bound w; shown := shown w;
     reads := reads w; next_reader := next_reader w; timers := timers w;
     now := now w; prompts := prompts w ++ [msg];
     closing := closing w |}.

(** *** Lines 5-10: the price calculator *)

(** ToString of the argument of [parseFloat]: [undefined] reads
    ["undefined"]. *)
Definition to_js_string (v : option jsstring) : jsstring :=
  match v with
  | Some s => s
  | None => js "undefined"
  end.

(** [price - (price * discount / 100)] *)
Definition final_price (price discount : Number.number) : Number.number :=
  Number.sub price (Number.div (Number.mul price discount) (Number.of_Z 100)).

(** Lines 6-9: from what [.val()] gave for the two fields to the string
    that is written. *)
Definition price_text (price_val discount_val : option jsstring)
  : Number.completion jsstring :=
  let price :=
    Number.or_else (Number.parseFloat (to_js_string price_val))
                   (Number.of_Z 0) in
  let discount :=
    Number.or_else (Number.parseFloat (to_js_string discount_val))
                   (Number.of_Z 0) in
  let finalPrice := final_price price discount in
  Number.toFixed finalPrice 2.

Definition price_input (w : world) : Number.completion world :=
  match price_text (val (select (is_input_named "price") (doc w)) (doc w))
                   (val (select (is_input_named "discount") (doc w)) (doc w))
  with
  | Number.Normal s =>
      Number.Normal
        (set_doc (set_val (select_id "final_price" (doc w)) s (doc w)) w)
  | Number.RangeError => Number.RangeError
  end.

(** *** Lines 13-26: the image preview *)

Definition file_change (this : nat) (files : list file) (w : world) : world :=
  let preview := siblings is_img this (doc w) in
  match preview, files with
  | _ :: _, f :: _ => start_read f preview w
  | _, _ => w
  end.

(** [reader.onload]: [preview.attr('src', e.target.result)] *)
Definition reader_onload (targets : list nat) (result : jsstring) (w : world)
  : world :=
  set_doc (set_attribute targets "src" result (doc w)) w.

(** *** Lines 29-33: the delete confirmation *)

Definition confirm_message : jsstring :=
  js "Are you sure you want to delete this item? This action cannot be undone.".

(** The handler's outcome: the world, and whether it called
    [e.preventDefault()]. *)
Definition delete_submit (answer : bool) (w : world) : world * bool :=
  (confirm confirm_message w, negb answer).

(** *** Lines 36-58: showToast *)

Definition el (i : nat) (t : string) (a : list (string * jsstring)) : element :=
  {| eid := i; tag := t; attrs := a; value := [] |}.

(** A line break and [n] spaces: the text between two tags of the
    template. *)
Definition indent (n : nat) : jsstring := 10%N :: repeat 32%N n.

(** The element the template literal of lines 37-48 denotes, its five
    elements numbered from [i].  The message stands in the toast body as
    text: the HTML parser is not part of the model, and this is what it
    yields for a message without markup.  A message with a tag or a
    character reference is read as HTML, and gives the toast body other
    nodes than this text. *)
Definition toast_markup (i : nat) (message : jsstring) (type : severity) : node :=
  Elem (el i "div" [("class", js "position-fixed bottom-0 end-0 p-3");
                    ("style", js "z-index: 11")])
    [ Text (indent 16);
      Elem (el (i + 1) "div"
              [("class", js "toast align-items-center text-white bg-"
                         ++ js (severity_name type) ++ js " border-0");
               ("role", js "alert")])
        [ Text (indent 20);
          Elem (el (i + 2) "div" [("class", js "d-flex")])
            [ Text (indent 24);
              Elem (el (i + 3) "div" [("class", js "toast-body")])
                [ Text (indent 28 ++ message ++ indent 24) ];
              Text (indent 24);
              Elem (el (i + 4) "button"
                      [("type", js "button");
                       ("class", js "btn-close btn-close-white me-2 m-auto");
                       ("data-bs-dismiss", js "toast")]) [];
              Text (indent 20) ];
          Text (indent 16) ];
      Text (indent 12) ].

(** [toast.find(selector)] on the element just built. *)
Definition find_within (p : element -> bool) (n : node) : list nat :=
  match n with
  | Elem _ ks => select p ks
  | Text _ => []
  end.

Definition showToast (message : jsstring) (type : severity) (w : world) : world :=
  let toast := toast_markup (next_eid w) message type in
  (* $('body').append(toast) *)
  let w1 := set_doc (append_to_body toast (doc w)) (alloc 5 w) in
  (* new bootstrap.Toast(toast.find('.toast')[0]).show() *)
  let w2 := match find_within (hasClass "toast") toast with
            | t :: _ => bs_show t w1
            | [] => w1
            end in
  (* toast.find('.toast').on('hidden.bs.toast', ...) *)
  bind (find_within (hasClass "toast") toast) ToastHidden w2.

(** Lines 55-57: [$(this).closest('.position-fixed').remove()] *)
Definition toast_hidden (this : nat) (w : world) : world :=
  set_doc (remove (closest (hasClass "position-fixed") this (doc w)) (doc w)) w.

(** *** Lines 61-72: flash messages to toasts *)

(** Lines 64-67: the chain of conditionals on the alert's classes. *)
Definition severity_of (e : element) : severity :=
  if hasClass "alert-success" e then success
  else if hasClass "alert-danger" e then danger
  else if hasClass "alert-warning" e then warning
  else if hasClass "alert-info" e then info
  else success.

(** The body of the [each] callback, for the alert [a]. *)
Definition each_alert (w : world) (a : nat) : world :=
  let message := trim (text a (doc w)) in
  let type := match find_node a (doc w) with
              | Some (e, _) => severity_of e
              | None => success
              end in
  if string_truthy message then showToast message type w else w.

(** *** Lines 75-77: auto-dismissal *)

(** Bootstrap's [Alert.close()] on the element [a]: the class [show] is
    taken off; an alert without the class [fade] is removed from the page
    at once, one with it when its transition has ended (the event
    [AlertClosed] below).  An element that left the page with an alert
    closed before it is no longer found there. *)
Definition bs_alert_close (w : world) (a : nat) : world :=
  match find_node a (doc w) with
  | Some (e, _) =>
      if hasClass "fade" e
      then set_closing (closing w ++ [a])
             (set_doc (update [a] (class_list_remove "show") (doc w)) w)
      else set_doc (remove [a] (doc w)) w
  | None => w
  end.

(** [$('.alert').alert('close')]: the plugin closes the matched elements
    one after the other, in document order. *)
Definition auto_dismiss (w : world) : world :=
  fold_left bs_alert_close (select (hasClass "alert") (doc w)) w.

Definition run_callback (cb : callback) (w : world) : world :=
  match cb with
  | AutoDismiss => auto_dismiss w
  end.

(** *** Lines 3-78: the ready callback *)

Definition ready (w : world) : world :=
  let w1 := bind (select is_price_or_discount (doc w)) PriceInput w in
  let w2 := bind (select is_file_input (doc w1)) FileChange w1 in
  let w3 := bind (select is_delete_form (doc w2)) DeleteSubmit w2 in
  let w4 := fold_left each_alert (select (hasClass "alert") (doc w3)) w3 in
  setTimeout AutoDismiss 5000 w4.

(** ** The event loop

    What the browser does to the script's world after the ready callback:
    it dispatches the user's events to the listeners bound on their target,
    completes file reads, lets time pass, runs timers that are due and
    ends the fade transition of a closing alert ([AlertClosed]), on which
    Bootstrap removes the alert from the page. *)

Inductive event :=
| Input (target : nat)
| Change (target : nat) (files : list file)
| Submit (target : nat) (user_accepts : bool)
| Hidden (target : nat)
| ReadDone (r : nat)
| ReadFailed (r : nat)
| Elapse (ms : Z)
| Timeout
| AlertClosed (a : nat).

Definition is_bound (i : nat) (h : handler) (w : world) : bool :=
  existsb (fun b => Nat.eqb (fst b) i && handler_eqb (snd b) h) (bound w).

Definition find_read (r : nat) (w : world) : option pending_read :=
  List.find (fun p => Nat.eqb (reader p) r) (reads w).

Definition drop_read (r : nat) (w : world) : world :=
  set_reads (filter (fun p => negb (Nat.eqb (reader p) r)) (reads w)) w.

(** The first timer that is due, and the others. *)
Fixpoint take_due (t : Z) (l : list timer) : option (timer * list timer) :=
  match l with
  | [] => None
  | x :: r =>
      if (due x <=? t)%Z then Some (x, r)
      else match take_due t r with
           | Some (y, r') => Some (y, x :: r')
           | None => None
           end
  end.

(** The outcome of an event: the world after it, and whether the event's
    default action takes place (for [Submit], the form is submitted). *)
Record outcome := { after : world; default_action : bool }.

Definition dispatch (w : world) (ev : event) : outcome :=
  match ev with
  | Input t =>
      if is_bound t PriceInput w
      then match price_input w with
           | Number.Normal w' => {| after := w'; default_action := true |}
           | Number.RangeError => {| after := w; default_action := true |}
           end
      else {| after := w; default_action := true |}
  | Change t files =>
      if is_bound t FileChange w
      then {| after := file_change t files w; default_action := true |}
      else {| after := w; default_action := true |}
  | Submit t answer =>
      if is_bound t DeleteSubmit w
      then let '(w', prevented) := delete_submit answer w in
           {| after := w'; default_action := negb prevented |}
      else {| after := w; default_action := true |}
  | Hidden t =>
      if is_bound t ToastHidden w
      then {| after := toast_hidden t w; default_action := true |}
      else {| after := w; default_action := true |}
  | ReadDone r =>
      match find_read r w with
      | Some p =>
          {| after := reader_onload (preview p) (data_url (source p))
                                    (drop_read r w);
             default_action := true |}
      | None => {| after := w; default_action := true |}
      end
  | ReadFailed r => {| after := drop_read r w; default_action := true |}
  | Elapse ms =>
      {| after := if (0 <=? ms)%Z then set_now (now w + ms)%Z w else w;
         default_action := true |}
  | Timeout =>
      match take_due (now w) (timers w) with
      | Some (t, rest) =>
          {| after := run_callback (action t) (set_timers rest w);
             default_action := true |}
      | None => {| after := w; default_action := true |}
      end
  | AlertClosed a =>
      if existsb (Nat.eqb a) (closing w)
      then {| after :=
                set_closing (filter (fun b => negb (Nat.eqb b a)) (closing w))
                            (set_doc (remove [a] (doc w)) w);
              default_action := true |}
      else {| after := w; default_action := true |}
  end.

(** The world after a sequence of events. *)
Definition run (w : world) (evs : list event) : world :=
  fold_left (fun w ev => after (dispatch w ev)) evs w.

End Script.

(** ** Vocabulary of the properties *)

Module Props.
Import Dom Script.

(** The real number a Number denotes; 0 for the zeros (and, by convention,
    for the values that denote none). *)
Definition real (x : Number.number) : Q :=
  match x with
  | S754_finite s m e =>
      if s then Qopp (Number.real_of m e) else Number.real_of m e
  | _ => 0%Q
  end.

(** A decimal numeral with exactly two decimal places: an optional minus
    sign, one digit or more, a point, two digits. *)
Definition two_decimals (s : jsstring) : bool :=
  let r := match s with 45%N :: r => r | _ => s end in
  let '(ip, r1) := Number.span_digits r in
  match ip, r1 with
  | _ :: _, [46%N; a; b] => Number.is_digit a && Number.is_digit b
  | _, _ => false
  end.

(** The rational a decimal numeral denotes. *)
Definition decimal_value (s : jsstring) : Q :=
  let '(neg, r) := match s with 45%N :: r => (true, r) | _ => (false, s) end in
  let '(ip, r1) := Number.span_digits r in
  let v := match r1 with
           | 46%N :: fp =>
               (inject_Z (Z.of_N (Number.digits_value (ip ++ fp)))
                / 10 ^ Z.of_nat (List.length fp))%Q
           | _ => inject_Z (Z.of_N (Number.digits_value ip))
           end in
  if neg then Qopp v else v.

(** Only white space, or nothing at all. *)
Definition blank (s : jsstring) : bool := forallb is_white_space s.

(** The identities of the elements of a page. *)
Definition ids (d : document) : list nat := map eid (elements d).

(** Distinct elements of a page have distinct identities. *)
Definition well_formed (d : document) : Prop := NoDup (ids d).

(** The elements of a page with their children, in document order. *)
Fixpoint nodes_of (n : node) : list (element * list node) :=
  match n with
  | Text _ => []
  | Elem e ks => (e, ks) :: flat_map nodes_of ks
  end.

Definition element_nodes (d : document) : list (element * list node) :=
  flat_map nodes_of d.

(** The alert elements of a page. *)
Definition alerts (d : document) : list (element * list node) :=
  filter (fun x => hasClass "alert" (fst x)) (element_nodes d).

(** The text of an alert, as [String.prototype.trim] leaves it. *)
Definition message_of (a : element * list node) : jsstring :=
  trim (flat_map text_content (snd a)).

Definition has_message (a : element * list node) : bool :=
  string_truthy (message_of a).

(** The severity named by the first of the classes [alert-success],
    [alert-danger], [alert-warning], [alert-info] that the element carries,
    [success] when it carries none. *)
Definition first_severity (e : element) : severity :=
  match List.find (fun t => hasClass ("alert-" ++ severity_name t) e)
                  [success; danger; warning; info] with
  | Some t => t
  | None => success
  end.

(** The toasts of a list of alerts: for each, the template of [showToast]
    with the alert's trimmed text and the severity its classes name, the
    elements numbered from [i] on, five a toast. *)
Fixpoint toasts_for (i : nat) (l : list (element * list node)) : list node :=
  match l with
  | [] => []
  | a :: r =>
      toast_markup i (message_of a) (first_severity (fst a))
      :: toasts_for (i + 5) r
  end.

(** The call [showToast(message, type)] for an alert: the alert's trimmed
    text and the severity its classes name. *)
Definition toast_call (a : element * list node) : jsstring * severity :=
  (message_of a, first_severity (fst a)).

(** One call for each alert of the page that has a message, in document
    order. *)
Definition flash_calls (page : document) : list (jsstring * severity) :=
  map toast_call (filter has_message (alerts page)).



(** The worlds the page can be in once the ready callback has run and the
    browser has dispatched some events. *)
Definition reachable (page : document) (w : world) : Prop :=
  exists evs, w = run (ready (load page)) evs.

(** Readers are numbered as they are created: those of the reads in
    progress are distinct, and below the next number. *)
Definition reads_fresh (w : world) : Prop :=
  Forall (fun p => reader p < next_reader w) (reads w)
  /\ NoDup (map reader (reads w)).

(** The read that the [k]-th of the selections [fs] on a file input starts,
    when the first of them gets the reader [r]. *)
Definition read_of (r : nat) (fs : list file) (d : file) (targets : list nat)
  (k : nat) : pending_read :=
  {| reader := r + k; source := nth k fs d; preview := targets |}.

(** A toast of the flash loop, by its rank [k] among the toasts created:
    its elements are numbered from [base + 5 * k]. *)
Definition toast_of (base : nat) (x : nat * jsstring * severity) : node :=
  toast_markup (base + 5 * fst (fst x)) (snd (fst x)) (snd x).

Definition toast_rank (x : nat * jsstring * severity) : nat := fst (fst x).

(** The timer the ready callback sets, on a page loaded at time 0. *)
Definition dismissal : timer := {| due := 5000; action := AutoDismiss |}.

(** What holds of every reachable world.  The page is what has become of
    the loaded page, followed by toasts of the flash loop, each at most
    once; created elements are numbered from [fresh_eid page], those of
    the loaded page below; [hidden.bs.toast] listeners are on toasts;
    the reads in progress hold images of the loaded page; the alerts that
    are closing are elements of the loaded page; and the dismissal timer is
    pending, with no alert closing and the alerts of the loaded page still
    there, or it has run, at 5000 ms or later, and every alert still there
    is closing. *)
Definition shape (page : document) (w : world) : Prop :=
  exists (P : document) (l : list (nat * jsstring * severity)),
    doc w = P ++ map (toast_of (fresh_eid page)) l
    /\ Forall (fun i => i < fresh_eid page) (ids P)
    /\ NoDup (map toast_rank l)
    /\ Forall (fun b => snd b = ToastHidden ->
                        exists k, fst b = fresh_eid page + 5 * k + 1) (bound w)
    /\ Forall (fun p => Forall (fun i => i < fresh_eid page) (preview p))
              (reads w)
    /\ Forall (fun a => a < fresh_eid page) (closing w)
    /\ ((timers w = [dismissal]
         /\ closing w = []
         /\ select (hasClass "alert") P = select (hasClass "alert") page)
        \/ (timers w = []
            /\ (5000 <= now w)%Z
            /\ Forall (fun a => In a (closing w))
                      (select (hasClass "alert") P))).

(** A field that does not parse counts as zero. *)
Definition zero_if_nan (x : Number.number) : Number.number :=
  if Number.is_nan x then Number.pos_zero else x.

End Props.

(** ** Sample pages *)

Module Samples.
Import Dom Script.

Definition input_field (i : nat) (name value : string) : node :=
  Elem {| eid := i; tag := "input"; attrs := [("name", js name)];
          value := js value |} [].

(** A form with the two fields and the output field, numbered 1, 2, 3. *)
Definition price_form (price discount : string) : document :=
  [ Elem (el 0 "form" [("action", js "/menu/add")])
      [ input_field 1 "price" price;
        input_field 2 "discount" discount;
        Elem (el 3 "input" [("id", js "final_price")]) [] ] ].

(** Two flash messages: a danger alert with a close button, numbered 0
    and 1, and an alert with nothing but white space in it, numbered 2. *)
Definition flash_page : document :=
  [ Elem (el 0 "div" [("class", js "alert alert-danger fade show")])
      [ Text (js "  Item deleted. ");
        Elem (el 1 "button" [("class", js "btn-close")]) [] ];
    Elem (el 2 "div" [("class", js "alert alert-info")])
      [ Text (10%N :: js "   ") ] ].


(** A delete form, numbered 0, with its button. *)
Definition delete_page : document :=
  [ Elem (el 0 "form" [("action", js "/menu/delete/3"); ("method", js "post")])
      [ Elem (el 1 "button" [("type", js "submit")]) [Text (js "Delete")] ] ].

(** A file input, numbered 1, with its preview image, numbered 2. *)
Definition preview_page : document :=
  [ Elem (el 0 "div" [("class", js "mb-3")])
      [ Elem (el 1 "input" [("type", js "file"); ("name", js "image")]) [];
        Elem (el 2 "img" [("src", js "/static/placeholder.png")]) [] ] ].

Definition png_a : file :=
  {| file_name := js "a.png"; url_body := js "image/png;base64,QUFB" |}.

Definition png_b : file :=
  {| file_name := js "b.png"; url_body := js "image/png;base64,QkJC" |}.

End Samples.

(** ** Further vocabulary *)

Module MoreProps.
Import Dom Script Props.

(** The submission of a form that the ready callback matched with
    [form[action*="delete"]]. *)
Definition is_delete_submit (page : document) (ev : event) : bool :=
  match ev with
  | Submit f _ => existsb (Nat.eqb f) (select is_delete_form page)
  | _ => false
  end.

(** An alert with a character that is not white space. *)
Definition visible (a : element * list node) : bool :=
  negb (blank (flat_map text_content (snd a))).

(** The first and the last code unit of a string are not white space. *)
Definition tight (s : jsstring) : Prop :=
  match s with
  | [] => False
  | c :: _ => is_white_space c = false /\ is_white_space (last s c) = false
  end.

End MoreProps.

(** Distinct identities, decided on a sample page. *)
Ltac distinct_ids :=
  unfold Props.well_formed; cbv;
  repeat (constructor; [simpl; intuition discriminate|]); constructor.

(* ===================================================================== *)
(** * Part II: properties                                                 *)
(* ===================================================================== *)

(** ** Strings *)

Lemma trim_start_blank (s : jsstring) :
  Props.blank s = true -> trim_start s = [].
Proof.
  induction s as [|c r IH]; simpl; [reflexivity|].
  intros H. apply andb_prop in H as [Hc Hr]. rewrite Hc. auto.
Qed.

Lemma trim_blank (s : jsstring) : Props.blank s = true -> trim s = [].
Proof.
  intros H. unfold trim. rewrite (trim_start_blank s H). reflexivity.
Qed.

(** ** Numbers *)

Module NumberFacts.
Import Number.
Local Open Scope N_scope.

Lemma digits_value_snoc (l : jsstring) (c : N) :
  digits_value (l ++ [c]) = 10 * digits_value l + (c - 48).
Proof. unfold digits_value. rewrite fold_left_app. reflexivity. Qed.

Lemma is_digit_unit (d : N) : d < 10 -> is_digit (48 + d) = true.
Proof.
  intros H. unfold is_digit.
  apply andb_true_intro; split; apply N.leb_le; lia.
Qed.

(** With enough fuel, [digits_aux] yields the decimal digits of [n]. *)
Lemma digits_aux_spec (f : nat) :
  forall n, n < 2 ^ N.of_nat (S f) ->
    digits_aux (S f) n <> [] /\
    Forall (fun c => is_digit c = true) (digits_aux (S f) n) /\
    digits_value (digits_aux (S f) n) = n.
Proof.
  induction f as [|f IH]; intros n Hn.
  - assert (n < 10) as H10 by (change (2 ^ N.of_nat 1) with 2 in Hn; lia).
    cbn [digits_aux]. apply N.ltb_lt in H10 as Hb. rewrite Hb.
    repeat split; [discriminate| |].
    + constructor; [apply is_digit_unit; exact H10 | constructor].
    + unfold digits_value. cbn [fold_left]. lia.
  - change (digits_aux (S (S f)) n)
      with (if n <? 10 then [48 + n]
            else digits_aux (S f) (n / 10) ++ [48 + n mod 10]).
    destruct (n <? 10) eqn:Hb.
    + apply N.ltb_lt in Hb.
      repeat split; [discriminate| |].
      * constructor; [apply is_digit_unit; exact Hb | constructor].
      * unfold digits_value. cbn [fold_left]. lia.
    + apply N.ltb_ge in Hb.
      assert (n / 10 < 2 ^ N.of_nat (S f)) as Hq.
      { apply N.Div0.div_lt_upper_bound.
        replace (N.of_nat (S (S f))) with (N.succ (N.of_nat (S f))) in Hn by lia.
        rewrite N.pow_succ_r' in Hn.
        remember (2 ^ N.of_nat (S f)) as X. lia. }
      destruct (IH _ Hq) as (Hne & Hall & Hval).
      repeat split.
      * intros E. apply app_eq_nil in E as [_ E]. discriminate.
      * apply Forall_app; split; [exact Hall|].
        constructor; [|constructor].
        apply is_digit_unit. apply N.mod_lt. lia.
      * rewrite digits_value_snoc, Hval.
        pose proof (N.div_mod n 10 ltac:(lia)) as H. clear - H.
        remember (n / 10) as q. remember (n mod 10) as r. lia.
Qed.

Lemma decimal_digits_spec (n : N) :
  decimal_digits n <> [] /\
  Forall (fun c => is_digit c = true) (decimal_digits n) /\
  digits_value (decimal_digits n) = n.
Proof.
  unfold decimal_digits. apply digits_aux_spec.
  pose proof (N.size_gt n) as H.
  replace (N.of_nat (S (N.to_nat (N.size n)))) with (N.succ (N.size n)) by lia.
  rewrite N.pow_succ_r'. remember (2 ^ N.size n) as X. lia.
Qed.

(** The built-ins on inputs whose results are known. *)
Example parseFloat_samples :
  parseFloat (js "0.1") = S754_finite false 7205759403792794 (-56)
  /\ parseFloat (js "  -12.5e-3kg") = S754_finite true 7205759403792794 (-59)
  /\ parseFloat (js "1e21") = S754_finite false 7629394531250000 17
  /\ parseFloat (js ".5") = S754_finite false 4503599627370496 (-53)
  /\ parseFloat (js "1e400") = S754_infinity false
  /\ parseFloat (js "-0") = S754_zero true
  /\ parseFloat (js "abc") = NaN
  /\ parseFloat (js ".") = NaN
  /\ parseFloat (js "") = NaN.
Proof. vm_compute. repeat split; reflexivity. Qed.

Example toFixed_samples :
  toFixed (parseFloat (js "1.005")) 2 = Normal (js "1.00")
  /\ toFixed (parseFloat (js "8.345")) 2 = Normal (js "8.35")
  /\ toFixed (parseFloat (js "-0.001")) 2 = Normal (js "-0.00")
  /\ toFixed (parseFloat (js "2.5")) 0 = Normal (js "3")
  /\ toFixed (parseFloat (js "1e21")) 2 = Normal (js "1e+21")
  /\ toFixed (parseFloat (js "-Infinity")) 2 = Normal (js "-Infinity")
  /\ toFixed NaN 2 = Normal (js "NaN")
  /\ toFixed (parseFloat (js "1")) 101 = RangeError.
Proof. vm_compute. repeat split; reflexivity. Qed.

Example to_string_samples :
  to_string (parseFloat (js "0.30000000000000004"))
  = js "0.30000000000000004"
  /\ to_string (parseFloat (js "1e23")) = js "1e+23"
  /\ to_string (parseFloat (js "123456789012345680000"))
     = js "123456789012345680000"
  /\ to_string (parseFloat (js "0.0000001")) = js "1e-7"
  /\ to_string (parseFloat (js "5e-324")) = js "5e-324".
Proof. vm_compute. repeat split; reflexivity. Qed.

End NumberFacts.
Module FixedFacts.
Import Number NumberFacts Props.

Lemma span_digits_all (a r : jsstring) :
  Forall (fun c => is_digit c = true) a ->
  match r with [] => True | c :: _ => is_digit c = false end ->
  span_digits (a ++ r) = (a, r).
Proof.
  intros Ha Hr. induction Ha as [|c a Hc _ IH].
  - destruct r as [|c r]; [reflexivity|]. simpl. rewrite Hr. reflexivity.
  - simpl. rewrite Hc, IH. reflexivity.
Qed.

Lemma digits_value_app (a b : jsstring) :
  digits_value (a ++ b)
  = fold_left (fun acc c => (10 * acc + (c - 48))%N) b (digits_value a).
Proof. unfold digits_value. apply fold_left_app. Qed.

Lemma digits_value_zeros (j : nat) (m : jsstring) :
  digits_value (repeat 48%N j ++ m) = digits_value m.
Proof.
  rewrite digits_value_app.
  replace (digits_value (repeat 48%N j)) with 0%N; [reflexivity|].
  induction j as [|j IH]; [reflexivity|].
  change (repeat 48%N (S j)) with ([48%N] ++ repeat 48%N j).
  rewrite digits_value_app. exact IH.
Qed.

(** A digit string of three digits or more splits into a non-empty head and
    its last two digits. *)
Lemma split_last_two (m : jsstring) :
  (3 <= List.length m)%nat ->
  exists a b1 b2,
    firstn (List.length m - 2) m = a /\
    skipn (List.length m - 2) m = [b1; b2] /\
    a <> [] /\ m = a ++ [b1; b2].
Proof.
  intros Hlen.
  pose proof (firstn_skipn (List.length m - 2) m) as Hsplit.
  pose proof (length_skipn (List.length m - 2) m) as Hs.
  pose proof (length_firstn (List.length m - 2) m) as Hf.
  destruct (skipn (List.length m - 2) m) as [|b1 [|b2 [|b3 r]]] eqn:E;
    simpl in Hs; try lia.
  exists (firstn (List.length m - 2) m), b1, b2.
  repeat split; auto.
  intros E0. rewrite E0 in Hf. simpl in Hf. lia.
Qed.

(** Steps 11.b and 11.c of toFixed with two fraction digits: the numeral
    of [n] hundredths. *)
Lemma fixed_digits_two (n : N) :
  exists a b1 b2,
    fixed_digits n 2 = a ++ [46%N; b1; b2] /\
    a <> [] /\
    Forall (fun c => is_digit c = true) a /\
    is_digit b1 = true /\ is_digit b2 = true /\
    digits_value (a ++ [b1; b2]) = n.
Proof.
  destruct (decimal_digits_spec n) as (Hne & Hall & Hval).
  unfold fixed_digits.
  set (m := decimal_digits n) in *.
  set (m' := if (List.length m <=? 2)%nat
             then repeat 48%N (2 + 1 - List.length m) ++ m else m).
  assert (3 <= List.length m')%nat as Hlen.
  { unfold m'. destruct (List.length m <=? 2)%nat eqn:E.
    - apply Nat.leb_le in E. rewrite length_app, repeat_length. lia.
    - apply Nat.leb_gt in E. lia. }
  assert (Forall (fun c => is_digit c = true) m') as Hall'.
  { unfold m'. destruct (List.length m <=? 2)%nat; [|exact Hall].
    apply Forall_app; split; [|exact Hall].
    apply Forall_forall. intros c Hc. apply repeat_spec in Hc. subst c.
    reflexivity. }
  assert (digits_value m' = n) as Hval'.
  { unfold m'. destruct (List.length m <=? 2)%nat; [|exact Hval].
    rewrite digits_value_zeros. exact Hval. }
  destruct (split_last_two m' Hlen) as (a & b1 & b2 & Hf & Hs & Ha & Hm).
  exists a, b1, b2. rewrite Hf, Hs.
  rewrite Hm in Hall', Hval'.
  apply Forall_app in Hall' as [Hda Hdb].
  pose proof (Forall_inv Hdb) as H1.
  pose proof (Forall_inv (Forall_inv_tail Hdb)) as H2.
  repeat split; auto.
Qed.

Lemma two_decimals_intro (neg : bool) (a : jsstring) (b1 b2 : N) :
  a <> [] -> Forall (fun c => is_digit c = true) a ->
  is_digit b1 = true -> is_digit b2 = true ->
  two_decimals ((if neg then [45%N] else []) ++ a ++ [46%N; b1; b2]) = true.
Proof.
  intros Ha Hall H1 H2.
  assert (two_decimals_body :
    (let '(ip, r1) := span_digits (a ++ [46%N; b1; b2]) in
     match ip, r1 with
     | _ :: _, [46%N; x; y] => is_digit x && is_digit y
     | _, _ => false
     end) = true).
  { rewrite span_digits_all by (auto; reflexivity).
    destruct a as [|c a]; [congruence|]. rewrite H1, H2. reflexivity. }
  destruct neg.
  - exact two_decimals_body.
  - destruct a as [|c a]; [congruence|].
    pose proof (Forall_inv Hall) as Hc. cbv beta in Hc.
    unfold two_decimals. simpl app.
    assert (c <> 45%N) as Hne by (intros ->; discriminate Hc).
    destruct c as [|p]; [exact two_decimals_body|].
    do 6 (destruct p as [p|p|]; try exact two_decimals_body).
    congruence.
Qed.

Lemma decimal_value_intro (neg : bool) (a : jsstring) (b1 b2 : N) :
  a <> [] -> Forall (fun c => is_digit c = true) a ->
  decimal_value ((if neg then [45%N] else []) ++ a ++ [46%N; b1; b2])
  = (let v := (inject_Z (Z.of_N (digits_value (a ++ [b1; b2]))) / 10 ^ 2)%Q in
     if neg then Qopp v else v).
Proof.
  intros Ha Hall.
  assert (body : forall ng : bool,
    (let '(ip, r1) := span_digits (a ++ [46%N; b1; b2]) in
     let v := match r1 with
              | 46%N :: fp =>
                  (inject_Z (Z.of_N (digits_value (ip ++ fp)))
                   / 10 ^ Z.of_nat (List.length fp))%Q
              | _ => inject_Z (Z.of_N (digits_value ip))
              end in
     if ng then Qopp v else v)
    = (let v := (inject_Z (Z.of_N (digits_value (a ++ [b1; b2]))) / 10 ^ 2)%Q in
       if ng then Qopp v else v)).
  { intros ng. rewrite span_digits_all by (auto; reflexivity). reflexivity. }
  destruct neg.
  - exact (body true).
  - destruct a as [|c a]; [congruence|].
    pose proof (Forall_inv Hall) as Hc. cbv beta in Hc.
    unfold decimal_value. simpl app.
    assert (c <> 45%N) as Hne by (intros ->; discriminate Hc).
    destruct c as [|p]; [exact (body false)|].
    do 6 (destruct p as [p|p|]; try exact (body false)).
    congruence.
Qed.

End FixedFacts.

Module ToFixedFacts.
Import Number NumberFacts FixedFacts Props.
Local Open Scope Q_scope.

Lemma real_of_pos (m : positive) (e : Z) : 0 < real_of m e.
Proof.
  unfold real_of. apply Qmult_lt_0_compat.
  - reflexivity.
  - apply Qpower_0_lt. reflexivity.
Qed.

(** [nearest_scaled x 2] is an integer nearest to [100 * x]. *)
Lemma nearest_scaled_two (x : Q) :
  0 <= x ->
  (0 <= nearest_scaled x 2)%Z /\
  Qabs (inject_Z (nearest_scaled x 2) / 10 ^ 2 - x) <= 1 # 200.
Proof.
  intros Hx. unfold nearest_scaled.
  change (10 ^ 2) with (100 # 1).
  set (y := x * (100 # 1) + (1 # 2)).
  pose proof (Qfloor_le y) as Hlo. pose proof (Qlt_floor y) as Hhi.
  rewrite inject_Z_plus in Hhi. change (inject_Z 1) with 1 in Hhi.
  split.
  - change 0%Z with (Qfloor 0). apply Qfloor_resp_le. unfold y. lra.
  - apply Qabs_Qle_condition. unfold y in *.
    set (n := inject_Z (Qfloor (x * (100 # 1) + (1 # 2)))) in *.
    assert (n / (100 # 1) == n * (1 # 100)) as E by (unfold Qdiv; reflexivity).
    rewrite E. split; lra.
Qed.

(** On a finite Number below [10^21] in magnitude, [toFixed(2)] yields a
    numeral with two decimal places that denotes a multiple of one hundredth
    nearest to the Number. *)
Lemma toFixed_two_decimals (x : number) :
  is_finite x = true -> Qabs (real x) < 10 ^ 21 ->
  exists s,
    toFixed x 2 = Normal s /\
    two_decimals s = true /\
    Qabs (decimal_value s - real x) <= 1 # 200.
Proof.
  intros Hfin Hmag. destruct x as [z| |  |sg m e]; try discriminate.
  - destruct (fixed_digits_two 0) as (a & b1 & b2 & E & Ha & Hall & H1 & H2 & Hv).
    exists (fixed_digits 0 2). split; [reflexivity|].
    rewrite E. split.
    + exact (two_decimals_intro false a b1 b2 Ha Hall H1 H2).
    + pose proof (decimal_value_intro false a b1 b2 Ha Hall) as Hd.
      cbn [app] in Hd. rewrite Hd, Hv. apply Qle_bool_iff. reflexivity.
  - pose proof (real_of_pos m e) as Hpos.
    assert (real_of m e < 10 ^ 21) as Hlt.
    { simpl real in Hmag. destruct sg.
      - rewrite Qabs_opp, Qabs_pos in Hmag by lra. exact Hmag.
      - rewrite Qabs_pos in Hmag by lra. exact Hmag. }
    assert (Qle_bool (10 ^ 21) (real_of m e) = false) as Hb.
    { destruct (Qle_bool (10 ^ 21) (real_of m e)) eqn:E; [|reflexivity].
      apply Qle_bool_iff in E. lra. }
    destruct (nearest_scaled_two (real_of m e)) as [Hn Hnear]; [lra|].
    set (n := nearest_scaled (real_of m e) 2) in *.
    destruct (fixed_digits_two (Z.to_N n))
      as (a & b1 & b2 & E & Ha & Hall & H1 & H2 & Hv).
    exists ((if sg then [45%N] else []) ++ fixed_digits (Z.to_N n) 2).
    split.
    + unfold toFixed. simpl orb. cbv iota. rewrite Hb. reflexivity.
    + rewrite E. split.
      * exact (two_decimals_intro sg a b1 b2 Ha Hall H1 H2).
      * rewrite (decimal_value_intro sg a b1 b2 Ha Hall), Hv.
        rewrite Z2N.id by exact Hn. cbv zeta. simpl real.
        destruct sg.
        -- setoid_replace (- (inject_Z n / 10 ^ 2) - - real_of m e)
             with (- (inject_Z n / 10 ^ 2 - real_of m e)) by ring.
           rewrite Qabs_opp. exact Hnear.
        -- exact Hnear.
Qed.

(** [toFixed(2)] never throws. *)
Lemma toFixed_two_normal (x : number) : exists s, toFixed x 2 = Normal s.
Proof. destruct x as [z|i| |sg m e]; simpl; try (eexists; reflexivity).
  unfold toFixed. simpl orb. cbv iota.
  destruct (Qle_bool (10 ^ 21) (real_of m e)); eexists; reflexivity.
Qed.

End ToFixedFacts.
Module PriceFacts.
Import Number Props Script.

Lemma of_Z_0 : of_Z 0 = S754_zero false.
Proof. reflexivity. Qed.

Lemma of_Z_100 : of_Z 100 = S754_finite false 7036874417766400 (-46).
Proof. reflexivity. Qed.

(** [toFixed] does not tell the two zeros apart. *)
Lemma toFixed_zero (a b : bool) (f : Z) :
  toFixed (S754_zero a) f = toFixed (S754_zero b) f.
Proof. reflexivity. Qed.

(** Replacing a zero field by [0] ([|| 0]) does not change the string
    written: for Numbers that are not NaN, the guard is invisible. *)
Lemma or_else_invisible (p d : number) :
  is_nan p = false -> is_nan d = false ->
  toFixed (final_price (or_else p (of_Z 0)) (or_else d (of_Z 0))) 2
  = toFixed (final_price p d) 2.
Proof.
  intros Hp Hd. rewrite of_Z_0. unfold final_price. rewrite of_Z_100.
  destruct p as [sp|sp| |sp mp ep]; try discriminate;
  destruct d as [sd|sd| |sd md ed]; try discriminate;
  try reflexivity.
  - destruct sp, sd; reflexivity.
  - destruct sp, sd; reflexivity.
Qed.

End PriceFacts.
(** ** The page *)

Module DomFacts.
Import Dom Props.

(** Induction on a node, with the property known of every child. *)
Lemma node_induction (P : node -> Prop) :
  (forall s, P (Text s)) ->
  (forall e ks, Forall P ks -> P (Elem e ks)) ->
  forall n, P n.
Proof.
  intros HT HE. fix IH 1. intros [s|e ks].
  - apply HT.
  - apply HE. induction ks as [|k ks IHks]; constructor.
    + apply IH.
    + exact IHks.
Qed.

Section FirstSome.
Context {A B : Type}.

Lemma first_some_app (f : A -> option B) (l1 l2 : list A) :
  first_some f (l1 ++ l2)
  = match first_some f l1 with
    | Some y => Some y
    | None => first_some f l2
    end.
Proof.
  induction l1 as [|x l1 IH]; simpl; [reflexivity|].
  destruct (f x); [reflexivity|exact IH].
Qed.

Lemma first_some_none (f : A -> option B) (l : list A) :
  first_some f l = None <-> Forall (fun x => f x = None) l.
Proof.
  induction l as [|x l IH]; simpl.
  - split; constructor.
  - destruct (f x) eqn:E; split; intros H.
    + discriminate.
    + inversion H; congruence.
    + constructor; [exact E | apply IH; exact H].
    + inversion H; subst. apply IH. assumption.
Qed.

Lemma first_some_some (f : A -> option B) (l : list A) (y : B) :
  first_some f l = Some y -> exists x, In x l /\ f x = Some y.
Proof.
  induction l as [|x l IH]; simpl; [discriminate|].
  destruct (f x) eqn:E.
  - intros H. inversion H; subst. exists x. auto.
  - intros H. destruct (IH H) as (x' & Hin & Hx). exists x'. auto.
Qed.

End FirstSome.

Lemma first_some_map {A B C : Type} (f : B -> option C) (g : A -> B)
  (l : list A) :
  first_some f (map g l) = first_some (fun x => f (g x)) l.
Proof.
  induction l as [|x l IH]; simpl; [reflexivity|].
  destruct (f (g x)); [reflexivity|exact IH].
Qed.

Lemma first_some_lift {A B C : Type} (f : A -> option B) (f' : A -> option C)
  (h : B -> C) (l : list A) :
  Forall (fun x => f' x = option_map h (f x)) l ->
  first_some f' l = option_map h (first_some f l).
Proof.
  induction 1 as [|x l Hx _ IH]; simpl; [reflexivity|].
  rewrite Hx. destruct (f x); simpl; [reflexivity|exact IH].
Qed.

(** *** Lookup *)

Lemma find_in_eid (i : nat) (n : node) :
  forall e ks, find_in i n = Some (e, ks) -> eid e = i.
Proof.
  induction n as [s|e0 ks0 IH] using node_induction; intros e ks H.
  - discriminate.
  - simpl in H. destruct (Nat.eqb (eid e0) i) eqn:E.
    + inversion H; subst. apply Nat.eqb_eq. exact E.
    + apply first_some_some in H as (k & Hin & Hk).
      rewrite Forall_forall in IH. exact (IH k Hin e ks Hk).
Qed.


Lemma find_in_none (i : nat) (n : node) :
  find_in i n = None <-> ~ In i (map eid (elements_of n)).
Proof.
  induction n as [s|e0 ks0 IH] using node_induction.
  - simpl. tauto.
  - simpl. destruct (Nat.eqb (eid e0) i) eqn:E.
    + apply Nat.eqb_eq in E. split; [discriminate|]. intros H. tauto.
    + apply Nat.eqb_neq in E. rewrite first_some_none.
      rewrite Forall_forall in IH. rewrite Forall_forall.
      split.
      * intros H [H0|H0]; [congruence|].
        apply in_map_iff in H0 as (e & He & Hin).
        apply in_flat_map in Hin as (k & Hk & Hek).
        apply (proj1 (IH k Hk) (H k Hk)). apply in_map_iff. eauto.
      * intros H k Hk. apply IH; [exact Hk|]. intros Hin. apply H. right.
        apply in_map_iff in Hin as (e & He & Hin).
        apply in_map_iff. exists e. split; [exact He|].
        apply in_flat_map. eauto.
Qed.

Lemma find_node_eid (i : nat) (d : document) (e : element) (ks : list node) :
  find_node i d = Some (e, ks) -> eid e = i.
Proof.
  intros H. apply first_some_some in H as (n & _ & Hn).
  exact (find_in_eid i n e ks Hn).
Qed.


Lemma find_node_none (i : nat) (d : document) :
  find_node i d = None <-> ~ In i (ids d).
Proof.
  unfold find_node, ids, elements. rewrite first_some_none, Forall_forall.
  split.
  - intros H Hin. apply in_map_iff in Hin as (e & He & Hin).
    apply in_flat_map in Hin as (n & Hn & Hen).
    apply (proj1 (find_in_none i n) (H n Hn)). apply in_map_iff. eauto.
  - intros H n Hn. apply find_in_none. intros Hin. apply H.
    apply in_map_iff in Hin as (e & He & Hin).
    apply in_map_iff. exists e. split; [exact He|].
    apply in_flat_map. eauto.
Qed.

(** An identity in use is found. *)
Lemma find_node_some (i : nat) (d : document) :
  In i (ids d) -> exists e ks, find_node i d = Some (e, ks) /\ eid e = i.
Proof.
  intros Hin. destruct (find_node i d) as [[e ks]|] eqn:E.
  - exists e, ks. split; [reflexivity|]. exact (find_node_eid i d e ks E).
  - apply find_node_none in E. contradiction.
Qed.

(** *** Update *)

Section Update.
Variable ids0 : list nat.
Variable f : element -> element.
Hypothesis f_eid : forall e, eid (f e) = eid e.

Lemma find_in_update (i : nat) (n : node) :
  find_in i (update_in ids0 f n) = option_map (updated ids0 f) (find_in i n).
Proof.
  induction n as [s|e ks IH] using node_induction; [reflexivity|].
  simpl.
  assert (eid (if existsb (Nat.eqb (eid e)) ids0 then f e else e) = eid e) as E.
  { destruct (existsb (Nat.eqb (eid e)) ids0); [apply f_eid|reflexivity]. }
  rewrite E. destruct (Nat.eqb (eid e) i); [reflexivity|].
  rewrite first_some_map. apply first_some_lift. exact IH.
Qed.

Lemma find_node_update (i : nat) (d : document) :
  find_node i (update ids0 f d) = option_map (updated ids0 f) (find_node i d).
Proof.
  unfold find_node, update. rewrite first_some_map.
  apply first_some_lift. apply Forall_forall. intros n _.
  apply find_in_update.
Qed.

End Update.

Lemma strip_cr_id (s : jsstring) :
  Forall (fun c => c <> 13%N) s -> strip_cr s = s.
Proof.
  induction 1 as [|c s Hc _ IH]; simpl; [reflexivity|].
  apply N.eqb_neq in Hc. rewrite Hc. simpl. rewrite IH. reflexivity.
Qed.

(** [.val(s)] then [.val()] on an element of the page. *)
Lemma val_set_val (o : nat) (s : jsstring) (d : document) :
  In o (ids d) -> val [o] (set_val [o] s d) = Some (strip_cr s).
Proof.
  intros Hin. destruct (find_node_some o d Hin) as (e & ks & Hf & He).
  unfold val, set_val. rewrite find_node_update by reflexivity.
  rewrite Hf. simpl. rewrite He, Nat.eqb_refl. reflexivity.
Qed.

Lemma select_id_in (i : string) (d : document) (o : nat) :
  In o (select_id i d) -> In o (ids d).
Proof.
  unfold select_id. destruct (filter (has_id i) (elements d)) as [|e l] eqn:E.
  - intros [].
  - intros [<-|[]]. apply in_map.
    assert (In e (filter (has_id i) (elements d))) as H by (rewrite E; left; reflexivity).
    apply filter_In in H. tauto.
Qed.

End DomFacts.
(** ** The script *)

Module ScriptFacts.
Import Dom Script Props DomFacts.

(** *** Listeners *)

(** Closing an alert touches the page and the alerts that are closing,
    and nothing else. *)
Lemma bs_alert_close_frame (w : world) (a : nat) :
  bound (bs_alert_close w a) = bound w
  /\ timers (bs_alert_close w a) = timers w
  /\ now (bs_alert_close w a) = now w
  /\ reads (bs_alert_close w a) = reads w
  /\ next_reader (bs_alert_close w a) = next_reader w
  /\ prompts (bs_alert_close w a) = prompts w
  /\ shown (bs_alert_close w a) = shown w.
Proof.
  unfold bs_alert_close. destruct (find_node a (doc w)) as [[e ks]|];
    [destruct (hasClass "fade" e)|]; repeat split; reflexivity.
Qed.

Lemma auto_dismiss_frame (w : world) :
  bound (auto_dismiss w) = bound w
  /\ timers (auto_dismiss w) = timers w
  /\ now (auto_dismiss w) = now w
  /\ reads (auto_dismiss w) = reads w
  /\ next_reader (auto_dismiss w) = next_reader w
  /\ prompts (auto_dismiss w) = prompts w
  /\ shown (auto_dismiss w) = shown w.
Proof.
  unfold auto_dismiss. generalize (select (hasClass "alert") (doc w)).
  intros l. revert w. induction l as [|a l IH]; intros w.
  - repeat split; reflexivity.
  - cbn [fold_left].
    destruct (IH (bs_alert_close w a)) as (H1 & H2 & H3 & H4 & H5 & H6 & H7).
    destruct (bs_alert_close_frame w a) as (E1 & E2 & E3 & E4 & E5 & E6 & E7).
    rewrite H1, H2, H3, H4, H5, H6, H7. repeat split; assumption.
Qed.

(** No event binds or unbinds a listener. *)
Lemma dispatch_bound (w : world) (ev : event) :
  bound (after (dispatch w ev)) = bound w.
Proof.
  destruct ev as [t|t fs|t b|t|r|r|ms| |a]; unfold dispatch.
  - destruct (is_bound t PriceInput w); [|reflexivity].
    unfold price_input. destruct (price_text _ _); reflexivity.
  - destruct (is_bound t FileChange w); [|reflexivity].
    unfold file_change.
    destruct (siblings is_img t (doc w)); [reflexivity|].
    destruct fs; reflexivity.
  - destruct (is_bound t DeleteSubmit w); reflexivity.
  - destruct (is_bound t ToastHidden w); reflexivity.
  - destruct (find_read r w); reflexivity.
  - reflexivity.
  - destruct (0 <=? ms)%Z; reflexivity.
  - destruct (take_due (now w) (timers w)) as [[t rest]|]; [|reflexivity].
    destruct (action t). cbn [after run_callback].
    rewrite (proj1 (auto_dismiss_frame _)). reflexivity.
  - destruct (existsb (Nat.eqb a) (closing w)); reflexivity.
Qed.

Lemma run_snoc (w : world) (evs : list event) (ev : event) :
  run w (evs ++ [ev]) = after (dispatch (run w evs) ev).
Proof. unfold run. rewrite fold_left_app. reflexivity. Qed.

(** Induction on the worlds reachable from a page. *)
Lemma reachable_ind (page : document) (P : world -> Prop) :
  P (ready (load page)) ->
  (forall w ev, reachable page w -> P w -> P (after (dispatch w ev))) ->
  forall w, reachable page w -> P w.
Proof.
  intros H0 Hstep w [evs ->].
  induction evs as [|ev evs IH] using rev_ind.
  - exact H0.
  - rewrite run_snoc. apply Hstep; [exists evs; reflexivity | exact IH].
Qed.

Lemma reachable_step (page : document) (w : world) (ev : event) :
  reachable page w -> reachable page (after (dispatch w ev)).
Proof.
  intros [evs ->]. exists (evs ++ [ev]). symmetry. apply run_snoc.
Qed.

Lemma reachable_bound (page : document) (w : world) :
  reachable page w -> bound w = bound (ready (load page)).
Proof.
  intros H. induction H as [|w ev _ IH] using reachable_ind.
  - reflexivity.
  - rewrite dispatch_bound. exact IH.
Qed.

(** The flash loop binds [hidden.bs.toast] listeners only, and leaves the
    clock, the timers, the reads and the dialogs alone. *)
Lemma showToast_frame (m : jsstring) (t : severity) (w : world) :
  (exists l, bound (showToast m t w) = bound w ++ l
             /\ Forall (fun b => snd b = ToastHidden) l)
  /\ timers (showToast m t w) = timers w
  /\ now (showToast m t w) = now w
  /\ reads (showToast m t w) = reads w
  /\ next_reader (showToast m t w) = next_reader w
  /\ prompts (showToast m t w) = prompts w.
Proof.
  unfold showToast.
  set (toast := toast_markup (next_eid w) m t).
  split; [|destruct (find_within (hasClass "toast") toast); repeat split].
  exists (map (fun i => (i, ToastHidden)) (find_within (hasClass "toast") toast)).
  split.
  - destruct (find_within (hasClass "toast") toast); reflexivity.
  - apply Forall_forall. intros b Hb. apply in_map_iff in Hb as (i & <- & _).
    reflexivity.
Qed.

Lemma each_alert_frame (w : world) (a : nat) :
  (exists l, bound (each_alert w a) = bound w ++ l
             /\ Forall (fun b => snd b = ToastHidden) l)
  /\ timers (each_alert w a) = timers w
  /\ now (each_alert w a) = now w
  /\ reads (each_alert w a) = reads w
  /\ next_reader (each_alert w a) = next_reader w
  /\ prompts (each_alert w a) = prompts w.
Proof.
  unfold each_alert. destruct (string_truthy _).
  - apply showToast_frame.
  - split; [|repeat split]. exists []. rewrite app_nil_r. split; constructor.
Qed.

Lemma flash_loop_frame (l : list nat) (w : world) :
  (exists b, bound (fold_left each_alert l w) = bound w ++ b
             /\ Forall (fun b => snd b = ToastHidden) b)
  /\ timers (fold_left each_alert l w) = timers w
  /\ now (fold_left each_alert l w) = now w
  /\ reads (fold_left each_alert l w) = reads w
  /\ next_reader (fold_left each_alert l w) = next_reader w
  /\ prompts (fold_left each_alert l w) = prompts w.
Proof.
  revert w. induction l as [|a l IH]; intros w; simpl.
  - split; [|repeat split]. exists []. rewrite app_nil_r. split; constructor.
  - destruct (IH (each_alert w a)) as ((b & Hb & Hall) & Ht & Hn & Hr & Hnr & Hp).
    destruct (each_alert_frame w a) as ((b0 & Hb0 & Hall0) & Ht0 & Hn0 & Hr0 & Hnr0 & Hp0).
    split; [|repeat split; congruence].
    exists (b0 ++ b). split.
    + rewrite Hb, Hb0, app_assoc. reflexivity.
    + apply Forall_app. auto.
Qed.

(** The listeners after the ready callback: the three selections of the
    page, then the toasts'. *)
Lemma flash_loop_closing (l : list nat) (w : world) :
  closing (fold_left each_alert l w) = closing w.
Proof.
  revert w. induction l as [|a l IH]; intros w; [reflexivity|].
  cbn [fold_left]. rewrite IH. unfold each_alert.
  destruct (string_truthy _); [|reflexivity].
  unfold showToast. destruct (find_within _ _); reflexivity.
Qed.

Lemma ready_bound (page : document) :
  exists toasts,
    bound (ready (load page))
    = map (fun i => (i, PriceInput)) (select is_price_or_discount page)
      ++ map (fun i => (i, FileChange)) (select is_file_input page)
      ++ map (fun i => (i, DeleteSubmit)) (select is_delete_form page)
      ++ toasts
    /\ Forall (fun b => snd b = ToastHidden) toasts.
Proof.
  unfold ready. cbn [doc bind load setTimeout bound].
  match goal with
  | |- context [fold_left each_alert ?l ?w] =>
      destruct (flash_loop_frame l w) as ((b & Hb & Hall) & _)
  end.
  exists b. split; [|exact Hall].
  cbn [bound] in *. rewrite Hb. unfold bind, load. cbn [bound app].
  rewrite <- !app_assoc. reflexivity.
Qed.

Lemma existsb_bound_in (l : list (nat * handler)) (i : nat) (h : handler) :
  existsb (fun b => Nat.eqb (fst b) i && handler_eqb (snd b) h) l = true
  <-> In (i, h) l.
Proof.
  rewrite existsb_exists. split.
  - intros ([j g] & Hin & H). apply andb_prop in H as [H1 H2].
    apply Nat.eqb_eq in H1. simpl in H1, H2. subst j.
    destruct g, h; try discriminate; exact Hin.
  - intros H. exists (i, h). split; [exact H|]. simpl.
    rewrite Nat.eqb_refl. destruct h; reflexivity.
Qed.

Lemma is_bound_in (w : world) (i : nat) (h : handler) :
  is_bound i h w = true <-> In (i, h) (bound w).
Proof. apply existsb_bound_in. Qed.

(** In every reachable world, the listeners of the three page handlers are
    on the elements the ready callback selected. *)
Lemma reachable_is_bound (page : document) (w : world) (i : nat) (h : handler) :
  reachable page w -> h <> ToastHidden ->
  (is_bound i h w = true <->
   In i (select match h with
                | PriceInput => is_price_or_discount
                | FileChange => is_file_input
                | _ => is_delete_form
                end page)).
Proof.
  intros Hr Hh. rewrite is_bound_in, (reachable_bound page w Hr).
  destruct (ready_bound page) as (toasts & -> & Hall).
  rewrite !in_app_iff, !in_map_iff.
  assert (~ In (i, h) toasts) as Hno.
  { intros Hin. rewrite Forall_forall in Hall. apply Hall in Hin. simpl in Hin.
    contradiction. }
  split.
  - intros [(j & E & Hj)|[(j & E & Hj)|[(j & E & Hj)|Hin]]];
      try (inversion E; subst; exact Hj); contradiction.
  - intros Hin. destruct h; try contradiction.
    + left. eauto.
    + right. left. eauto.
    + right. right. left. eauto.
Qed.

End ScriptFacts.
(** ** The price calculator *)

Module PriceClaims.
Import Dom Script Props Samples.
Import Number NumberFacts ToFixedFacts PriceFacts DomFacts ScriptFacts.

Lemma span_digits_spec (s : jsstring) :
  s = fst (span_digits s) ++ snd (span_digits s) /\
  Forall (fun c => is_digit c = true) (fst (span_digits s)).
Proof.
  induction s as [|c r [IH1 IH2]]; simpl; [split; [reflexivity|constructor]|].
  destruct (is_digit c) eqn:E; [|split; [reflexivity|constructor]].
  destruct (span_digits r) as [ds rest]. simpl in *. split.
  - f_equal. exact IH1.
  - constructor; assumption.
Qed.

Lemma digit_not_cr (c : N) : is_digit c = true -> c <> 13%N.
Proof. intros H ->. discriminate H. Qed.

(** A numeral with two decimal places holds no carriage return, so
    [.val()] reads it back as written. *)
Lemma two_decimals_no_cr (s : jsstring) :
  two_decimals s = true -> strip_cr s = s.
Proof.
  intros H. apply strip_cr_id.
  assert (forall r,
    (let '(ip, r1) := span_digits r in
     match ip, r1 with
     | _ :: _, [46%N; a; b] => is_digit a && is_digit b
     | _, _ => false
     end) = true -> Forall (fun c => c <> 13%N) r) as body.
  { intros r Hr. destruct (span_digits_spec r) as [E Hall].
    destruct (span_digits r) as [ip r1]. simpl in E, Hall.
    destruct ip as [|c ip]; [discriminate|].
    destruct r1 as [|x [|a [|b [|y r1]]]]; try discriminate;
      destruct x as [|p]; try discriminate;
      do 6 (destruct p as [p|p|]; try discriminate).
    apply andb_prop in Hr as [Ha Hb]. rewrite E.
    apply Forall_app; split.
    - eapply Forall_impl; [|exact Hall]. intros c0. apply digit_not_cr.
    - repeat constructor; [discriminate | apply digit_not_cr ..]; assumption. }
  unfold two_decimals in H.
  destruct s as [|c r]; [discriminate|].
  destruct (N.eq_dec c 45) as [->|Hc].
  - constructor; [discriminate|]. apply body. exact H.
  - apply body.
    destruct c as [|p]; [exact H|].
    do 6 (destruct p as [p|p|]; try exact H). congruence.
Qed.

(** The string the handler writes, for fields that both parse. *)
Lemma price_text_parsed (sp sd : jsstring) :
  is_nan (parseFloat sp) = false -> is_nan (parseFloat sd) = false ->
  price_text (Some sp) (Some sd)
  = toFixed (final_price (parseFloat sp) (parseFloat sd)) 2.
Proof. intros Hp Hd. unfold price_text. simpl to_js_string.
  apply or_else_invisible; assumption. Qed.

(** C1, as amended: when both fields parse and the computed value is finite
    and below 10^21 in magnitude, an input event on either field writes
    into [#final_price] a numeral with exactly two decimal places that
    denotes a hundredth nearest to [price - price * discount / 100]. *)
Theorem final_price_two_decimals
  (page : document) (w : world) (t o : nat) (sp sd : jsstring) :
  reachable page w ->
  In t (select is_price_or_discount page) ->
  val (select (is_input_named "price") (doc w)) (doc w) = Some sp ->
  val (select (is_input_named "discount") (doc w)) (doc w) = Some sd ->
  is_nan (parseFloat sp) = false ->
  is_nan (parseFloat sd) = false ->
  is_finite (final_price (parseFloat sp) (parseFloat sd)) = true ->
  (Qabs (real (final_price (parseFloat sp) (parseFloat sd))) < 10 ^ 21)%Q ->
  select_id "final_price" (doc w) = [o] ->
  exists s,
    val [o] (doc (after (dispatch w (Input t)))) = Some s /\
    two_decimals s = true /\
    (Qabs (decimal_value s - real (final_price (parseFloat sp) (parseFloat sd)))
     <= 1 # 200)%Q.
Proof.
  intros Hr Ht Hvp Hvd Hp Hd Hfin Hmag Ho.
  destruct (toFixed_two_decimals _ Hfin Hmag) as (s & Hs & H2 & Hnear).
  exists s. split; [|split; assumption].
  assert (is_bound t PriceInput w = true) as Hb.
  { apply (reachable_is_bound page w t PriceInput Hr); [discriminate|exact Ht]. }
  unfold dispatch. rewrite Hb. unfold price_input.
  rewrite Hvp, Hvd, (price_text_parsed sp sd Hp Hd), Hs, Ho.
  cbn [after doc set_doc]. rewrite val_set_val.
  - rewrite (two_decimals_no_cr s H2). reflexivity.
  - apply (select_id_in "final_price"). rewrite Ho. left. reflexivity.
Qed.

Lemma final_price_two_decimals_witness :
  exists s,
    val [3] (doc (after (dispatch (ready (load (price_form "19.99" "15")))
                                  (Input 1)))) = Some s /\
    two_decimals s = true /\
    (Qabs (decimal_value s
           - real (final_price (parseFloat (js "19.99")) (parseFloat (js "15"))))
     <= 1 # 200)%Q.
Proof.
  apply (final_price_two_decimals (price_form "19.99" "15")
           (ready (load (price_form "19.99" "15"))) 1 3 (js "19.99") (js "15")).
  - exists []. reflexivity.
  - vm_compute. auto.
  - reflexivity.
  - reflexivity.
  - reflexivity.
  - reflexivity.
  - reflexivity.
  - vm_compute. reflexivity.
  - reflexivity.
Defined.

Example price_19_99_less_15_percent :
  val [3] (doc (after (dispatch (ready (load (price_form "19.99" "15")))
                                (Input 2)))) = Some (js "16.99").
Proof. vm_compute. reflexivity. Qed.

(** C1 as stated fails: both fields parse, and what is written has no
    decimal places. *)
Lemma final_price_1e21_not_two_decimals :
  is_nan (parseFloat (js "1e21")) = false /\
  is_nan (parseFloat (js "0")) = false /\
  val [3] (doc (after (dispatch (ready (load (price_form "1e21" "0")))
                                (Input 1)))) = Some (js "1e+21") /\
  two_decimals (js "1e+21") = false.
Proof. vm_compute. repeat split; reflexivity. Qed.

End PriceClaims.

Module InvalidInputClaims.
Import Dom Script Props Samples.
Import Number PriceFacts ToFixedFacts.

(** The guard [|| 0] and "a field that does not parse counts as zero" give
    the same string, whatever the fields hold. *)
Lemma or_else_zero_if_nan (p d : number) :
  toFixed (final_price (or_else p (of_Z 0)) (or_else d (of_Z 0))) 2
  = toFixed (final_price (zero_if_nan p) (zero_if_nan d)) 2.
Proof.
  rewrite of_Z_0. unfold final_price. rewrite of_Z_100.
  destruct p as [sp|sp| |sp mp ep]; destruct d as [sd|sd| |sd md ed];
    try reflexivity;
    try (destruct sp; reflexivity); try (destruct sd; reflexivity);
    destruct sp, sd; reflexivity.
Qed.

(** C2: whatever the two fields hold, the handler raises no error and
    writes [toFixed(2)] of the formula applied to the parsed values, with 0
    for a value that does not parse; the empty string does not parse, and
    price ["abc"] with discount ["10"] gives ["0.00"]. *)
Theorem invalid_input_is_zero (w : world) :
  (exists s,
     toFixed
       (final_price
          (zero_if_nan (parseFloat (to_js_string
             (val (select (is_input_named "price") (doc w)) (doc w)))))
          (zero_if_nan (parseFloat (to_js_string
             (val (select (is_input_named "discount") (doc w)) (doc w))))))
       2 = Normal s /\
     price_input w
     = Normal (set_doc (set_val (select_id "final_price" (doc w)) s (doc w)) w))
  /\ parseFloat [] = NaN
  /\ zero_if_nan NaN = pos_zero
  /\ val [3] (doc (after (dispatch (ready (load (price_form "abc" "10")))
                                   (Input 1)))) = Some (js "0.00").
Proof.
  split; [|repeat split; vm_compute; reflexivity].
  unfold price_input, price_text. rewrite or_else_zero_if_nan.
  destruct (toFixed_two_normal
    (final_price
       (zero_if_nan (parseFloat (to_js_string
          (val (select (is_input_named "price") (doc w)) (doc w)))))
       (zero_if_nan (parseFloat (to_js_string
          (val (select (is_input_named "discount") (doc w)) (doc w)))))))
    as [s Hs].
  exists s. rewrite Hs. split; reflexivity.
Qed.

Example empty_fields_give_zero :
  val [3] (doc (after (dispatch (ready (load (price_form "" "")))
                                (Input 2)))) = Some (js "0.00").
Proof. vm_compute. reflexivity. Qed.

End InvalidInputClaims.
(** ** Flash messages *)

Module FlashFacts.
Import Dom Script Props DomFacts ScriptFacts.

Lemma NoDup_app_disjoint {A : Type} (l1 l2 : list A) :
  NoDup (l1 ++ l2) -> forall a, In a l1 -> ~ In a l2.
Proof.
  induction l1 as [|x l1 IH]; simpl; intros H a Ha; [contradiction|].
  inversion H as [|? ? Hx Hnd]; subst. destruct Ha as [->|Ha].
  - intros Hin. apply Hx. apply in_or_app. right. exact Hin.
  - exact (IH Hnd a Ha).
Qed.

Lemma filter_map_fst {A B : Type} (p : A -> bool) (l : list (A * B)) :
  filter p (map fst l) = map fst (filter (fun x => p (fst x)) l).
Proof.
  induction l as [|x l IH]; simpl; [reflexivity|].
  destruct (p (fst x)); simpl; rewrite IH; reflexivity.
Qed.

Lemma nodes_of_fst (n : node) : map fst (nodes_of n) = elements_of n.
Proof.
  induction n as [s|e ks IH] using node_induction; simpl; [reflexivity|].
  f_equal. induction IH as [|k ks Hk _ IHks]; simpl; [reflexivity|].
  rewrite map_app, Hk, IHks. reflexivity.
Qed.

Lemma element_nodes_fst (d : document) :
  map fst (element_nodes d) = elements d.
Proof.
  unfold element_nodes, elements. induction d as [|n d IH]; simpl; [reflexivity|].
  rewrite map_app, nodes_of_fst, IH. reflexivity.
Qed.

Lemma nodes_in_elements (l : list node) (e : element) (ks : list node) :
  In (e, ks) (flat_map nodes_of l) -> In e (flat_map elements_of l).
Proof.
  intros Hin. apply in_flat_map in Hin as (k & Hk & Hin).
  apply in_flat_map. exists k. split; [exact Hk|].
  rewrite <- nodes_of_fst. apply (in_map fst) in Hin. exact Hin.
Qed.

(** A selection, read off the elements with their children. *)
Lemma select_nodes (p : element -> bool) (d : document) :
  select p d
  = map (fun x => eid (fst x)) (filter (fun x => p (fst x)) (element_nodes d)).
Proof.
  unfold select. rewrite <- element_nodes_fst, filter_map_fst, map_map.
  reflexivity.
Qed.

(** With distinct identities, looking an element up by its identity finds
    that element. *)
Lemma find_in_unique (n : node) :
  NoDup (map eid (elements_of n)) ->
  forall e ks, In (e, ks) (nodes_of n) -> find_in (eid e) n = Some (e, ks).
Proof.
  induction n as [s|e0 ks0 IH] using node_induction; intros Hnd e ks Hin.
  - destruct Hin.
  - simpl in Hin, Hnd. inversion Hnd as [|? ? Hfresh Hnd']; subst.
    destruct Hin as [E|Hin].
    + inversion E; subst. simpl. rewrite Nat.eqb_refl. reflexivity.
    + assert (In (eid e) (map eid (flat_map elements_of ks0))) as Hid.
      { apply in_map. exact (nodes_in_elements _ _ _ Hin). }
      simpl. destruct (Nat.eqb (eid e0) (eid e)) eqn:E.
      { apply Nat.eqb_eq in E. rewrite E in Hfresh. contradiction. }
      clear E Hfresh Hnd Hid.
      induction IH as [|k ks1 Hk _ IHks]; [destruct Hin|].
      simpl in Hin, Hnd'. rewrite map_app in Hnd'.
      apply in_app_or in Hin as [Hin|Hin].
      * simpl. rewrite (Hk (NoDup_app_remove_r _ _ Hnd') e ks Hin). reflexivity.
      * simpl.
        assert (find_in (eid e) k = None) as Hnone.
        { apply find_in_none. intros Hk'.
          apply (NoDup_app_disjoint _ _ Hnd' (eid e) Hk').
          apply in_map. exact (nodes_in_elements _ _ _ Hin). }
        rewrite Hnone. apply IHks; [exact Hin|exact (NoDup_app_remove_l _ _ Hnd')].
Qed.

Lemma find_node_unique (d : document) :
  well_formed d ->
  forall e ks, In (e, ks) (element_nodes d) -> find_node (eid e) d = Some (e, ks).
Proof.
  unfold well_formed, ids, elements, element_nodes, find_node.
  induction d as [|n d IH]; intros Hnd e ks Hin; [destruct Hin|].
  simpl in Hin, Hnd. rewrite map_app in Hnd.
  apply in_app_or in Hin as [Hin|Hin]; simpl.
  - rewrite (find_in_unique n (NoDup_app_remove_r _ _ Hnd) e ks Hin). reflexivity.
  - assert (find_in (eid e) n = None) as Hnone.
    { apply find_in_none. intros Hk'.
      apply (NoDup_app_disjoint _ _ Hnd (eid e) Hk').
      apply in_map. exact (nodes_in_elements _ _ _ Hin). }
    rewrite Hnone. apply IH; [exact (NoDup_app_remove_l _ _ Hnd)|exact Hin].
Qed.

(** What is appended to the page does not hide what the page holds. *)
Lemma find_node_app_l (i : nat) (d t : document) (x : element * list node) :
  find_node i d = Some x -> find_node i (d ++ t) = Some x.
Proof.
  intros H. unfold find_node in *. rewrite first_some_app, H. reflexivity.
Qed.

(** Lines 64-67 pick the first class present. *)
Lemma severity_of_first (e : element) : severity_of e = first_severity e.
Proof.
  unfold severity_of, first_severity. simpl.
  destruct (hasClass "alert-success" e); [reflexivity|].
  destruct (hasClass "alert-danger" e); [reflexivity|].
  destruct (hasClass "alert-warning" e); [reflexivity|].
  destruct (hasClass "alert-info" e); reflexivity.
Qed.

(** The one [.toast] element of the template is its second element. *)
Lemma toast_markup_find (i : nat) (m : jsstring) (t : severity) :
  find_within (hasClass "toast") (toast_markup i m t) = [i + 1].
Proof. destruct t; reflexivity. Qed.

(** [showToast], spelled out. *)
Lemma showToast_spec (m : jsstring) (t : severity) (w : world) :
  showToast m t w
  = bind [next_eid w + 1] ToastHidden
      (bs_show (next_eid w + 1)
         (set_doc (doc w ++ [toast_markup (next_eid w) m t]) (alloc 5 w))).
Proof.
  unfold showToast. rewrite toast_markup_find. reflexivity.
Qed.

(** The state of the flash loop: the toasts appended so far. *)
Lemma flash_loop (page : document) (l : list (element * list node)) :
  (forall a, In a l -> find_node (eid (fst a)) page = Some a) ->
  forall w ts,
    doc w = page ++ ts ->
    let w' := fold_left each_alert (map (fun a => eid (fst a)) l) w in
    doc w' = page ++ ts ++ toasts_for (next_eid w) (filter has_message l)
    /\ next_eid w' = next_eid w + 5 * List.length (filter has_message l)
    /\ shown w'
       = shown w ++ map (fun k => next_eid w + 5 * k + 1)
                        (seq 0 (List.length (filter has_message l)))
    /\ bound w'
       = bound w ++ map (fun k => (next_eid w + 5 * k + 1, ToastHidden))
                        (seq 0 (List.length (filter has_message l))).
Proof.
  induction l as [|a l IH]; intros Hfind w ts Hdoc; cbn zeta.
  - simpl. rewrite !app_nil_r, Nat.add_0_r. auto.
  - assert (find_node (eid (fst a)) (doc w) = Some a) as Ha.
    { rewrite Hdoc. apply find_node_app_l. apply Hfind. left. reflexivity. }
    assert (each_alert w (eid (fst a))
            = if has_message a
              then showToast (message_of a) (first_severity (fst a)) w
              else w) as Hstep.
    { unfold each_alert, text, has_message, message_of. rewrite Ha.
      destruct a as [e ks]. simpl. rewrite severity_of_first. reflexivity. }
    simpl map. simpl fold_left. rewrite Hstep. simpl filter.
    destruct (has_message a) eqn:Hm.
    + rewrite showToast_spec.
      specialize (IH (fun b Hb => Hfind b (or_intror Hb))
        (bind [next_eid w + 1] ToastHidden
           (bs_show (next_eid w + 1)
              (set_doc (doc w ++ [toast_markup (next_eid w) (message_of a)
                                               (first_severity (fst a))])
                       (alloc 5 w))))
        (ts ++ [toast_markup (next_eid w) (message_of a) (first_severity (fst a))])).
      cbn zeta in IH. cbn [doc next_eid shown bound bind bs_show set_doc alloc] in IH.
      destruct IH as (Hd & Hn & Hs & Hb).
      { rewrite Hdoc, app_assoc. reflexivity. }
      rewrite Hd, Hn, Hs, Hb. cbn [toasts_for List.length seq map].
      rewrite <- !app_assoc. cbn [app].
      rewrite <- !seq_shift, !map_map.
      repeat split; try lia.
      * f_equal. f_equal; [lia|].
        apply map_ext. intros k. lia.
      * f_equal. f_equal; [f_equal; lia|].
        apply map_ext. intros k. f_equal. lia.
    + apply IH; [|exact Hdoc]. intros b Hb. apply Hfind. right. exact Hb.
Qed.

(** The page, the toasts and the Bootstrap instances after the ready
    callback. *)
Lemma ready_toasts (page : document) :
  well_formed page ->
  doc (ready (load page))
  = page ++ toasts_for (fresh_eid page) (filter has_message (alerts page))
  /\ shown (ready (load page))
     = map (fun k => fresh_eid page + 5 * k + 1)
           (seq 0 (List.length (filter has_message (alerts page)))).
Proof.
  intros Hwf. unfold ready. cbn [doc bind load setTimeout shown].
  rewrite (select_nodes (hasClass "alert") page). fold (alerts page).
  match goal with
  | |- context [fold_left each_alert _ ?w] =>
      destruct (flash_loop page (alerts page)
                  (fun a Ha => ltac:(destruct a as [e ks];
                     apply (find_node_unique page Hwf);
                     apply filter_In in Ha; tauto)) w []) as (Hd & _ & Hs & _)
  end.
  - simpl. rewrite app_nil_r. reflexivity.
  - rewrite Hd, Hs. split; reflexivity.
Qed.

End FlashFacts.

Module FlashClaims.
Import Dom Script Props Samples DomFacts ScriptFacts FlashFacts.

(** The [.toast] elements of a run of toasts. *)
Lemma toasts_for_find (l : list (element * list node)) :
  forall i,
    flat_map (find_within (hasClass "toast")) (toasts_for i l)
    = map (fun k => i + 5 * k + 1) (seq 0 (List.length l)).
Proof.
  induction l as [|a l IH]; intros i; [reflexivity|].
  cbn [toasts_for flat_map List.length seq map].
  rewrite toast_markup_find, IH, <- seq_shift, map_map. cbn [app].
  f_equal; [lia|]. apply map_ext. intros k. lia.
Qed.




Example flash_page_calls :
  select (hasClass "alert") flash_page = [0; 2]
  /\ flash_calls flash_page = [(js "Item deleted.", danger)]
  /\ shown (ready (load flash_page)) = [4].
Proof. vm_compute. repeat split; reflexivity. Qed.


(** C6: the severity the flash loop passes to [showToast] is the one named
    by the first of the classes [alert-success], [alert-danger],
    [alert-warning], [alert-info] the alert carries, in this order, and
    [success] when it carries none of them. *)
Theorem severity_by_first_class
  (w : world) (a : nat) (e : element) (ks : list node) :
  find_node a (doc w) = Some (e, ks) ->
  string_truthy (trim (text a (doc w))) = true ->
  severity_of e = first_severity e /\
  each_alert w a = showToast (trim (text a (doc w))) (first_severity e) w.
Proof.
  intros Hf Hm. split; [apply severity_of_first|].
  unfold each_alert. rewrite Hm, Hf, severity_of_first. reflexivity.
Qed.

Lemma severity_by_first_class_witness :
  severity_of (el 0 "div" [("class", js "alert alert-danger fade show")])
  = first_severity (el 0 "div" [("class", js "alert alert-danger fade show")])
  /\ each_alert (load flash_page) 0
     = showToast (trim (text 0 (doc (load flash_page))))
         (first_severity (el 0 "div" [("class", js "alert alert-danger fade show")]))
         (load flash_page).
Proof.
  apply (severity_by_first_class (load flash_page) 0 _
           [ Text (js "  Item deleted. ");
             Elem (el 1 "button" [("class", js "btn-close")]) [] ]).
  - reflexivity.
  - reflexivity.
Defined.

Example severity_order :
  first_severity (el 0 "div" [("class", js "alert alert-info alert-danger")])
  = danger
  /\ first_severity (el 0 "div" [("class", js "alert alert-primary")]) = success
  /\ first_severity (el 0 "div" [("class", js "alert-warning alert")]) = warning.
Proof. vm_compute. repeat split; reflexivity. Qed.

(** C10: an alert whose text is empty or white space only gets no toast:
    the toasts after the ready callback are those of the page's other
    alerts. *)
Theorem blank_alert_makes_no_toast
  (page : document) (pre post : list (element * list node))
  (a : element * list node) :
  well_formed page ->
  alerts page = pre ++ a :: post ->
  blank (flat_map text_content (snd a)) = true ->
  doc (ready (load page))
  = page ++ toasts_for (fresh_eid page) (filter has_message (pre ++ post))
  /\ shown (ready (load page))
     = flat_map (find_within (hasClass "toast"))
         (toasts_for (fresh_eid page) (filter has_message (pre ++ post))).
Proof.
  intros Hwf Ha Hblank. destruct (ready_toasts page Hwf) as [Hd Hs].
  assert (filter has_message (alerts page) = filter has_message (pre ++ post))
    as E.
  { rewrite Ha, !filter_app. cbn [filter].
    unfold has_message at 2, message_of. rewrite (trim_blank _ Hblank).
    reflexivity. }
  rewrite toasts_for_find, <- E. split; assumption.
Qed.

Lemma blank_alert_makes_no_toast_witness :
  well_formed flash_page /\
  blank (10%N :: js "   ") = true /\
  doc (ready (load flash_page))
  = flash_page
    ++ toasts_for (fresh_eid flash_page)
         (filter has_message
            ([(el 0 "div" [("class", js "alert alert-danger fade show")],
               [ Text (js "  Item deleted. ");
                 Elem (el 1 "button" [("class", js "btn-close")]) [] ])] ++ []))
  /\ shown (ready (load flash_page))
     = flat_map (find_within (hasClass "toast"))
         (toasts_for (fresh_eid flash_page)
            (filter has_message
               ([(el 0 "div" [("class", js "alert alert-danger fade show")],
                  [ Text (js "  Item deleted. ");
                    Elem (el 1 "button" [("class", js "btn-close")]) [] ])]
                ++ []))).
Proof.
  split; [distinct_ids|]. split; [reflexivity|].
  apply (blank_alert_makes_no_toast flash_page _ []
           (el 2 "div" [("class", js "alert alert-info")],
            [ Text (10%N :: js "   ") ])).
  - distinct_ids.
  - reflexivity.
  - reflexivity.
Defined.

End FlashClaims.

(** ** Delete confirmation *)

Module DeleteClaims.
Import Dom Script Props Samples ScriptFacts.

(** C4: submitting a form whose [action] contains ["delete"] displays the
    confirmation dialog and changes nothing else; the form is submitted
    exactly when the user accepts. *)
Theorem delete_needs_confirmation
  (page : document) (w : world) (f : nat) (user_accepts : bool) :
  reachable page w ->
  In f (select is_delete_form page) ->
  after (dispatch w (Submit f user_accepts)) = confirm confirm_message w
  /\ prompts (after (dispatch w (Submit f user_accepts)))
     = prompts w ++ [confirm_message]
  /\ doc (after (dispatch w (Submit f user_accepts))) = doc w
  /\ default_action (dispatch w (Submit f user_accepts)) = user_accepts.
Proof.
  intros Hr Hf.
  assert (is_bound f DeleteSubmit w = true) as Hb.
  { apply (reachable_is_bound page w f DeleteSubmit Hr); [discriminate|exact Hf]. }
  unfold dispatch. rewrite Hb. unfold delete_submit. cbn [after default_action].
  rewrite negb_involutive. repeat split; reflexivity.
Qed.

Lemma delete_needs_confirmation_witness :
  after (dispatch (ready (load delete_page)) (Submit 0 false))
  = confirm confirm_message (ready (load delete_page))
  /\ prompts (after (dispatch (ready (load delete_page)) (Submit 0 false)))
     = prompts (ready (load delete_page)) ++ [confirm_message]
  /\ doc (after (dispatch (ready (load delete_page)) (Submit 0 false)))
     = doc (ready (load delete_page))
  /\ default_action (dispatch (ready (load delete_page)) (Submit 0 false))
     = false.
Proof.
  apply (delete_needs_confirmation delete_page (ready (load delete_page)) 0 false).
  - exists []. reflexivity.
  - vm_compute. auto.
Defined.

End DeleteClaims.

(** ** Updates, removals and what they leave alone *)

Module PageFacts.
Import Dom Props DomFacts.

Lemma elements_app (d1 d2 : document) :
  elements (d1 ++ d2) = elements d1 ++ elements d2.
Proof. apply flat_map_app. Qed.

Lemma ids_app (d1 d2 : document) : ids (d1 ++ d2) = ids d1 ++ ids d2.
Proof. unfold ids. rewrite elements_app. apply map_app. Qed.

Lemma select_app (p : element -> bool) (d1 d2 : document) :
  select p (d1 ++ d2) = select p d1 ++ select p d2.
Proof. unfold select. rewrite elements_app, filter_app. apply map_app. Qed.

Lemma elements_update_in (ids0 : list nat) (f : element -> element) (n : node) :
  elements_of (update_in ids0 f n) = map (touched ids0 f) (elements_of n).
Proof.
  induction n as [s|e ks IH] using node_induction; [reflexivity|].
  simpl. f_equal. induction IH as [|k ks Hk _ IHks]; [reflexivity|].
  simpl. rewrite map_app, Hk, IHks. reflexivity.
Qed.

Lemma elements_update (ids0 : list nat) (f : element -> element) (d : document) :
  elements (update ids0 f d) = map (touched ids0 f) (elements d).
Proof.
  unfold elements, update. induction d as [|n d IH]; [reflexivity|].
  simpl. rewrite map_app, elements_update_in, IH. reflexivity.
Qed.

Lemma ids_update (ids0 : list nat) (f : element -> element) (d : document) :
  (forall e, eid (f e) = eid e) -> ids (update ids0 f d) = ids d.
Proof.
  intros Hf. unfold ids. rewrite elements_update, map_map.
  apply map_ext. intros e. unfold touched.
  destruct (existsb _ _); [apply Hf|reflexivity].
Qed.

Lemma select_update (p : element -> bool) (ids0 : list nat)
  (f : element -> element) (d : document) :
  (forall e, eid (f e) = eid e) -> (forall e, p (f e) = p e) ->
  select p (update ids0 f d) = select p d.
Proof.
  intros Hid Hp. unfold select. rewrite elements_update.
  induction (elements d) as [|e l IH]; [reflexivity|].
  simpl.
  assert (p (touched ids0 f e) = p e) as E1.
  { unfold touched. destruct (existsb _ _); [apply Hp|reflexivity]. }
  assert (eid (touched ids0 f e) = eid e) as E2.
  { unfold touched. destruct (existsb _ _); [apply Hid|reflexivity]. }
  rewrite E1. destruct (p e); simpl; rewrite IH; congruence.
Qed.

Lemma existsb_eqb_in (i : nat) (l : list nat) :
  existsb (Nat.eqb i) l = true <-> In i l.
Proof.
  rewrite existsb_exists. split.
  - intros (j & Hj & E). apply Nat.eqb_eq in E. subst. exact Hj.
  - intros H. exists i. split; [exact H|apply Nat.eqb_refl].
Qed.

Lemma existsb_eqb_out (i : nat) (l : list nat) :
  ~ In i l -> existsb (Nat.eqb i) l = false.
Proof.
  intros H. destruct (existsb (Nat.eqb i) l) eqn:E; [|reflexivity].
  apply existsb_eqb_in in E. contradiction.
Qed.

(** An update leaves alone a subtree that holds none of its targets. *)
Lemma update_in_out (ids0 : list nat) (f : element -> element) (n : node) :
  (forall i, In i (map eid (elements_of n)) -> ~ In i ids0) ->
  update_in ids0 f n = n.
Proof.
  induction n as [s|e ks IH] using node_induction; intros H; [reflexivity|].
  simpl. rewrite existsb_eqb_out by (apply H; left; reflexivity).
  f_equal. simpl in H.
  assert (forall i, In i (map eid (flat_map elements_of ks)) -> ~ In i ids0)
    as H' by (intros i Hi; apply H; right; exact Hi).
  clear H. induction IH as [|k ks Hk _ IHks]; [reflexivity|].
  simpl in H'. rewrite map_app in H'. simpl. rewrite Hk, IHks.
  - reflexivity.
  - intros i Hi. apply H'. apply in_or_app. right. exact Hi.
  - intros i Hi. apply H'. apply in_or_app. left. exact Hi.
Qed.

Lemma update_out (ids0 : list nat) (f : element -> element) (d : document) :
  (forall i, In i (ids d) -> ~ In i ids0) -> update ids0 f d = d.
Proof.
  unfold ids, elements, update. induction d as [|n d IH]; intros H; [reflexivity|].
  simpl in H. rewrite map_app in H. simpl. rewrite update_in_out, IH.
  - reflexivity.
  - intros i Hi. apply H. apply in_or_app. right. exact Hi.
  - intros i Hi. apply H. apply in_or_app. left. exact Hi.
Qed.

Lemma update_app (ids0 : list nat) (f : element -> element) (d1 d2 : document) :
  update ids0 f (d1 ++ d2) = update ids0 f d1 ++ update ids0 f d2.
Proof. apply map_app. Qed.

(** A removal leaves alone a subtree that holds none of its targets. *)
Lemma remove_in_out (ids0 : list nat) (n : node) :
  (forall i, In i (map eid (elements_of n)) -> ~ In i ids0) ->
  remove_in ids0 n = [n].
Proof.
  induction n as [s|e ks IH] using node_induction; intros H; [reflexivity|].
  simpl. rewrite existsb_eqb_out by (apply H; left; reflexivity).
  do 2 f_equal. simpl in H.
  assert (forall i, In i (map eid (flat_map elements_of ks)) -> ~ In i ids0)
    as H' by (intros i Hi; apply H; right; exact Hi).
  clear H. induction IH as [|k ks Hk _ IHks]; [reflexivity|].
  simpl in H'. rewrite map_app in H'. simpl. rewrite Hk, IHks.
  - reflexivity.
  - intros i Hi. apply H'. apply in_or_app. right. exact Hi.
  - intros i Hi. apply H'. apply in_or_app. left. exact Hi.
Qed.

Lemma remove_out (ids0 : list nat) (d : document) :
  (forall i, In i (ids d) -> ~ In i ids0) -> remove ids0 d = d.
Proof.
  unfold ids, elements, remove. induction d as [|n d IH]; intros H; [reflexivity|].
  simpl in H. rewrite map_app in H. simpl. rewrite remove_in_out, IH.
  - reflexivity.
  - intros i Hi. apply H. apply in_or_app. right. exact Hi.
  - intros i Hi. apply H. apply in_or_app. left. exact Hi.
Qed.

Lemma remove_app (ids0 : list nat) (d1 d2 : document) :
  remove ids0 (d1 ++ d2) = remove ids0 d1 ++ remove ids0 d2.
Proof. apply flat_map_app. Qed.

(** What is left after a removal was there before, and is no target. *)
Lemma elements_remove_in (ids0 : list nat) (n : node) (e : element) :
  In e (flat_map elements_of (remove_in ids0 n)) ->
  In e (elements_of n) /\ ~ In (eid e) ids0.
Proof.
  induction n as [s|e0 ks IH] using node_induction; [intros []|].
  simpl. destruct (existsb (Nat.eqb (eid e0)) ids0) eqn:E; [intros []|].
  simpl. rewrite app_nil_r. intros [<-|Hin].
  - split; [left; reflexivity|]. intros Hin.
    apply existsb_eqb_in in Hin. congruence.
  - apply in_flat_map in Hin as (k' & Hk' & Hin).
    apply in_flat_map in Hk' as (k & Hk & Hk').
    rewrite Forall_forall in IH.
    destruct (IH k Hk) as [H1 H2].
    { apply in_flat_map. exists k'. split; assumption. }
    split; [|exact H2]. right. apply in_flat_map. exists k. split; assumption.
Qed.

Lemma elements_remove (ids0 : list nat) (d : document) (e : element) :
  In e (elements (remove ids0 d)) -> In e (elements d) /\ ~ In (eid e) ids0.
Proof.
  unfold elements, remove. intros Hin.
  apply in_flat_map in Hin as (k' & Hk' & Hin).
  apply in_flat_map in Hk' as (k & Hk & Hk').
  destruct (elements_remove_in ids0 k e) as [H1 H2].
  { apply in_flat_map. exists k'. split; assumption. }
  split; [|exact H2]. apply in_flat_map. exists k. split; assumption.
Qed.

(** Removing a selection leaves nothing of it. *)
Lemma select_remove_self (p : element -> bool) (d : document) :
  select p (remove (select p d) d) = [].
Proof.
  unfold select at 1.
  destruct (filter p (elements (remove (select p d) d))) as [|e l] eqn:E;
    [reflexivity|].
  assert (In e (filter p (elements (remove (select p d) d)))) as Hin
    by (rewrite E; left; reflexivity).
  apply filter_In in Hin as [Hin Hp].
  apply elements_remove in Hin as [Hin Hout].
  exfalso. apply Hout. unfold select. apply in_map. apply filter_In. auto.
Qed.

(** The siblings of an element are elements of the page. *)
Lemma family_in_children (i : nat) (n : node) :
  forall top l, family_in i top n = Some l ->
    l = top \/ exists e, In (e, l) (nodes_of n).
Proof.
  induction n as [s|e ks IH] using node_induction; intros top l H.
  - discriminate.
  - simpl in H. destruct (Nat.eqb (eid e) i).
    + left. congruence.
    + right. apply first_some_some in H as (k & Hk & H).
      rewrite Forall_forall in IH.
      destruct (IH k Hk ks l H) as [->|(e' & He')].
      * exists e. left. reflexivity.
      * exists e'. right. apply in_flat_map. exists k. split; assumption.
Qed.

Lemma child_elements_in (l : list node) (e : element) :
  In e (child_elements l) -> In e (flat_map elements_of l).
Proof.
  unfold child_elements. intros H. apply in_flat_map in H as (n & Hn & H).
  apply in_flat_map. exists n. split; [exact Hn|].
  destruct n as [s|e0 ks]; [destruct H|].
  destruct H as [<-|[]]. left. reflexivity.
Qed.

Lemma nodes_of_children (n : node) (e : element) (l : list node) :
  In (e, l) (nodes_of n) ->
  forall x, In x (flat_map elements_of l) -> In x (elements_of n).
Proof.
  induction n as [s|e0 ks IH] using node_induction; [intros []|].
  simpl. intros [E|Hin] x Hx.
  - inversion E; subst. right. exact Hx.
  - right. apply in_flat_map in Hin as (k & Hk & Hin).
    rewrite Forall_forall in IH. apply in_flat_map. exists k.
    split; [exact Hk|]. exact (IH k Hk Hin x Hx).
Qed.

Lemma siblings_in (p : element -> bool) (i j : nat) (d : document) :
  In j (siblings p i d) -> In j (select p d).
Proof.
  unfold siblings, family. destruct (first_some (family_in i d) d) as [l|] eqn:E;
    [|intros []].
  intros Hj. apply in_map_iff in Hj as (e & <- & He).
  apply filter_In in He as [He Hp]. apply andb_prop in Hp as [_ Hp].
  apply child_elements_in in He.
  unfold select. apply in_map. apply filter_In. split; [|exact Hp].
  apply first_some_some in E as (n & Hn & E).
  destruct (family_in_children i n d l E) as [->|(e' & He')].
  - exact He.
  - apply in_flat_map. exists n. split; [exact Hn|].
    exact (nodes_of_children n e' l He' e He).
Qed.

Lemma select_in_ids (p : element -> bool) (d : document) (i : nat) :
  In i (select p d) -> In i (ids d).
Proof.
  unfold select, ids. intros H. apply in_map_iff in H as (e & <- & He).
  apply in_map. apply filter_In in He. tauto.
Qed.

(** *** Attributes *)

Lemma get_set_attr (name : string) (v : jsstring) (l : list (string * jsstring)) :
  get_attr name (set_attr name v l) = Some v.
Proof.
  induction l as [|[k v0] l IH]; simpl.
  - rewrite String.eqb_refl. reflexivity.
  - destruct (String.eqb k name) eqn:E; simpl; rewrite E; [reflexivity|exact IH].
Qed.

Lemma get_set_attr_other (name other : string) (v : jsstring)
  (l : list (string * jsstring)) :
  other <> name ->
  get_attr other (set_attr name v l) = get_attr other l.
Proof.
  intros Hne. induction l as [|[k v0] l IH]; simpl.
  - destruct (String.eqb name other) eqn:E; [|reflexivity].
    apply String.eqb_eq in E. congruence.
  - destruct (String.eqb k name) eqn:E; simpl.
    + apply String.eqb_eq in E. subst k.
      destruct (String.eqb name other) eqn:E'; [|reflexivity].
      apply String.eqb_eq in E'. congruence.
    + rewrite IH. reflexivity.
Qed.

(** Setting [src] changes no class. *)
Lemma hasClass_with_src (c : string) (v : jsstring) (e : element) :
  hasClass c (with_attr "src" v e) = hasClass c e.
Proof.
  unfold hasClass, class_list. simpl.
  rewrite get_set_attr_other by discriminate. reflexivity.
Qed.

(** [.attr('src', v)] then [.attr('src')] on an element of the page that is
    in the jQuery object. *)
Lemma attr_set_attribute (targets : list nat) (v : jsstring) (i : nat)
  (d : document) :
  In i targets -> In i (ids d) ->
  attr "src" i (set_attribute targets "src" v d) = Some v.
Proof.
  intros Ht Hin. destruct (find_node_some i d Hin) as (e & ks & Hf & He).
  unfold attr, set_attribute. rewrite find_node_update by reflexivity.
  rewrite Hf. unfold updated. simpl.
  rewrite He. apply existsb_eqb_in in Ht. rewrite Ht. simpl.
  apply get_set_attr.
Qed.

End PageFacts.

(** ** Class tokens *)

Module ClassFacts.
Import Dom DomFacts PageFacts.

Lemma jsstring_eqb_eq (a b : jsstring) : jsstring_eqb a b = true <-> a = b.
Proof.
  unfold jsstring_eqb. destruct (list_eq_dec N.eq_dec a b) as [E|E].
  - tauto.
  - split; [discriminate|contradiction].
Qed.

Lemma has_token (x : jsstring) (l : list jsstring) :
  existsb (jsstring_eqb x) l = true <-> In x l.
Proof.
  rewrite existsb_exists. split.
  - intros (y & Hy & E). apply jsstring_eqb_eq in E. subst y. exact Hy.
  - intros H. exists x. split; [exact H|]. apply jsstring_eqb_eq. reflexivity.
Qed.

Lemma in_without (c x : jsstring) (l : list jsstring) :
  In x (filter (fun u => negb (jsstring_eqb c u)) l) <-> In x l /\ c <> x.
Proof.
  rewrite filter_In, negb_true_iff. split; intros [H1 H2]; split; try exact H1.
  - intros E. apply jsstring_eqb_eq in E. congruence.
  - destruct (jsstring_eqb c x) eqn:E; [|reflexivity].
    apply jsstring_eqb_eq in E. contradiction.
Qed.

Lemma in_ordered_set (x : jsstring) (l : list jsstring) :
  In x (ordered_set l) <-> In x l.
Proof.
  induction l as [|t r IH]; [tauto|].
  cbn [ordered_set In]. rewrite in_without, IH.
  destruct (list_eq_dec N.eq_dec t x); tauto.
Qed.

(** A word without a space is read as one piece. *)
Lemma tokens_aux_word (t : jsstring) :
  Forall (fun c => is_ascii_space c = false) t ->
  forall cur rest, tokens_aux cur (t ++ rest) = tokens_aux (rev t ++ cur) rest.
Proof.
  induction t as [|c t IH]; intros H cur rest; [reflexivity|].
  cbn [app tokens_aux rev]. rewrite (Forall_inv H).
  rewrite (IH (Forall_inv_tail H)), <- app_assoc. reflexivity.
Qed.

(** The tokens of an attribute value are not empty and hold no space. *)
Lemma tokens_aux_words (s : jsstring) :
  forall cur,
    Forall (fun c => is_ascii_space c = false) cur ->
    Forall (fun t => t <> [] /\ Forall (fun c => is_ascii_space c = false) t)
           (tokens_aux cur s).
Proof.
  assert (forall c cur, Forall (fun c => is_ascii_space c = false) (c :: cur) ->
            rev (c :: cur) <> []
            /\ Forall (fun c => is_ascii_space c = false) (rev (c :: cur)))
    as Hrev.
  { intros c cur H. split.
    - cbn [rev]. destruct (rev cur); discriminate.
    - apply Forall_rev. exact H. }
  induction s as [|c r IH]; intros cur Hcur; cbn [tokens_aux].
  - destruct cur as [|x cur]; constructor; [apply Hrev; exact Hcur|constructor].
  - destruct (is_ascii_space c) eqn:E.
    + destruct cur as [|x cur]; [apply IH; constructor|].
      constructor; [apply Hrev; exact Hcur|apply IH; constructor].
    + apply IH. constructor; assumption.
Qed.

(** Reading back what the serializer wrote gives the tokens. *)
Lemma tokens_serialize (l : list jsstring) :
  Forall (fun t => t <> [] /\ Forall (fun c => is_ascii_space c = false) t) l ->
  tokens_aux [] (serialize l) = l.
Proof.
  induction l as [|t r IH]; intros H; [reflexivity|].
  destruct (Forall_inv H) as [Hne Ht].
  assert (exists x y, rev t = x :: y) as (x & y & Ex).
  { destruct (rev t) as [|x y] eqn:E; [|eauto].
    apply (f_equal (@rev N)) in E. rewrite rev_involutive in E. contradiction. }
  cbn [serialize]. destruct r as [|u r].
  - rewrite <- (app_nil_r t) at 1. rewrite (tokens_aux_word t Ht).
    rewrite app_nil_r, Ex. cbn [tokens_aux]. rewrite <- Ex, rev_involutive.
    reflexivity.
  - rewrite (tokens_aux_word t Ht). rewrite app_nil_r, Ex.
    cbn [tokens_aux]. change (is_ascii_space 32) with true. cbv iota.
    rewrite <- Ex, rev_involutive. f_equal.
    apply IH. exact (Forall_inv_tail H).
Qed.

Lemma class_list_remove_eid (c : string) (e : element) :
  eid (class_list_remove c e) = eid e.
Proof.
  unfold class_list_remove. destruct (get_attr "class" (attrs e)); reflexivity.
Qed.

(** The classes of an element after [classList.remove(c)]. *)
Lemma class_list_removed (c : string) (e : element) :
  forall x, In x (class_list (class_list_remove c e))
            <-> In x (class_list e) /\ js c <> x.
Proof.
  intros x. unfold class_list_remove, class_list at 2.
  destruct (get_attr "class" (attrs e)) as [v|] eqn:E.
  - unfold class_list. cbn [with_attr attrs]. rewrite get_set_attr.
    rewrite tokens_serialize.
    + rewrite in_without, in_ordered_set. reflexivity.
    + pose proof (tokens_aux_words v [] (Forall_nil _)) as Hw.
      rewrite Forall_forall in *. intros t Ht.
      apply in_without in Ht as [Ht _]. rewrite in_ordered_set in Ht.
      exact (Hw t Ht).
  - unfold class_list. rewrite E. simpl. tauto.
Qed.

(** [classList.remove(c)] leaves the other classes, and takes off [c]. *)
Lemma hasClass_class_list_remove (c c' : string) (e : element) :
  js c <> js c' ->
  hasClass c' (class_list_remove c e) = hasClass c' e.
Proof.
  intros Hc. unfold hasClass.
  destruct (existsb (jsstring_eqb (js c')) (class_list e)) eqn:E.
  - apply has_token. apply class_list_removed. apply has_token in E. tauto.
  - destruct (existsb _ (class_list (class_list_remove c e))) eqn:E';
      [|reflexivity].
    apply has_token in E'. apply class_list_removed in E' as [E' _].
    apply has_token in E'. congruence.
Qed.


(** What is left of a selection after a removal. *)
Lemma select_remove (p : element -> bool) (ids0 : list nat) (d : document)
  (i : nat) :
  In i (select p (remove ids0 d)) -> In i (select p d) /\ ~ In i ids0.
Proof.
  unfold select. intros H. apply in_map_iff in H as (e & <- & He).
  apply filter_In in He as [He Hp]. apply elements_remove in He as [He Hout].
  split; [|exact Hout]. apply in_map. apply filter_In. split; assumption.
Qed.

End ClassFacts.
(** ** Image preview *)

Module PreviewFacts.
Import Dom Script Props DomFacts PageFacts ScriptFacts.

Lemma reachable_run (page : document) (w : world) (evs : list event) :
  reachable page w -> reachable page (run w evs).
Proof.
  intros [evs0 ->]. exists (evs0 ++ evs). unfold run.
  rewrite fold_left_app. reflexivity.
Qed.

Lemma run_app (w : world) (evs1 evs2 : list event) :
  run w (evs1 ++ evs2) = run (run w evs1) evs2.
Proof. unfold run. apply fold_left_app. Qed.

Lemma run_cons (w : world) (ev : event) (evs : list event) :
  run w (ev :: evs) = run (after (dispatch w ev)) evs.
Proof. reflexivity. Qed.

(** The reads and the reader counter after an event. *)
Lemma dispatch_reads (w : world) (ev : event) :
  (reads (after (dispatch w ev)) = reads w
   /\ next_reader (after (dispatch w ev)) = next_reader w)
  \/ (exists f targets,
        reads (after (dispatch w ev))
        = reads w ++ [{| reader := next_reader w; source := f;
                         preview := targets |}]
        /\ next_reader (after (dispatch w ev)) = S (next_reader w))
  \/ (exists r,
        (ev = ReadDone r \/ ev = ReadFailed r)
        /\ reads (after (dispatch w ev))
           = filter (fun p => negb (Nat.eqb (reader p) r)) (reads w)
        /\ next_reader (after (dispatch w ev)) = next_reader w).
Proof.
  destruct ev as [t|t fs|t b|t|r|r|ms| |a]; unfold dispatch.
  - left. destruct (is_bound t PriceInput w); [|auto].
    unfold price_input. destruct (price_text _ _); auto.
  - destruct (is_bound t FileChange w); [|auto].
    unfold file_change. destruct (siblings is_img t (doc w)) as [|i l]; [auto|].
    destruct fs as [|f fs]; [auto|].
    right. left. exists f, (i :: l). auto.
  - left. destruct (is_bound t DeleteSubmit w); auto.
  - left. destruct (is_bound t ToastHidden w); auto.
  - destruct (find_read r w); [|auto].
    right. right. exists r. auto.
  - right. right. exists r. auto.
  - left. destruct (0 <=? ms)%Z; auto.
  - left. destruct (take_due (now w) (timers w)) as [[t rest]|]; [|auto].
    destruct (action t). cbn [after run_callback].
    destruct (auto_dismiss_frame (set_timers rest w))
      as (_ & _ & _ & -> & -> & _).
    auto.
  - left. destruct (existsb (Nat.eqb a) (closing w)); auto.
Qed.

Lemma reachable_reads_fresh (page : document) (w : world) :
  reachable page w -> reads_fresh w.
Proof.
  intros H. induction H as [|w ev _ [IH1 IH2]] using reachable_ind.
  - unfold ready, reads_fresh.
    match goal with
    | |- context [fold_left each_alert ?l ?w] =>
        destruct (flash_loop_frame l w) as (_ & _ & _ & Hr & _)
    end.
    cbn [reads setTimeout]. rewrite Hr. simpl. split; constructor.
  - unfold reads_fresh.
    destruct (dispatch_reads w ev)
      as [[-> ->]|[(f & tg & -> & ->)|(r & _ & -> & ->)]].
    + split; assumption.
    + split.
      * apply Forall_app. split.
        -- eapply Forall_impl; [|exact IH1]. intros p Hp. simpl in Hp. lia.
        -- repeat constructor.
      * rewrite map_app. apply NoDup_app; [exact IH2|repeat constructor; intros []|].
        intros a Ha [<-|[]]. apply in_map_iff in Ha as (p & E & Hp).
        rewrite Forall_forall in IH1. apply IH1 in Hp. simpl in E. lia.
    + split.
      * apply Forall_forall. intros p Hp. apply filter_In in Hp as [Hp _].
        rewrite Forall_forall in IH1. exact (IH1 p Hp).
      * clear IH1. induction (reads w) as [|p l IHl]; [constructor|].
        simpl in IH2. inversion IH2 as [|? ? Hp Hl]; subst. simpl.
        destruct (negb (Nat.eqb (reader p) r)); [|exact (IHl Hl)].
        simpl. constructor; [|exact (IHl Hl)].
        intros Hin. apply Hp. apply in_map_iff in Hin as (q & E & Hq).
        apply in_map_iff. exists q. split; [exact E|].
        apply filter_In in Hq. tauto.
Qed.

(** With distinct readers, a read in progress is found by its reader. *)
Lemma find_read_unique (w : world) (p : pending_read) :
  NoDup (map reader (reads w)) -> In p (reads w) ->
  find_read (reader p) w = Some p.
Proof.
  unfold find_read. induction (reads w) as [|q l IH]; intros Hnd Hin; [destruct Hin|].
  simpl in Hnd. inversion Hnd as [|? ? Hq Hl]; subst. simpl.
  destruct Hin as [->|Hin].
  - rewrite Nat.eqb_refl. reflexivity.
  - destruct (Nat.eqb (reader q) (reader p)) eqn:E.
    + apply Nat.eqb_eq in E. exfalso. apply Hq. rewrite E.
      apply in_map. exact Hin.
    + exact (IH Hl Hin).
Qed.

(** A read stays in progress until it completes or fails. *)
Lemma reads_persist (w : world) (ev : event) (p : pending_read) :
  In p (reads w) ->
  ev <> ReadDone (reader p) -> ev <> ReadFailed (reader p) ->
  In p (reads (after (dispatch w ev))).
Proof.
  intros Hin Hd Hf.
  destruct (dispatch_reads w ev)
    as [[-> _]|[(f & tg & -> & _)|(r & Hev & -> & _)]].
  - exact Hin.
  - apply in_or_app. left. exact Hin.
  - apply filter_In. split; [exact Hin|].
    destruct (Nat.eqb (reader p) r) eqn:E; [|reflexivity].
    apply Nat.eqb_eq in E. subst r. destruct Hev; contradiction.
Qed.

Lemma reads_persist_run (evs : list event) :
  forall (w : world) (p : pending_read),
    In p (reads w) ->
    Forall (fun ev => ev <> ReadDone (reader p) /\ ev <> ReadFailed (reader p))
           evs ->
    In p (reads (run w evs)).
Proof.
  induction evs as [|ev evs IH]; intros w p Hin Hall; [exact Hin|].
  inversion Hall as [|? ? [Hd Hf] Hall']; subst. rewrite run_cons.
  apply IH; [|exact Hall']. apply reads_persist; assumption.
Qed.

(** A completed read sets the [src] of the images its closure holds. *)
Lemma read_done_sets_src (page : document) (w : world) (p : pending_read)
  (i : nat) :
  reachable page w -> In p (reads w) -> In i (preview p) -> In i (ids (doc w)) ->
  attr "src" i (doc (after (dispatch w (ReadDone (reader p)))))
  = Some (data_url (source p)).
Proof.
  intros Hr Hp Hi Hin.
  destruct (reachable_reads_fresh page w Hr) as [_ Hnd].
  unfold dispatch. rewrite (find_read_unique w p Hnd Hp).
  cbn [after reader_onload doc set_doc drop_read set_reads].
  apply attr_set_attribute; assumption.
Qed.

(** A completed read changes no identity. *)
Lemma read_done_ids (w : world) (r : nat) :
  ids (doc (after (dispatch w (ReadDone r)))) = ids (doc w).
Proof.
  unfold dispatch. destruct (find_read r w); [|reflexivity].
  cbn [after reader_onload doc set_doc drop_read set_reads].
  apply ids_update. reflexivity.
Qed.

Lemma read_dones_ids (rs : list nat) :
  forall w, ids (doc (run w (map ReadDone rs))) = ids (doc w).
Proof.
  induction rs as [|r rs IH]; intros w; [reflexivity|].
  simpl map. rewrite run_cons, IH. apply read_done_ids.
Qed.

(** The change handler on a bound input with a sibling image and a file. *)
Lemma change_starts_read (page : document) (w : world) (t : nat) (f : file)
  (rest : list file) :
  reachable page w -> In t (select is_file_input page) ->
  siblings is_img t (doc w) <> [] ->
  after (dispatch w (Change t (f :: rest)))
  = start_read f (siblings is_img t (doc w)) w.
Proof.
  intros Hr Ht Hs.
  assert (is_bound t FileChange w = true) as Hb.
  { apply (reachable_is_bound page w t FileChange Hr); [discriminate|exact Ht]. }
  unfold dispatch. rewrite Hb. unfold file_change. cbn [after].
  destruct (siblings is_img t (doc w)); [contradiction|reflexivity].
Qed.

(** A run of selections on the same input: one more read each, and nothing
    else changes. *)
Lemma selections_start_reads (page : document) (t : nat) (d : file)
  (fs : list file) :
  forall w,
    reachable page w -> In t (select is_file_input page) ->
    siblings is_img t (doc w) <> [] ->
    doc (run w (map (fun f => Change t [f]) fs)) = doc w
    /\ reads (run w (map (fun f => Change t [f]) fs))
       = reads w ++ map (read_of (next_reader w) fs d (siblings is_img t (doc w)))
                        (seq 0 (List.length fs)).
Proof.
  induction fs as [|f fs IH]; intros w Hr Ht Hs.
  - simpl. rewrite app_nil_r. auto.
  - change (map (fun f0 => Change t [f0]) (f :: fs))
      with (Change t [f] :: map (fun f0 => Change t [f0]) fs).
    rewrite !run_cons, !(change_starts_read page w t f [] Hr Ht Hs).
    assert (reachable page (start_read f (siblings is_img t (doc w)) w)) as Hr'.
    { rewrite <- (change_starts_read page w t f [] Hr Ht Hs).
      apply reachable_step. exact Hr. }
    destruct (IH _ Hr' Ht Hs) as [Hd Hrd].
    split; [rewrite Hd; reflexivity|].
    rewrite Hrd. cbn [reads next_reader doc start_read List.length seq map].
    rewrite <- app_assoc. f_equal. cbn [app]. f_equal.
    + unfold read_of. rewrite Nat.add_0_r. reflexivity.
    + rewrite <- seq_shift, map_map. apply map_ext. intros k.
      unfold read_of. simpl nth. f_equal. lia.
Qed.

End PreviewFacts.

Module PreviewClaims.
Import Dom Script Props Samples DomFacts PageFacts ScriptFacts PreviewFacts.

(** C5: on a change event of a file input with a sibling image and a
    selected file, a read of the file is started and the page is left as it
    is; whatever happens in between, when that read completes the image, if
    still on the page, gets the file's data URL as its [src], and this URL
    begins with ["data:"].  With no sibling image or no file, the event
    changes nothing: no read is started. *)
Theorem preview_shows_selected_file (page : document) (w : world) (t : nat) :
  reachable page w ->
  In t (select is_file_input page) ->
  (forall (f : file) (rest : list file) (evs : list event) (i : nat),
     In i (siblings is_img t (doc w)) ->
     Forall (fun ev => ev <> ReadDone (next_reader w)
                       /\ ev <> ReadFailed (next_reader w)) evs ->
     In i (ids (doc (run (after (dispatch w (Change t (f :: rest)))) evs))) ->
     doc (after (dispatch w (Change t (f :: rest)))) = doc w
     /\ reads (after (dispatch w (Change t (f :: rest))))
        = reads w ++ [{| reader := next_reader w; source := f;
                         preview := siblings is_img t (doc w) |}]
     /\ attr "src" i
          (doc (after (dispatch
                         (run (after (dispatch w (Change t (f :: rest)))) evs)
                         (ReadDone (next_reader w)))))
        = Some (data_url f)
     /\ starts_with (js "data:") (data_url f) = true)
  /\ (forall files : list file,
        siblings is_img t (doc w) = [] \/ files = [] ->
        after (dispatch w (Change t files)) = w).
Proof.
  intros Hr Ht. split.
  - intros f rest evs i Hi Hevs Hin.
    assert (siblings is_img t (doc w) <> []) as Hs
      by (intros E; rewrite E in Hi; destruct Hi).
    rewrite (change_starts_read page w t f rest Hr Ht Hs) in *.
    set (p := {| reader := next_reader w; source := f;
                 preview := siblings is_img t (doc w) |}).
    repeat split.
    assert (reachable page (start_read f (siblings is_img t (doc w)) w)) as Hr'.
    { rewrite <- (change_starts_read page w t f rest Hr Ht Hs).
      apply reachable_step. exact Hr. }
    apply (read_done_sets_src page _ p i).
    + apply reachable_run. exact Hr'.
    + apply reads_persist_run; [|exact Hevs].
      cbn [reads start_read]. apply in_or_app. right. left. reflexivity.
    + exact Hi.
    + exact Hin.
  - intros files Hno.
    unfold dispatch. destruct (is_bound t FileChange w); [|reflexivity].
    unfold file_change. cbn [after].
    destruct Hno as [->| ->]; [reflexivity|].
    destruct (siblings is_img t (doc w)); reflexivity.
Qed.

Lemma preview_shows_selected_file_witness :
  (doc (after (dispatch (ready (load preview_page)) (Change 1 [png_a])))
   = doc (ready (load preview_page))
   /\ reads (after (dispatch (ready (load preview_page)) (Change 1 [png_a])))
      = reads (ready (load preview_page))
        ++ [{| reader := next_reader (ready (load preview_page));
               source := png_a;
               preview := siblings is_img 1 (doc (ready (load preview_page))) |}]
   /\ attr "src" 2
        (doc (after (dispatch
                       (run (after (dispatch (ready (load preview_page))
                                             (Change 1 [png_a])))
                            [Input 1; Elapse 20])
                       (ReadDone (next_reader (ready (load preview_page)))))))
      = Some (data_url png_a)
   /\ starts_with (js "data:") (data_url png_a) = true)
  /\ after (dispatch (ready (load preview_page)) (Change 1 []))
     = ready (load preview_page).
Proof.
  destruct (preview_shows_selected_file preview_page
              (ready (load preview_page)) 1) as [Hread Hnone].
  - exists []. reflexivity.
  - vm_compute. auto.
  - split.
    + apply (Hread png_a [] [Input 1; Elapse 20] 2).
      * vm_compute. auto.
      * repeat constructor; discriminate.
      * vm_compute. auto.
    + apply Hnone. right. reflexivity.
Defined.

Example preview_of_png_a :
  attr "src" 2 (doc (run (ready (load preview_page))
                         [Change 1 [png_a]; ReadDone 0]))
  = Some (js "data:image/png;base64,QUFB")
  /\ attr "src" 2 (doc (run (ready (load preview_page)) [Change 1 [png_a]]))
     = Some (js "/static/placeholder.png")
  /\ run (ready (load preview_page)) [Change 1 []] = ready (load preview_page).
Proof. vm_compute. repeat split; reflexivity. Qed.

(** C9: each of a run of selections on a file input starts a read of its
    own, next to those already in progress; when these reads complete, in
    whatever order, the image shows the file whose read completed last,
    which need not be the file selected last. *)
Theorem last_completed_read_wins
  (page : document) (w : world) (t i : nat) (d : file) (fs : list file)
  (order : list nat) (last : nat) :
  reachable page w ->
  In t (select is_file_input page) ->
  In i (siblings is_img t (doc w)) ->
  NoDup (order ++ [last]) ->
  Forall (fun k => k < List.length fs) (order ++ [last]) ->
  reads (run w (map (fun f => Change t [f]) fs))
  = reads w ++ map (read_of (next_reader w) fs d (siblings is_img t (doc w)))
                   (seq 0 (List.length fs))
  /\ attr "src" i
       (doc (run (run w (map (fun f => Change t [f]) fs))
                 (map (fun k => ReadDone (next_reader w + k)) (order ++ [last]))))
     = Some (data_url (nth last fs d)).
Proof.
  intros Hr Ht Hi Hnd Hlt.
  assert (siblings is_img t (doc w) <> []) as Hs
    by (intros E; rewrite E in Hi; destruct Hi).
  destruct (selections_start_reads page t d fs w Hr Ht Hs) as [Hdoc Hreads].
  split; [exact Hreads|].
  set (w1 := run w (map (fun f => Change t [f]) fs)) in *.
  set (p := read_of (next_reader w) fs d (siblings is_img t (doc w)) last).
  rewrite map_app, run_app. simpl map. rewrite run_cons. simpl run.
  rewrite <- (map_map (fun k => next_reader w + k) ReadDone).
  change (next_reader w + last) with (reader p).
  apply (read_done_sets_src page _ p i).
  - apply reachable_run. apply reachable_run. exact Hr.
  - apply reads_persist_run.
    + rewrite Hreads. apply in_or_app. right. apply in_map. apply in_seq.
      apply Forall_app in Hlt as [_ Hlast].
      inversion Hlast; subst. lia.
    + apply Forall_forall. intros ev Hev.
      apply in_map_iff in Hev as (r & <- & Hr0).
      apply in_map_iff in Hr0 as (k & <- & Hk).
      split; [|discriminate]. intros E. inversion E as [E'].
      simpl in E'. assert (k = last) by lia. subst k.
      apply NoDup_remove_2 in Hnd. apply Hnd. rewrite app_nil_r. exact Hk.
  - exact Hi.
  - rewrite read_dones_ids. subst w1. rewrite Hdoc.
    apply (select_in_ids is_img). apply (siblings_in is_img t). exact Hi.
Qed.

Lemma last_completed_read_wins_witness :
  reads (run (ready (load preview_page))
             (map (fun f => Change 1 [f]) [png_a; png_b]))
  = reads (ready (load preview_page))
    ++ map (read_of (next_reader (ready (load preview_page))) [png_a; png_b] png_a
              (siblings is_img 1 (doc (ready (load preview_page)))))
           (seq 0 (List.length [png_a; png_b]))
  /\ attr "src" 2
       (doc (run (run (ready (load preview_page))
                      (map (fun f => Change 1 [f]) [png_a; png_b]))
                 (map (fun k => ReadDone (next_reader (ready (load preview_page)) + k))
                      ([1] ++ [0]))))
     = Some (data_url (nth 0 [png_a; png_b] png_a)).
Proof.
  apply (last_completed_read_wins preview_page (ready (load preview_page)) 1 2
           png_a [png_a; png_b] [1] 0).
  - exists []. reflexivity.
  - vm_compute. auto.
  - vm_compute. auto.
  - repeat constructor; simpl; intuition discriminate.
  - repeat constructor.
Defined.

Example second_selection_first_completion :
  attr "src" 2
    (doc (run (ready (load preview_page))
              [Change 1 [png_a]; Change 1 [png_b]; ReadDone 1; ReadDone 0]))
  = Some (data_url png_a)
  /\ attr "src" 2
       (doc (run (ready (load preview_page))
                 [Change 1 [png_a]; Change 1 [png_b]; ReadDone 0; ReadDone 1]))
     = Some (data_url png_b).
Proof. vm_compute. split; reflexivity. Qed.

End PreviewClaims.
(** ** Toasts on the page *)

Module ToastFacts.
Import Dom Script Props DomFacts PageFacts ScriptFacts FlashFacts.

Lemma fresh_eid_above (d : document) (i : nat) :
  In i (ids d) -> i < fresh_eid d.
Proof.
  unfold fresh_eid, ids. induction (map eid (elements d)) as [|j l IH]; simpl.
  - intros [].
  - intros [->|H]; [lia|]. specialize (IH H). lia.
Qed.

(** The five elements of a toast. *)
Lemma toast_ids (i : nat) (m : jsstring) (t : severity) :
  map eid (elements_of (toast_markup i m t)) = [i; i + 1; i + 2; i + 3; i + 4].
Proof. reflexivity. Qed.

(** No element of a toast has an [id], is an image or is an alert. *)
Lemma toast_no_id (s : string) (i : nat) (m : jsstring) (t : severity) :
  filter (has_id s) (elements_of (toast_markup i m t)) = [].
Proof. reflexivity. Qed.

Lemma toast_no_img (i : nat) (m : jsstring) (t : severity) :
  filter is_img (elements_of (toast_markup i m t)) = [].
Proof. reflexivity. Qed.

Lemma toast_no_alert (i : nat) (m : jsstring) (t : severity) :
  filter (hasClass "alert") (elements_of (toast_markup i m t)) = [].
Proof. destruct t; reflexivity. Qed.

Section Toasts.
Variable base : nat.

Lemma toasts_filter_nil (p : element -> bool)
  (l : list (nat * jsstring * severity)) :
  (forall i m t, filter p (elements_of (toast_markup i m t)) = []) ->
  filter p (elements (map (toast_of base) l)) = [].
Proof.
  intros Hp. unfold elements. induction l as [|x l IH]; [reflexivity|].
  cbn [map flat_map]. rewrite filter_app, IH. unfold toast_of. rewrite Hp.
  reflexivity.
Qed.

Lemma toasts_select_nil (p : element -> bool)
  (l : list (nat * jsstring * severity)) :
  (forall i m t, filter p (elements_of (toast_markup i m t)) = []) ->
  select p (map (toast_of base) l) = [].
Proof.
  intros Hp. unfold select. rewrite toasts_filter_nil by exact Hp. reflexivity.
Qed.

Lemma toasts_ids (l : list (nat * jsstring * severity)) (i : nat) :
  In i (ids (map (toast_of base) l)) ->
  exists x j, In x l /\ j < 5 /\ i = base + 5 * toast_rank x + j.
Proof.
  unfold ids, elements. intros H. apply in_map_iff in H as (e & <- & He).
  apply in_flat_map in He as (n & Hn & He).
  apply in_map_iff in Hn as (x & <- & Hx).
  apply (in_map eid) in He. unfold toast_of in He. rewrite toast_ids in He.
  exists x. unfold toast_rank.
  simpl in He. destruct He as [E|[E|[E|[E|[E|[]]]]]];
    [exists 0|exists 1|exists 2|exists 3|exists 4];
    (split; [exact Hx|split; lia]).
Qed.

Lemma toasts_ids_ge (l : list (nat * jsstring * severity)) (i : nat) :
  In i (ids (map (toast_of base) l)) -> base <= i.
Proof.
  intros H. apply toasts_ids in H as (x & j & _ & _ & ->). lia.
Qed.

(** An update or a removal aimed below [base] goes past the toasts. *)
Lemma update_past_toasts (targets : list nat) (f : element -> element)
  (P : document) (l : list (nat * jsstring * severity)) :
  Forall (fun i => i < base) targets ->
  update targets f (P ++ map (toast_of base) l)
  = update targets f P ++ map (toast_of base) l.
Proof.
  intros Ht. rewrite update_app. f_equal. apply update_out.
  intros i Hi Hin. apply toasts_ids_ge in Hi.
  rewrite Forall_forall in Ht. apply Ht in Hin. lia.
Qed.

Lemma remove_past_toasts (targets : list nat)
  (P : document) (l : list (nat * jsstring * severity)) :
  Forall (fun i => i < base) targets ->
  remove targets (P ++ map (toast_of base) l)
  = remove targets P ++ map (toast_of base) l.
Proof.
  intros Ht. rewrite remove_app. f_equal. apply remove_out.
  intros i Hi Hin. apply toasts_ids_ge in Hi.
  rewrite Forall_forall in Ht. apply Ht in Hin. lia.
Qed.

Lemma select_past_toasts (p : element -> bool)
  (P : document) (l : list (nat * jsstring * severity)) :
  (forall i m t, filter p (elements_of (toast_markup i m t)) = []) ->
  select p (P ++ map (toast_of base) l) = select p P.
Proof.
  intros Hp. rewrite select_app, toasts_select_nil by exact Hp.
  apply app_nil_r.
Qed.

Lemma select_id_past_toasts (s : string)
  (P : document) (l : list (nat * jsstring * severity)) :
  select_id s (P ++ map (toast_of base) l) = select_id s P.
Proof.
  unfold select_id. rewrite elements_app, filter_app.
  rewrite (toasts_filter_nil (has_id s)) by (apply toast_no_id).
  rewrite app_nil_r. reflexivity.
Qed.

End Toasts.

(** *** Ancestors *)

Lemma chain_in_none (t : nat) (n : node) :
  ~ In t (map eid (elements_of n)) -> chain_in t n = None.
Proof.
  induction n as [s|e ks IH] using node_induction; intros H; [reflexivity|].
  simpl in H. simpl.
  destruct (Nat.eqb (eid e) t) eqn:E.
  { apply Nat.eqb_eq in E. exfalso. apply H. left. exact E. }
  assert (first_some (chain_in t) ks = None) as Hnone.
  { apply first_some_none. rewrite Forall_forall in IH. apply Forall_forall.
    intros k Hk. apply IH; [exact Hk|]. intros Hin. apply H. right.
    apply in_map_iff in Hin as (x & Hx & Hin). apply in_map_iff.
    exists x. split; [exact Hx|]. apply in_flat_map. eauto. }
  rewrite Hnone. reflexivity.
Qed.

Lemma chain_none (t : nat) (d : document) :
  ~ In t (ids d) -> chain t d = None.
Proof.
  intros H. unfold chain. apply first_some_none. apply Forall_forall.
  intros n Hn. apply chain_in_none. intros Hin. apply H.
  unfold ids, elements.
  apply in_map_iff in Hin as (x & Hx & Hin). apply in_map_iff.
  exists x. split; [exact Hx|]. apply in_flat_map. eauto.
Qed.

(** From the [.toast] element of a toast, [closest('.position-fixed')] is
    the toast's container. *)
Lemma toast_closest (i : nat) (m : jsstring) (t : severity) :
  match chain_in (i + 1) (toast_markup i m t) with
  | Some c =>
      match filter (hasClass "position-fixed") c with
      | [] => []
      | e :: _ => [eid e]
      end
  | None => []
  end = [i].
Proof.
  unfold toast_markup. cbn [chain_in first_some eid el].
  replace (Nat.eqb i (i + 1)) with false
    by (symmetry; apply Nat.eqb_neq; lia).
  rewrite Nat.eqb_refl. destruct t; reflexivity.
Qed.

(** Removing the container of a toast removes the toast. *)
Lemma toast_remove (i : nat) (m : jsstring) (t : severity) :
  remove_in [i] (toast_markup i m t) = [].
Proof.
  unfold toast_markup. cbn [remove_in eid el existsb].
  rewrite Nat.eqb_refl. reflexivity.
Qed.

End ToastFacts.

Module ShapeFacts.
Import Dom Script Props DomFacts PageFacts ClassFacts ScriptFacts FlashFacts.
Import ToastFacts.

(** *** After the ready callback *)

Lemma each_alert_cases (w : world) (a : nat) :
  each_alert w a = w \/ exists m t, each_alert w a = showToast m t w.
Proof.
  unfold each_alert. destruct (string_truthy _); [right; eauto|left; reflexivity].
Qed.

Lemma flash_loop_shape (page : document) (l0 : list nat) :
  forall (w : world) (l : list (nat * jsstring * severity)) (n : nat),
    doc w = page ++ map (toast_of (fresh_eid page)) l ->
    next_eid w = fresh_eid page + 5 * n ->
    Forall (fun x => toast_rank x < n) l ->
    NoDup (map toast_rank l) ->
    Forall (fun b => snd b = ToastHidden ->
                     exists k, fst b = fresh_eid page + 5 * k + 1) (bound w) ->
    exists l',
      doc (fold_left each_alert l0 w) = page ++ map (toast_of (fresh_eid page)) l'
      /\ NoDup (map toast_rank l')
      /\ Forall (fun b => snd b = ToastHidden ->
                          exists k, fst b = fresh_eid page + 5 * k + 1)
                (bound (fold_left each_alert l0 w)).
Proof.
  induction l0 as [|a l0 IH]; intros w l n Hdoc Hnext Hlt Hnd Hb.
  - exists l. auto.
  - simpl fold_left.
    destruct (each_alert_cases w a) as [->|(m & t & ->)].
    + exact (IH w l n Hdoc Hnext Hlt Hnd Hb).
    + rewrite showToast_spec.
      apply (IH _ (l ++ [(n, m, t)]) (S n)).
      * cbn [doc bind bs_show set_doc alloc]. rewrite Hdoc, Hnext, map_app.
        rewrite <- app_assoc. reflexivity.
      * cbn [next_eid bind bs_show set_doc alloc]. lia.
      * apply Forall_app. split.
        -- eapply Forall_impl; [|exact Hlt]. intros x Hx. cbv beta in Hx. lia.
        -- repeat constructor.
      * rewrite map_app. apply NoDup_app; [exact Hnd|repeat constructor; intros []|].
        intros k Hk [<-|[]]. apply in_map_iff in Hk as (x & E & Hx).
        rewrite Forall_forall in Hlt. apply Hlt in Hx. unfold toast_rank in *.
        cbn [fst] in E. lia.
      * cbn [bound bind bs_show set_doc alloc map]. apply Forall_app. split.
        -- exact Hb.
        -- constructor; [|constructor]. intros _. exists n. cbn [fst]. lia.
Qed.

Lemma ready_shape (page : document) : shape page (ready (load page)).
Proof.
  unfold ready.
  set (w3 := bind (select is_delete_form _) DeleteSubmit _).
  destruct (flash_loop_shape page (select (hasClass "alert") (doc w3)) w3 [] 0)
    as (l & Hdoc & Hnd & Hb).
  - unfold w3. cbn [doc bind load map]. rewrite app_nil_r. reflexivity.
  - unfold w3. cbn [next_eid bind load]. lia.
  - constructor.
  - constructor.
  - unfold w3. cbn [bound bind load doc app]. rewrite !Forall_app.
    repeat split; apply Forall_forall; intros b Hin;
      apply in_map_iff in Hin as (i & <- & _); discriminate.
  - destruct (flash_loop_frame (select (hasClass "alert") (doc w3)) w3)
      as (_ & Ht & Hn & Hr & _).
    exists page, l. cbn [doc bound reads timers now closing setTimeout].
    rewrite Ht, Hn, Hr, flash_loop_closing. repeat split.
    + exact Hdoc.
    + apply Forall_forall. intros i. apply fresh_eid_above.
    + exact Hnd.
    + exact Hb.
    + constructor.
    + constructor.
    + left. repeat split; reflexivity.
Qed.

(** *** What the handlers aim at *)

Section Below.
Variables (page : document) (w : world).
Hypothesis Hshape : shape page w.

Lemma below_select (p : element -> bool) :
  (forall i m t, filter p (elements_of (toast_markup i m t)) = []) ->
  Forall (fun i => i < fresh_eid page) (select p (doc w)).
Proof.
  intros Hp. destruct Hshape as (P & l & Hdoc & HP & _).
  rewrite Hdoc, select_past_toasts by exact Hp.
  apply Forall_forall. intros i Hi. rewrite Forall_forall in HP.
  apply HP. exact (select_in_ids p P i Hi).
Qed.

Lemma below_select_id (s : string) :
  Forall (fun i => i < fresh_eid page) (select_id s (doc w)).
Proof.
  destruct Hshape as (P & l & Hdoc & HP & _).
  rewrite Hdoc, select_id_past_toasts.
  apply Forall_forall. intros i Hi. rewrite Forall_forall in HP.
  apply HP. exact (select_id_in s P i Hi).
Qed.

Lemma below_siblings (t : nat) :
  Forall (fun i => i < fresh_eid page) (siblings is_img t (doc w)).
Proof.
  pose proof (below_select is_img toast_no_img) as H.
  rewrite Forall_forall in *. intros i Hi. apply H.
  exact (siblings_in is_img t i (doc w) Hi).
Qed.

(** An update of elements of the loaded page that keeps identities and
    classes keeps the shape. *)
Lemma shape_update (targets : list nat) (f : element -> element) (w' : world) :
  Forall (fun i => i < fresh_eid page) targets ->
  (forall e, eid (f e) = eid e) ->
  (forall e, hasClass "alert" (f e) = hasClass "alert" e) ->
  doc w' = update targets f (doc w) ->
  bound w' = bound w -> timers w' = timers w -> now w' = now w ->
  closing w' = closing w ->
  (forall p, In p (reads w') -> In p (reads w)) ->
  shape page w'.
Proof.
  intros Ht Hid Hcl Hdoc' Hb' Ht' Hn' Hc' Hr'.
  destruct Hshape as (P & l & Hdoc & HP & Hnd & Hb & Hr & Hcb & Htimer).
  exists (update targets f P), l.
  rewrite Hdoc', Hdoc, Hb', Ht', Hn', Hc'.
  rewrite update_past_toasts by exact Ht.
  rewrite ids_update by exact Hid.
  rewrite select_update by assumption.
  repeat split; try assumption.
  apply Forall_forall. intros p Hp. rewrite Forall_forall in Hr.
  apply Hr. apply Hr'. exact Hp.
Qed.

End Below.

Lemma hasClass_with_value (c : string) (v : jsstring) (e : element) :
  hasClass c (with_value v e) = hasClass c e.
Proof. reflexivity. Qed.

Lemma filter_negb_in {A : Type} (p : A -> bool) (l : list A) (x : A) :
  In x (filter p l) -> In x l.
Proof. intros H. apply filter_In in H. tauto. Qed.

(** *** The toast's hidden event *)

(** The page after [hidden.bs.toast] on the [.toast] element of rank [k]:
    the toast of that rank, if still there, is gone; nothing else is. *)
Lemma hidden_doc (base k : nat) (P : document)
  (l : list (nat * jsstring * severity)) :
  Forall (fun i => i < base) (ids P) ->
  NoDup (map toast_rank l) ->
  remove (closest (hasClass "position-fixed") (base + 5 * k + 1)
                  (P ++ map (toast_of base) l))
         (P ++ map (toast_of base) l)
  = P ++ map (toast_of base)
             (filter (fun x => negb (Nat.eqb (toast_rank x) k)) l).
Proof.
  intros HP Hnd.
  assert (forall l', (forall x, In x l' -> toast_rank x <> k) ->
            chain (base + 5 * k + 1) (P ++ map (toast_of base) l') = None)
    as Hout.
  { intros l' Hl'. apply chain_none. rewrite ids_app. intros Hin.
    apply in_app_or in Hin as [Hin|Hin].
    - rewrite Forall_forall in HP. apply HP in Hin. lia.
    - apply toasts_ids in Hin as (x & j & Hx & Hj & E).
      apply (Hl' x Hx). lia. }
  assert (forall l', (forall x, In x l' -> toast_rank x <> k) ->
            filter (fun x => negb (Nat.eqb (toast_rank x) k)) l' = l')
    as Hkeep.
  { intros l' Hl'. induction l' as [|x l' IH]; [reflexivity|]. simpl.
    replace (Nat.eqb (toast_rank x) k) with false
      by (symmetry; apply Nat.eqb_neq; apply Hl'; left; reflexivity).
    simpl. f_equal. apply IH. intros y Hy. apply Hl'. right. exact Hy. }
  destruct (in_dec Nat.eq_dec k (map toast_rank l)) as [Hin|Hnin].
  - apply in_map_iff in Hin as (x & <- & Hx).
    apply in_split in Hx as (l1 & l2 & ->).
    rewrite map_app in Hnd. simpl in Hnd.
    assert (forall y, In y l1 -> toast_rank y <> toast_rank x) as H1.
    { intros y Hy E. apply NoDup_remove_2 in Hnd. apply Hnd.
      apply in_or_app. left. rewrite <- E. apply in_map. exact Hy. }
    assert (forall y, In y l2 -> toast_rank y <> toast_rank x) as H2.
    { intros y Hy E. apply NoDup_remove_2 in Hnd. apply Hnd.
      apply in_or_app. right. rewrite <- E. apply in_map. exact Hy. }
    change (toast_of base x)
      with (toast_markup (base + 5 * toast_rank x) (snd (fst x)) (snd x)).
    rewrite map_app. cbn [map].
    change (toast_of base x)
      with (toast_markup (base + 5 * toast_rank x) (snd (fst x)) (snd x)).
    set (tx := toast_markup (base + 5 * toast_rank x) (snd (fst x)) (snd x)).
    assert (closest (hasClass "position-fixed") (base + 5 * toast_rank x + 1)
              (P ++ map (toast_of base) l1 ++ tx :: map (toast_of base) l2)
            = [base + 5 * toast_rank x]) as Hc.
    { unfold closest. rewrite app_assoc. unfold chain.
      rewrite first_some_app.
      fold (chain (base + 5 * toast_rank x + 1) (P ++ map (toast_of base) l1)).
      rewrite (Hout l1 H1). cbn [first_some].
      pose proof (toast_closest (base + 5 * toast_rank x) (snd (fst x)) (snd x))
        as Ht.
      fold tx in Ht.
      destruct (chain_in (base + 5 * toast_rank x + 1) tx) as [c|] eqn:E;
        [exact Ht|discriminate Ht]. }
    rewrite Hc.
    change (tx :: map (toast_of base) l2)
      with ([tx] ++ map (toast_of base) l2).
    rewrite !remove_app.
    rewrite filter_app. cbn [filter]. rewrite Nat.eqb_refl. cbn [negb].
    rewrite (Hkeep l1 H1), (Hkeep l2 H2), map_app.
    rewrite (remove_out [base + 5 * toast_rank x] P).
    2:{ intros i Hi [<-|[]]. rewrite Forall_forall in HP. apply HP in Hi. lia. }
    rewrite (remove_out [base + 5 * toast_rank x] (map (toast_of base) l1)).
    2:{ intros i Hi [<-|[]]. apply toasts_ids in Hi as (y & j & Hy & Hj & E).
        apply (H1 y Hy). lia. }
    rewrite (remove_out [base + 5 * toast_rank x] (map (toast_of base) l2)).
    2:{ intros i Hi [<-|[]]. apply toasts_ids in Hi as (y & j & Hy & Hj & E).
        apply (H2 y Hy). lia. }
    unfold remove at 1. cbn [flat_map]. unfold tx.
    rewrite toast_remove. reflexivity.
  - assert (forall x, In x l -> toast_rank x <> k) as Hl.
    { intros x Hx E. apply Hnin. rewrite <- E. apply in_map. exact Hx. }
    unfold closest. rewrite (Hout l Hl), (Hkeep l Hl).
    apply remove_out. intros i _ [].
Qed.

(** Taking toasts away leaves the ranks distinct. *)
Lemma ranks_filter (keep : nat * jsstring * severity -> bool)
  (l : list (nat * jsstring * severity)) :
  NoDup (map toast_rank l) -> NoDup (map toast_rank (filter keep l)).
Proof.
  intros H. induction l as [|x l IH]; [constructor|].
  cbn [map] in H. apply NoDup_cons_iff in H as [Hx Hl].
  cbn [filter]. destruct (keep x); [|exact (IH Hl)].
  cbn [map]. apply NoDup_cons; [|exact (IH Hl)].
  intros Hin. apply Hx. apply in_map_iff in Hin as (y & E & Hy).
  apply in_map_iff. exists y. split; [exact E|].
  apply filter_In in Hy. tauto.
Qed.

(** *** Closing the alerts *)

(** The page after [alert('close')] on the alerts [todo]: toasts stay,
    nothing is added, and an alert that is still there is closing or is
    still to be closed. *)
Lemma close_loop_shape (base : nat) (l : list (nat * jsstring * severity))
  (todo : list nat) :
  forall (w : world) (P : document),
    doc w = P ++ map (toast_of base) l ->
    Forall (fun i => i < base) (ids P) ->
    Forall (fun a => a < base) todo ->
    Forall (fun a => a < base) (closing w) ->
    (forall a, In a (select (hasClass "alert") P) ->
               In a (closing w) \/ In a todo) ->
    exists P',
      doc (fold_left bs_alert_close todo w) = P' ++ map (toast_of base) l
      /\ Forall (fun i => i < base) (ids P')
      /\ Forall (fun a => a < base) (closing (fold_left bs_alert_close todo w))
      /\ Forall (fun a => In a (closing (fold_left bs_alert_close todo w)))
                (select (hasClass "alert") P').
Proof.
  induction todo as [|a todo IH]; intros w P Hdoc HP Htodo Hcl Hal.
  - exists P. cbn [fold_left]. repeat split; try assumption.
    apply Forall_forall. intros a Ha. destruct (Hal a Ha) as [H|[]]. exact H.
  - cbn [fold_left]. pose proof (Forall_inv Htodo) as Ha. cbv beta in Ha.
    assert (exists P1,
              doc (bs_alert_close w a) = P1 ++ map (toast_of base) l
              /\ Forall (fun i => i < base) (ids P1)
              /\ Forall (fun a => a < base) (closing (bs_alert_close w a))
              /\ (forall b, In b (select (hasClass "alert") P1) ->
                            In b (closing (bs_alert_close w a)) \/ In b todo))
      as (P1 & Hdoc1 & HP1 & Hcl1 & Hal1).
    { unfold bs_alert_close.
      destruct (find_node a (doc w)) as [[e ks]|] eqn:E.
      + destruct (hasClass "fade" e).
        * exists (update [a] (class_list_remove "show") P).
          cbn [doc closing set_doc set_closing]. repeat split.
          -- rewrite Hdoc.
             apply update_past_toasts. constructor; [exact Ha|constructor].
          -- rewrite ids_update; [exact HP|].
             intros x. apply class_list_remove_eid.
          -- apply Forall_app. split;
               [exact Hcl|constructor; [exact Ha|constructor]].
          -- intros b Hb. rewrite select_update in Hb.
             ++ destruct (Hal b Hb) as [H|[<-|H]].
                ** left. apply in_or_app. left. exact H.
                ** left. apply in_or_app. right. left. reflexivity.
                ** right. exact H.
             ++ intros x. apply class_list_remove_eid.
             ++ intros x. apply hasClass_class_list_remove. discriminate.
        * exists (remove [a] P). cbn [doc closing set_doc]. repeat split.
          -- rewrite Hdoc.
             apply remove_past_toasts. constructor; [exact Ha|constructor].
          -- apply Forall_forall. intros i Hi. rewrite Forall_forall in HP.
             apply HP. unfold ids in *. apply in_map_iff in Hi as (x & <- & Hx).
             apply in_map. apply elements_remove in Hx. tauto.
          -- exact Hcl.
          -- intros b Hb. apply select_remove in Hb as [Hb Hout].
             destruct (Hal b Hb) as [H|[<-|H]];
               [left; exact H| |right; exact H].
             exfalso. apply Hout. left. reflexivity.
      + exists P. repeat split; try assumption.
        intros b Hb. destruct (Hal b Hb) as [H|[<-|H]];
          [left; exact H| |right; exact H].
        exfalso. apply find_node_none in E. apply E. rewrite Hdoc, ids_app.
        apply in_or_app. left. exact (select_in_ids _ P a Hb). }
    apply (IH _ P1); try assumption. exact (Forall_inv_tail Htodo).
Qed.

(** *** Every event keeps the shape *)

Lemma shape_step (page : document) (w : world) (ev : event) :
  shape page w -> shape page (after (dispatch w ev)).
Proof.
  intros Hs. destruct ev as [t|t fs|t b|t|r|r|ms| |a]; unfold dispatch.
  - (* input *)
    destruct (is_bound t PriceInput w); [|exact Hs].
    unfold price_input. destruct (price_text _ _) as [s|]; [|exact Hs].
    cbn [after].
    apply (shape_update page w Hs (select_id "final_price" (doc w))
             (with_value s)); try reflexivity.
    + apply below_select_id. exact Hs.
    + auto.
  - (* change *)
    destruct (is_bound t FileChange w); [|exact Hs].
    unfold file_change. cbn [after].
    pose proof (below_siblings page w Hs t) as Hbelow.
    destruct (siblings is_img t (doc w)) as [|i sib] eqn:E; [exact Hs|].
    destruct fs as [|f fs]; [exact Hs|].
    destruct Hs as (P & l & Hdoc & HP & Hnd & Hb & Hr & Hcb & Htimer).
    exists P, l. cbn [doc bound reads timers now closing start_read].
    repeat split; try assumption.
    apply Forall_app. split; [exact Hr|]. constructor; [exact Hbelow|constructor].
  - (* submit *)
    destruct (is_bound t DeleteSubmit w); [|exact Hs].
    unfold delete_submit. cbn [after].
    destruct Hs as (P & l & Hdoc & HP & Hnd & Hb & Hr & Hcb & Htimer).
    exists P, l. cbn [doc bound reads timers now closing confirm].
    repeat split; assumption.
  - (* hidden.bs.toast *)
    destruct (is_bound t ToastHidden w) eqn:Hbound; [|exact Hs].
    cbn [after]. unfold toast_hidden.
    destruct Hs as (P & l & Hdoc & HP & Hnd & Hb & Hr & Hcb & Htimer).
    apply is_bound_in in Hbound. rewrite Forall_forall in Hb.
    destruct (Hb _ Hbound eq_refl) as (k & Hk). cbn [fst] in Hk. subst t.
    exists P, (filter (fun x => negb (Nat.eqb (toast_rank x) k)) l).
    cbn [doc bound reads timers now closing set_doc].
    rewrite Hdoc, hidden_doc by assumption.
    repeat split; try assumption.
    + apply ranks_filter. exact Hnd.
    + apply Forall_forall. exact Hb.
  - (* read completed *)
    destruct (find_read r w) as [p|] eqn:E; [|exact Hs].
    cbn [after]. unfold reader_onload.
    apply (shape_update page w Hs (preview p) (with_attr "src" (data_url (source p))));
      try reflexivity.
    + destruct Hs as (P & l & Hdoc & HP & Hnd & Hb & Hr & Hcb & Htimer).
      rewrite Forall_forall in Hr. apply Hr.
      unfold find_read in E. apply find_some in E. tauto.
    + intros e. apply hasClass_with_src.
    + cbn [reads set_doc drop_read set_reads]. intros q. apply filter_negb_in.
  - (* read failed *)
    cbn [after].
    destruct Hs as (P & l & Hdoc & HP & Hnd & Hb & Hr & Hcb & Htimer).
    exists P, l. cbn [doc bound reads timers now closing drop_read set_reads].
    repeat split; try assumption.
    apply Forall_forall. intros q Hq. rewrite Forall_forall in Hr.
    apply Hr. apply filter_negb_in in Hq. exact Hq.
  - (* time passes *)
    cbn [after]. destruct (0 <=? ms)%Z eqn:E; [|exact Hs].
    apply Z.leb_le in E.
    destruct Hs as (P & l & Hdoc & HP & Hnd & Hb & Hr & Hcb & Htimer).
    exists P, l. cbn [doc bound reads timers now closing set_now].
    repeat split; try assumption.
    destruct Htimer as [Hpending|(Hnone & Hnow & Hsel)]; [left; exact Hpending|].
    right. repeat split; try assumption. lia.
  - (* a timer runs *)
    destruct Hs as (P & l & Hdoc & HP & Hnd & Hb & Hr & Hcb & Htimer).
    destruct Htimer as [(Ht & Hc & Hsel)|(Ht & Hnow & Hsel)]; rewrite Ht.
    + unfold take_due, dismissal. cbn [due].
      destruct (5000 <=? now w)%Z eqn:E.
      * apply Z.leb_le in E. cbn [after action run_callback].
        unfold auto_dismiss. cbn [doc set_timers].
        destruct (close_loop_shape (fresh_eid page) l
                    (select (hasClass "alert") (doc w)) (set_timers [] w) P)
          as (P' & Hdoc' & HP' & Hcb' & Hal').
        { exact Hdoc. }
        { exact HP. }
        { rewrite Hdoc.
          rewrite (select_past_toasts (fresh_eid page) (hasClass "alert") P l
                     toast_no_alert).
          apply Forall_forall. intros i Hi. rewrite Forall_forall in HP.
          apply HP. exact (select_in_ids _ P i Hi). }
        { exact Hcb. }
        { intros b Hb'. right. rewrite Hdoc.
          rewrite (select_past_toasts (fresh_eid page) (hasClass "alert") P l
                     toast_no_alert).
          exact Hb'. }
        destruct (auto_dismiss_frame (set_timers [] w))
          as (Eb & Et & En & Er & _).
        unfold auto_dismiss in Eb, Et, En, Er. cbn [doc set_timers] in *.
        exists P', l. rewrite Eb, Et, En, Er.
        cbn [bound timers now reads set_timers].
        repeat split; try assumption.
        right. repeat split; assumption.
      * cbn [after]. exists P, l. repeat split; try assumption.
        left. repeat split; assumption.
    + cbn [take_due after]. exists P, l. repeat split; try assumption.
      right. repeat split; assumption.
  - (* the transition of a closing alert ends *)
    destruct (existsb (Nat.eqb a) (closing w)) eqn:Ea; [|exact Hs].
    cbn [after].
    destruct Hs as (P & l & Hdoc & HP & Hnd & Hb & Hr & Hcb & Htimer).
    apply existsb_eqb_in in Ea.
    assert (a < fresh_eid page) as Ha
      by (rewrite Forall_forall in Hcb; exact (Hcb a Ea)).
    assert (forall b, In b (filter (fun b => negb (Nat.eqb b a)) (closing w))
                      <-> In b (closing w) /\ b <> a) as Hkeep.
    { intros b. rewrite filter_In, negb_true_iff, Nat.eqb_neq. reflexivity. }
    exists (remove [a] P), l.
    cbn [doc bound reads timers now closing set_doc set_closing].
    rewrite Hdoc, remove_past_toasts by (constructor; [exact Ha|constructor]).
    repeat split; try assumption.
    + apply Forall_forall. intros i Hi. rewrite Forall_forall in HP.
      apply HP. unfold ids in *. apply in_map_iff in Hi as (x & <- & Hx).
      apply in_map. apply elements_remove in Hx. tauto.
    + apply Forall_forall. intros b Hb'. apply Hkeep in Hb' as [Hb' _].
      rewrite Forall_forall in Hcb. exact (Hcb b Hb').
    + destruct Htimer as [(Ht & Hc & Hsel)|(Ht & Hnow & Hsel)].
      * rewrite Hc in Ea. destruct Ea.
      * right. repeat split; try assumption.
        apply Forall_forall. intros b Hb'.
        apply select_remove in Hb' as [Hb' Hout]. apply Hkeep. split.
        -- rewrite Forall_forall in Hsel. exact (Hsel b Hb').
        -- intros ->. apply Hout. left. reflexivity.
Qed.

Lemma reachable_shape (page : document) (w : world) :
  reachable page w -> shape page w.
Proof.
  intros H. induction H as [|w ev _ IH] using reachable_ind.
  - apply ready_shape.
  - apply shape_step. exact IH.
Qed.

End ShapeFacts.

(** ** Toast clean-up and auto-dismissal *)

Module ToastClaims.
Import Dom Script Props Samples.
Import DomFacts PageFacts ClassFacts ScriptFacts FlashFacts ToastFacts.
Import ShapeFacts.

(** The identities of a run of toasts of distinct ranks are distinct. *)
Lemma toasts_ids_distinct (base : nat) (l : list (nat * jsstring * severity)) :
  NoDup (map toast_rank l) -> NoDup (ids (map (toast_of base) l)).
Proof.
  induction l as [|x l IH]; intros H; [constructor|].
  simpl in H. inversion H as [|? ? Hx Hl]; subst.
  change (map (toast_of base) (x :: l))
    with ([toast_of base x] ++ map (toast_of base) l).
  rewrite ids_app. apply NoDup_app.
  - unfold ids, elements. cbn [flat_map]. rewrite app_nil_r.
    unfold toast_of. rewrite toast_ids.
    repeat (constructor; [simpl; intros H0; lia|]). constructor.
  - exact (IH Hl).
  - intros i Hi Hin.
    apply toasts_ids in Hin as (y & j & Hy & Hj & E).
    change [toast_of base x] with (map (toast_of base) [x]) in Hi.
    apply toasts_ids in Hi as (x' & j' & [<-|[]] & Hj' & E').
    apply Hx. replace (toast_rank x) with (toast_rank y) by lia.
    apply in_map. exact Hy.
Qed.

(** In a reachable world, a created element stands once on the page. *)
Lemma created_once (page : document) (w : world) (i : nat)
  (A B : list nat) :
  reachable page w -> fresh_eid page <= i ->
  ids (doc w) = A ++ i :: B -> ~ In i A /\ ~ In i B.
Proof.
  intros Hr Hi Hids.
  destruct (reachable_shape page w Hr) as (P & l & Hdoc & HP & Hnd & _).
  assert (NoDup (filter (Nat.leb (fresh_eid page)) (ids (doc w)))) as Hn.
  { rewrite Hdoc, ids_app, filter_app.
    replace (filter (Nat.leb (fresh_eid page)) (ids P)) with (@nil nat).
    - cbn [app].
      replace (filter (Nat.leb (fresh_eid page))
                 (ids (map (toast_of (fresh_eid page)) l)))
        with (ids (map (toast_of (fresh_eid page)) l)).
      + apply toasts_ids_distinct. exact Hnd.
      + symmetry. apply forallb_filter_id. apply forallb_forall.
        intros j Hj. apply Nat.leb_le. exact (toasts_ids_ge _ _ _ Hj).
    - symmetry. clear - HP. induction (ids P) as [|j r IH]; [reflexivity|].
      inversion HP as [|? ? Hj Hr]; subst. cbn [filter].
      replace (Nat.leb (fresh_eid page) j) with false
        by (symmetry; apply Nat.leb_gt; exact Hj).
      apply IH. exact Hr. }
  rewrite Hids, filter_app in Hn. cbn [filter] in Hn.
  replace (Nat.leb (fresh_eid page) i) with true in Hn
    by (symmetry; apply Nat.leb_le; exact Hi).
  apply NoDup_remove_2 in Hn.
  split; intros Hin; apply Hn; apply in_or_app; [left|right];
    apply filter_In; (split; [exact Hin|apply Nat.leb_le; exact Hi]).
Qed.

(** C7: when the hide transition of a toast made by [showToast] completes,
    its whole container leaves the page, and nothing else does. *)
Theorem hidden_toast_is_removed
  (page : document) (w : world) (i : nat) (m : jsstring) (t : severity)
  (A B : document) :
  reachable page w ->
  is_bound (i + 1) ToastHidden w = true ->
  doc w = A ++ toast_markup i m t :: B ->
  doc (after (dispatch w (Hidden (i + 1)))) = A ++ B
  /\ ~ In i (ids (A ++ B))
  /\ ~ In (i + 1) (ids (A ++ B)).
Proof.
  intros Hr Hb Hdoc.
  destruct (reachable_shape page w Hr) as (_ & _ & _ & _ & _ & Hbound & _).
  rewrite Forall_forall in Hbound.
  destruct (Hbound _ (proj1 (is_bound_in w (i + 1) ToastHidden) Hb) eq_refl)
    as (k & Hk).
  cbn [fst] in Hk.
  assert (ids (doc w) = ids A ++ i :: (i + 1 :: i + 2 :: i + 3 :: i + 4 :: ids B))
    as Hids.
  { rewrite Hdoc.
    change (toast_markup i m t :: B) with ([toast_markup i m t] ++ B).
    rewrite !ids_app. unfold ids at 2, elements. cbn [flat_map].
    rewrite app_nil_r, toast_ids. reflexivity. }
  destruct (created_once page w i _ _ Hr ltac:(lia) Hids) as [HiA HiB].
  assert (ids (doc w) = (ids A ++ [i]) ++ (i + 1) :: (i + 2 :: i + 3 :: i + 4 :: ids B))
    as Hids'.
  { rewrite Hids, <- app_assoc. reflexivity. }
  destruct (created_once page w (i + 1) _ _ Hr ltac:(lia) Hids') as [HjA HjB].
  assert (~ In (i + 1) (ids A)) as HjA'.
  { intros H. apply HjA. apply in_or_app. left. exact H. }
  split; [|split].
  - unfold dispatch. rewrite Hb. cbn [after]. unfold toast_hidden.
    cbn [doc set_doc]. rewrite Hdoc.
    assert (closest (hasClass "position-fixed") (i + 1)
              (A ++ toast_markup i m t :: B) = [i]) as Hc.
    { unfold closest, chain. rewrite first_some_app.
      fold (chain (i + 1) A). rewrite (chain_none (i + 1) A HjA').
      cbn [first_some].
      pose proof (toast_closest i m t) as Ht.
      destruct (chain_in (i + 1) (toast_markup i m t)) as [c|];
        [exact Ht|discriminate Ht]. }
    rewrite Hc.
    change (toast_markup i m t :: B) with ([toast_markup i m t] ++ B).
    rewrite !remove_app.
    rewrite (remove_out [i] A) by (intros j Hj [<-|[]]; contradiction).
    rewrite (remove_out [i] B).
    2:{ intros j Hj [<-|[]]. apply HiB. simpl. tauto. }
    unfold remove. cbn [flat_map]. rewrite toast_remove. reflexivity.
  - rewrite ids_app. intros H. apply in_app_or in H as [H|H];
      [contradiction|]. apply HiB. simpl. tauto.
  - rewrite ids_app. intros H. apply in_app_or in H as [H|H];
      [contradiction|]. apply HjB. simpl. tauto.
Qed.

Lemma hidden_toast_is_removed_witness :
  doc (after (dispatch (ready (load flash_page)) (Hidden (3 + 1))))
  = flash_page ++ []
  /\ ~ In 3 (ids (flash_page ++ []))
  /\ ~ In (3 + 1) (ids (flash_page ++ [])).
Proof.
  apply (hidden_toast_is_removed flash_page (ready (load flash_page)) 3
           (js "Item deleted.") danger flash_page []).
  - exists []. reflexivity.
  - reflexivity.
  - reflexivity.
Defined.

Example toast_comes_and_goes :
  ids (doc (ready (load flash_page))) = [0; 1; 2; 3; 4; 5; 6; 7]
  /\ doc (run (ready (load flash_page)) [Hidden 4]) = flash_page.
Proof. vm_compute. split; reflexivity. Qed.

(** *** Distinct identities *)











(** *** What [alert('close')] leaves on the page *)





Example alerts_closed_at_5000ms :
  ids (doc (run (ready (load flash_page)) [Elapse 4999; Timeout]))
  = [0; 1; 2; 3; 4; 5; 6; 7]
  /\ ids (doc (run (ready (load flash_page)) [Elapse 4999; AlertClosed 0]))
     = [0; 1; 2; 3; 4; 5; 6; 7]
  /\ attr "class" 0 (doc (run (ready (load flash_page)) [Elapse 5000; Timeout]))
     = Some (js "alert alert-danger fade").
Proof. vm_compute. repeat split; reflexivity. Qed.

End ToastClaims.

(* ===================================================================== *)
(** * Part III: further properties of the script                          *)
(* ===================================================================== *)

(** ** What the delete guard matches, and when it prompts *)

Module GuardFacts.
Import Dom Script Props MoreProps Samples.
Import DomFacts PageFacts ScriptFacts PreviewFacts.

Lemma starts_with_prefix (p s : jsstring) :
  starts_with p s = true <-> exists b, s = p ++ b.
Proof.
  revert s. induction p as [|a p IH]; intros s.
  - simpl. split; [intros _; exists s; reflexivity|reflexivity].
  - destruct s as [|c s]; simpl.
    + split; [discriminate|intros [b E]; discriminate].
    + rewrite andb_true_iff, N.eqb_eq, IH. split.
      * intros [-> [b ->]]. exists b. reflexivity.
      * intros [b E]. inversion E; subst. split; [reflexivity|exists b; reflexivity].
Qed.

(** [includes] is substring containment. *)
Lemma includes_substring (p s : jsstring) :
  includes p s = true <-> exists a b, s = a ++ p ++ b.
Proof.
  induction s as [|c s IH].
  - simpl. rewrite orb_false_r, starts_with_prefix. split.
    + intros [b E]. exists [], b. exact E.
    + intros (a & b & E). destruct a as [|x a]; [exists b; exact E|discriminate].
  - cbn [includes]. rewrite orb_true_iff, starts_with_prefix, IH. split.
    + intros [[b E]|(a & b & E)].
      * exists [], b. exact E.
      * exists (c :: a), b. rewrite E. reflexivity.
    + intros (a & b & E). destruct a as [|x a].
      * left. exists b. exact E.
      * right. inversion E; subst. exists a, b. reflexivity.
Qed.

(** X1: the selector of line 29 matches exactly the [form] elements whose
    [action] attribute reads [a ++ "delete" ++ b] for some [a] and [b]:
    the match is on the attribute as written, and regards case. *)
Theorem delete_form_is_substring_match (e : element) :
  is_delete_form e = true
  <-> tag e = "form"
      /\ exists a b, get_attr "action" (attrs e) = Some (a ++ js "delete" ++ b).
Proof.
  unfold is_delete_form. rewrite andb_true_iff, String.eqb_eq.
  destruct (get_attr "action" (attrs e)) as [v|].
  - rewrite includes_substring. split.
    + intros [Ht (a & b & ->)]. split; [exact Ht|]. exists a, b. reflexivity.
    + intros [Ht (a & b & E)]. split; [exact Ht|]. exists a, b. congruence.
  - split; [intros [_ H]; discriminate|intros [_ (a & b & H)]; discriminate].
Qed.

Example delete_form_samples :
  is_delete_form (el 0 "form" [("action", js "/menu/delete/3")]) = true
  /\ is_delete_form (el 0 "form" [("action", js "/menu/DELETE/3")]) = false
  /\ is_delete_form (el 0 "form" [("action", js "/menu/undeleted")]) = true
  /\ is_delete_form (el 0 "form" [("method", js "post")]) = false
  /\ is_delete_form (el 0 "a" [("action", js "/menu/delete/3")]) = false.
Proof. vm_compute. repeat split; reflexivity. Qed.

(** X2: in every reachable world, an event on an element that the ready
    callback did not select for it runs no handler: an input event outside
    the price and discount fields, a change event outside the file inputs
    and a submission of a form that is no delete form leave the world as
    it is, and the submission takes place without a prompt. *)
Theorem unmatched_events_run_no_handler
  (page : document) (w : world) (t : nat) :
  reachable page w ->
  (~ In t (select is_price_or_discount page) ->
   dispatch w (Input t) = {| after := w; default_action := true |})
  /\ (~ In t (select is_file_input page) ->
      forall files,
        dispatch w (Change t files) = {| after := w; default_action := true |})
  /\ (~ In t (select is_delete_form page) ->
      forall answer,
        dispatch w (Submit t answer) = {| after := w; default_action := true |}).
Proof.
  intros Hr.
  assert (forall h, h <> ToastHidden ->
            ~ In t (select match h with
                           | PriceInput => is_price_or_discount
                           | FileChange => is_file_input
                           | _ => is_delete_form
                           end page) ->
            is_bound t h w = false) as Hno.
  { intros h Hh Hin. destruct (is_bound t h w) eqn:E; [|reflexivity].
    apply (reachable_is_bound page w t h Hr Hh) in E. contradiction. }
  repeat split.
  - intros H. unfold dispatch.
    rewrite (Hno PriceInput ltac:(discriminate) H). reflexivity.
  - intros H files. unfold dispatch.
    rewrite (Hno FileChange ltac:(discriminate) H). reflexivity.
  - intros H answer. unfold dispatch.
    rewrite (Hno DeleteSubmit ltac:(discriminate) H). reflexivity.
Qed.

Lemma unmatched_events_run_no_handler_witness :
  dispatch (ready (load (price_form "19.99" "15"))) (Input 3)
  = {| after := ready (load (price_form "19.99" "15")); default_action := true |}
  /\ dispatch (ready (load (price_form "19.99" "15"))) (Change 1 [png_a])
     = {| after := ready (load (price_form "19.99" "15"));
          default_action := true |}
  /\ dispatch (ready (load (price_form "19.99" "15"))) (Submit 0 false)
     = {| after := ready (load (price_form "19.99" "15"));
          default_action := true |}.
Proof.
  destruct (unmatched_events_run_no_handler (price_form "19.99" "15")
              (ready (load (price_form "19.99" "15"))) 3) as (Hi & _ & _).
  { exists []. reflexivity. }
  destruct (unmatched_events_run_no_handler (price_form "19.99" "15")
              (ready (load (price_form "19.99" "15"))) 1) as (_ & Hc & _).
  { exists []. reflexivity. }
  destruct (unmatched_events_run_no_handler (price_form "19.99" "15")
              (ready (load (price_form "19.99" "15"))) 0) as (_ & _ & Hs).
  { exists []. reflexivity. }
  split; [|split].
  - apply Hi. vm_compute. intuition discriminate.
  - apply Hc. vm_compute. intuition.
  - apply Hs. vm_compute. intuition.
Defined.

(** The dialogs an event displays. *)
Lemma dispatch_prompts (w : world) (ev : event) :
  prompts (after (dispatch w ev))
  = prompts w
    ++ match ev with
       | Submit t _ => if is_bound t DeleteSubmit w then [confirm_message] else []
       | _ => []
       end.
Proof.
  destruct ev as [t|t fs|t b|t|r|r|ms| |a]; unfold dispatch;
    try rewrite app_nil_r.
  - destruct (is_bound t PriceInput w); [|reflexivity].
    unfold price_input. destruct (price_text _ _); reflexivity.
  - destruct (is_bound t FileChange w); [|reflexivity].
    unfold file_change. destruct (siblings is_img t (doc w)); [reflexivity|].
    destruct fs; reflexivity.
  - destruct (is_bound t DeleteSubmit w); [reflexivity|].
    rewrite app_nil_r. reflexivity.
  - destruct (is_bound t ToastHidden w); reflexivity.
  - destruct (find_read r w); reflexivity.
  - reflexivity.
  - destruct (0 <=? ms)%Z; reflexivity.
  - destruct (take_due (now w) (timers w)) as [[t rest]|]; [|reflexivity].
    destruct (action t). cbn [after run_callback].
    destruct (auto_dismiss_frame (set_timers rest w))
      as (_ & _ & _ & _ & _ & -> & _).
    reflexivity.
  - destruct (existsb (Nat.eqb a) (closing w)); reflexivity.
Qed.

(** X3: after any sequence of events, the [confirm] dialogs displayed are
    the delete prompt once for each submission of a delete form among the
    events, and nothing else: the ready callback and the other handlers
    display none. *)
Theorem one_prompt_per_delete_submission (page : document) (evs : list event) :
  prompts (run (ready (load page)) evs)
  = repeat confirm_message
      (List.length (filter (is_delete_submit page) evs)).
Proof.
  induction evs as [|ev evs IH] using rev_ind.
  - simpl. unfold ready.
    match goal with
    | |- context [fold_left each_alert ?l0 ?w0] =>
        destruct (flash_loop_frame l0 w0) as (_ & _ & _ & _ & _ & Hp)
    end.
    cbn [prompts setTimeout]. rewrite Hp. reflexivity.
  - rewrite run_snoc, dispatch_prompts, IH, filter_app, length_app.
    assert (reachable page (run (ready (load page)) evs)) as Hr
      by (exists evs; reflexivity).
    destruct ev as [t|t fs|t b|t|r|r|ms| |a];
      try (cbn [filter is_delete_submit List.length];
           rewrite app_nil_r, Nat.add_0_r; reflexivity).
    cbn [filter is_delete_submit].
    destruct (existsb (Nat.eqb t) (select is_delete_form page)) eqn:E.
    + apply existsb_eqb_in in E.
      apply (reachable_is_bound page _ t DeleteSubmit Hr ltac:(discriminate)) in E.
      rewrite E. cbn [List.length]. rewrite Nat.add_1_r.
      cbn [repeat]. symmetry. apply repeat_cons.
    + assert (is_bound t DeleteSubmit (run (ready (load page)) evs) = false) as Hb.
      { destruct (is_bound t DeleteSubmit _) eqn:B; [|reflexivity].
        apply (reachable_is_bound page _ t DeleteSubmit Hr ltac:(discriminate)) in B.
        apply existsb_eqb_in in B. congruence. }
      rewrite Hb. cbn [List.length]. rewrite app_nil_r, Nat.add_0_r. reflexivity.
Qed.

Example prompts_on_delete_page :
  prompts (run (ready (load delete_page))
               [Submit 0 false; Input 1; Submit 1 true; Elapse 6000; Timeout;
                Submit 0 true])
  = [confirm_message; confirm_message].
Proof. vm_compute. reflexivity. Qed.

End GuardFacts.

(** ** What the price calculator reads, and what it never writes *)

Module PriceMore.
Import Dom Script Props MoreProps Samples.
Import Number NumberFacts FixedFacts ToFixedFacts PriceFacts.

Lemma trim_start_skips (ws s : jsstring) :
  blank ws = true -> trim_start (ws ++ s) = trim_start s.
Proof.
  induction ws as [|c ws IH]; intros H; [reflexivity|].
  simpl in H. apply andb_prop in H as [Hc Hws].
  simpl. rewrite Hc. exact (IH Hws).
Qed.

(** X4: white space before the number in a field does not change what is
    written. *)
Theorem leading_white_space_is_skipped
  (ws s : jsstring) (other : option jsstring) :
  blank ws = true ->
  parseFloat (ws ++ s) = parseFloat s
  /\ price_text (Some (ws ++ s)) other = price_text (Some s) other
  /\ price_text other (Some (ws ++ s)) = price_text other (Some s).
Proof.
  intros H.
  assert (parseFloat (ws ++ s) = parseFloat s) as E.
  { unfold parseFloat. rewrite (trim_start_skips ws s H). reflexivity. }
  unfold price_text. cbn [to_js_string]. rewrite E. auto.
Qed.

Lemma leading_white_space_is_skipped_witness :
  parseFloat ([9; 32; 160]%N ++ js "7.5") = parseFloat (js "7.5")
  /\ price_text (Some ([9; 32; 160]%N ++ js "7.5")) (Some (js "10"))
     = price_text (Some (js "7.5")) (Some (js "10"))
  /\ price_text (Some (js "10")) (Some ([9; 32; 160]%N ++ js "7.5"))
     = price_text (Some (js "10")) (Some (js "7.5")).
Proof.
  apply (leading_white_space_is_skipped [9; 32; 160]%N (js "7.5")
           (Some (js "10"))).
  reflexivity.
Defined.

Lemma digit_cases (c : N) :
  is_digit c = true -> In c [48; 49; 50; 51; 52; 53; 54; 55; 56; 57]%N.
Proof.
  unfold is_digit. intros H. apply andb_prop in H as [H1 H2].
  apply N.leb_le in H1, H2. simpl.
  assert (c = 48 \/ c = 49 \/ c = 50 \/ c = 51 \/ c = 52 \/ c = 53 \/ c = 54
          \/ c = 55 \/ c = 56 \/ c = 57)%N as Hc by lia.
  intuition auto.
Qed.

(** A string that begins with a digit has no white space, no sign and no
    [Infinity] to skip. *)
Lemma digit_first (c : N) (r : jsstring) :
  is_digit c = true ->
  trim_start (c :: r) = c :: r
  /\ take_sign (c :: r) = (false, c :: r)
  /\ starts_with (js "Infinity") (c :: r) = false.
Proof.
  intros H. apply digit_cases in H. simpl in H.
  repeat (destruct H as [<-|H]; [repeat split; reflexivity|]). destruct H.
Qed.

(** X5: what follows the numeral in a field is ignored.  After an integer
    numeral, text that begins with anything but a digit, a point or an
    exponent letter changes nothing; after a numeral with a point, text
    that begins with anything but a digit or an exponent letter changes
    nothing.  So ["12px"] and ["12,50"] are read as 12, and ["1.5.2"] as
    1.5. *)
Theorem trailing_text_is_ignored (ip fp : jsstring) (c : N) (r : jsstring) :
  ip <> [] ->
  Forall (fun x => is_digit x = true) ip ->
  Forall (fun x => is_digit x = true) fp ->
  is_digit c = false -> c <> 101%N -> c <> 69%N ->
  (c <> 46%N -> parseFloat (ip ++ c :: r) = parseFloat ip)
  /\ parseFloat (ip ++ 46%N :: fp ++ c :: r) = parseFloat (ip ++ 46%N :: fp).
Proof.
  intros Hne Hip Hfp Hc He HE.
  destruct ip as [|d ip]; [congruence|].
  pose proof (Forall_inv Hip) as Hd. cbv beta in Hd.
  assert (forall rest, parseFloat ((d :: ip) ++ rest)
                       = unsigned_literal false ((d :: ip) ++ rest)) as Hpf.
  { intros rest. unfold parseFloat. cbn [app].
    destruct (digit_first d (ip ++ rest) Hd) as (-> & -> & _). reflexivity. }
  assert (forall rest, starts_with (js "Infinity") ((d :: ip) ++ rest) = false)
    as Hinf.
  { intros rest. cbn [app]. apply (digit_first d (ip ++ rest) Hd). }
  assert (exponent_part (c :: r) = 0%Z) as Hexp.
  { unfold exponent_part.
    replace (N.eqb c 101) with false by (symmetry; apply N.eqb_neq; exact He).
    replace (N.eqb c 69) with false by (symmetry; apply N.eqb_neq; exact HE).
    reflexivity. }
  split.
  - intros Hpt.
    rewrite Hpf. rewrite <- (app_nil_r (d :: ip)) at 2. rewrite Hpf.
    unfold unsigned_literal. rewrite !Hinf.
    rewrite (span_digits_all (d :: ip) (c :: r) Hip Hc).
    rewrite (span_digits_all (d :: ip) [] Hip I).
    rewrite Hexp.
    destruct c as [|p]; [reflexivity|].
    do 6 (destruct p as [p|p|]; try reflexivity). congruence.
  - rewrite !Hpf. unfold unsigned_literal. rewrite !Hinf.
    rewrite (span_digits_all (d :: ip) (46%N :: fp ++ c :: r) Hip eq_refl).
    rewrite (span_digits_all (d :: ip) (46%N :: fp) Hip eq_refl).
    rewrite (span_digits_all fp (c :: r) Hfp Hc).
    rewrite <- (app_nil_r fp) at 3.
    rewrite (span_digits_all fp [] Hfp I).
    rewrite Hexp. reflexivity.
Qed.

Lemma trailing_text_is_ignored_witness :
  (44%N <> 46%N -> parseFloat (js "12" ++ 44%N :: js "50") = parseFloat (js "12"))
  /\ parseFloat (js "12" ++ 46%N :: js "5" ++ 44%N :: js "50")
     = parseFloat (js "12" ++ 46%N :: js "5").
Proof.
  apply (trailing_text_is_ignored (js "12") (js "5") 44%N (js "50")).
  - discriminate.
  - repeat constructor.
  - repeat constructor.
  - reflexivity.
  - discriminate.
  - discriminate.
Defined.

Example decimal_comma_is_cut :
  price_text (Some (js "12,50")) (Some (js "10")) = Normal (js "10.80")
  /\ price_text (Some (js "12.50")) (Some (js "10")) = Normal (js "11.25")
  /\ price_text (Some (js "12px")) None = Normal (js "12.00").
Proof. vm_compute. repeat split; reflexivity. Qed.

(** X6: with a discount that is empty, does not parse or is zero, a finite
    price is written as it is, to two decimal places. *)
Theorem no_discount_keeps_price (sp : jsstring) (vd : option jsstring) :
  is_finite (parseFloat sp) = true ->
  truthy (parseFloat (to_js_string vd)) = false ->
  price_text (Some sp) vd = toFixed (parseFloat sp) 2.
Proof.
  intros Hp Hd. unfold price_text. cbn [to_js_string].
  unfold or_else at 2. rewrite Hd. rewrite of_Z_0.
  unfold final_price. rewrite of_Z_100.
  destruct (parseFloat sp) as [s|s| |s m e]; try discriminate.
  - destruct s; reflexivity.
  - reflexivity.
Qed.

Lemma no_discount_keeps_price_witness :
  price_text (Some (js "19.99")) (Some (js ""))
  = toFixed (parseFloat (js "19.99")) 2.
Proof.
  apply (no_discount_keeps_price (js "19.99") (Some (js ""))); reflexivity.
Defined.

Example infinite_price_without_discount :
  price_text (Some (js "Infinity")) (Some (js "")) = Normal (js "NaN")
  /\ price_text (Some (js "Infinity")) (Some (js "10")) = Normal (js "NaN")
  /\ price_text (Some (js "1e308")) (Some (js "-1000")) = Normal (js "Infinity").
Proof. vm_compute. repeat split; reflexivity. Qed.

End PriceMore.

(** ** Finite fields never give NaN *)

Module NeverNaN.
Import Dom Script Props MoreProps Samples.
Import Number NumberFacts FixedFacts ToFixedFacts PriceFacts.

Lemma shr_1_nonneg (mrs : shr_record) :
  (0 <= shr_m mrs)%Z -> (0 <= shr_m (shr_1 mrs))%Z.
Proof.
  destruct mrs as [m r s]. simpl.
  destruct m as [|p|p]; [reflexivity| |intros H; exfalso; apply H; reflexivity].
  destruct p; intros _; simpl; lia.
Qed.

Lemma iter_pos_keeps {A : Type} (f : A -> A) (P : A -> Prop) :
  (forall x, P x -> P (f x)) ->
  forall p x, P x -> P (iter_pos f p x).
Proof.
  intros Hf. induction p as [p IH|p IH|]; intros x Hx; simpl; auto.
Qed.

Lemma shr_fexp_nonneg (m e : Z) (l : location) :
  (0 <= m)%Z -> (0 <= shr_m (fst (shr_fexp prec emax m e l)))%Z.
Proof.
  intros Hm. unfold shr_fexp, shr.
  assert (0 <= shr_m (shr_record_of_loc m l))%Z as H0
    by (destruct l as [|[]]; exact Hm).
  destruct (fexp prec emax (Zdigits2 m + e) - e)%Z; simpl; try exact H0.
  apply (iter_pos_keeps shr_1 (fun r => (0 <= shr_m r)%Z) shr_1_nonneg).
  exact H0.
Qed.

Lemma round_nearest_even_nonneg (m : Z) (l : location) :
  (0 <= m)%Z -> (0 <= round_nearest_even m l)%Z.
Proof.
  intros Hm. destruct l as [|[]]; simpl; try exact Hm; [|lia].
  destruct (Z.even m); lia.
Qed.

(** Rounding a non-negative mantissa never gives NaN. *)
Lemma binary_round_aux_not_nan (s : bool) (m e : Z) (l : location) :
  (0 <= m)%Z -> is_nan (binary_round_aux prec emax s m e l) = false.
Proof.
  intros Hm. unfold binary_round_aux.
  pose proof (shr_fexp_nonneg m e l Hm) as H1.
  destruct (shr_fexp prec emax m e l) as [mrs' e'].
  cbn [fst] in H1.
  pose proof (shr_fexp_nonneg
                (round_nearest_even (shr_m mrs') (loc_of_shr_record mrs'))
                e' loc_Exact
                (round_nearest_even_nonneg _ _ H1)) as H2.
  destruct (shr_fexp prec emax _ e' loc_Exact) as [mrs'' e''].
  cbn [fst] in H2.
  destruct (shr_m mrs'') as [|p|p].
  - reflexivity.
  - destruct (e'' <=? emax - prec)%Z; reflexivity.
  - exfalso. apply H2. reflexivity.
Qed.

Lemma binary_round_not_nan (s : bool) (m : positive) (e : Z) :
  is_nan (binary_round prec emax s m e) = false.
Proof.
  unfold binary_round. destruct (shl_align _ _ _) as [mz ez].
  apply binary_round_aux_not_nan. discriminate.
Qed.

Lemma mul_not_nan (x y : number) :
  is_finite x = true -> is_finite y = true -> is_nan (mul x y) = false.
Proof.
  destruct x as [sx|sx| |sx mx ex]; try discriminate;
    destruct y as [sy|sy| |sy my ey]; try discriminate; intros _ _;
    try reflexivity.
  apply binary_round_aux_not_nan. discriminate.
Qed.

Lemma div_100_not_nan (x : number) :
  is_nan x = false -> is_nan (div x (of_Z 100)) = false.
Proof.
  rewrite of_Z_100. destruct x as [sx|sx| |sx mx ex]; try discriminate;
    intros _; try reflexivity.
  unfold div, SFdiv, SFdiv_core_binary.
  match goal with
  | |- context [Z.div_eucl ?a ?b] =>
      pose proof (Z.div_pos a b) as Hq;
      assert (Z.div_eucl a b = (a / b, a mod b)%Z) as E
        by (unfold Z.div, Z.modulo; destruct (Z.div_eucl a b); reflexivity);
      rewrite E
  end.
  apply binary_round_aux_not_nan. apply Hq; [|reflexivity].
  match goal with
  | |- (0 <= match ?s with _ => _ end)%Z =>
      destruct s; [discriminate|apply Z.shiftl_nonneg; discriminate|reflexivity]
  end.
Qed.

Lemma sub_not_nan (x y : number) :
  is_finite x = true -> is_nan y = false -> is_nan (sub x y) = false.
Proof.
  destruct x as [sx|sx| |sx mx ex]; try discriminate;
    destruct y as [sy|sy| |sy my ey]; try discriminate; intros _ _;
    try reflexivity.
  - destruct sx, sy; reflexivity.
  - unfold sub, SFsub, binary_normalize.
    match goal with
    | |- is_nan (match ?z with _ => _ end) = false => destruct z
    end; [reflexivity|apply binary_round_not_nan ..].
Qed.

(** The computed value, for fields that hold finite Numbers. *)
Lemma final_price_not_nan (p d : number) :
  is_finite p = true -> is_finite d = true -> is_nan (final_price p d) = false.
Proof.
  intros Hp Hd. unfold final_price.
  apply sub_not_nan; [exact Hp|].
  apply div_100_not_nan. apply mul_not_nan; assumption.
Qed.

(** The numeral of a positive finite Number begins with a digit. *)
Lemma to_string_pos_head (m : positive) (e : Z) :
  exists c r, to_string_pos m e = c :: r /\ is_digit c = true.
Proof.
  unfold to_string_pos.
  destruct (shortest_from 17 _ _ _ 1) as [[s n] k].
  destruct (decimal_digits_spec s) as (Hne & Hall & _).
  destruct (decimal_digits s) as [|c ds]; [congruence|].
  pose proof (Forall_inv Hall) as Hc. cbv beta in Hc.
  destruct ((k <=? n) && (n <=? 21))%Z; [exists c; eexists; split; [reflexivity|exact Hc]|].
  destruct ((0 <? n) && (n <=? 21))%Z eqn:E.
  { apply andb_prop in E as [E _]. apply Z.ltb_lt in E.
    destruct (Z.to_nat n) as [|j] eqn:Ej; [lia|].
    exists c. eexists. split; [reflexivity|exact Hc]. }
  destruct ((-6 <? n) && (n <=? 0))%Z;
    [exists 48%N; eexists; split; reflexivity|].
  destruct (k =? 1)%Z; exists c; eexists; split; try reflexivity; exact Hc.
Qed.

(** [toFixed(2)] gives ["NaN"] for NaN only. *)
Lemma toFixed_NaN_only (x : number) :
  is_nan x = false -> toFixed x 2 <> Normal (js "NaN").
Proof.
  destruct x as [s|s| |s m e]; intros Hx; [| |discriminate Hx|]; clear Hx.
  - intros E. vm_compute in E. inversion E.
  - intros E. destruct s; vm_compute in E; inversion E.
  - unfold toFixed. simpl orb. cbv iota.
    assert (forall c r, is_digit c = true ->
              Normal ((if s then [45%N] else []) ++ c :: r) <> Normal (js "NaN"))
      as Hhead.
    { intros c r Hc E. destruct s; inversion E; subst.
      vm_compute in Hc. discriminate Hc. }
    destruct (Qle_bool _ _).
    + destruct (to_string_pos_head m e) as (c & r & -> & Hc).
      apply Hhead. exact Hc.
    + destruct (fixed_digits_two
                  (Z.to_N (nearest_scaled (real_of m e) 2)))
        as (a & b1 & b2 & E & Ha & Hall & _).
      change (Z.to_nat 2) with 2. rewrite E.
      destruct a as [|c a]; [congruence|].
      apply Hhead. exact (Forall_inv Hall).
Qed.

(** X7: when both fields hold finite numbers the computed value is not NaN
    and ["NaN"] is not what is written, whatever the magnitudes: an
    overflow gives [Infinity] or [-Infinity] instead. *)
Theorem finite_fields_never_give_NaN (sp sd : jsstring) :
  is_finite (parseFloat sp) = true ->
  is_finite (parseFloat sd) = true ->
  is_nan (final_price (parseFloat sp) (parseFloat sd)) = false
  /\ price_text (Some sp) (Some sd) <> Normal (js "NaN").
Proof.
  intros Hp Hd. split; [apply final_price_not_nan; assumption|].
  unfold price_text. cbn [to_js_string].
  apply toFixed_NaN_only. apply final_price_not_nan.
  - unfold or_else. destruct (truthy (parseFloat sp)); [exact Hp|reflexivity].
  - unfold or_else. destruct (truthy (parseFloat sd)); [exact Hd|reflexivity].
Qed.

Lemma finite_fields_never_give_NaN_witness :
  is_nan (final_price (parseFloat (js "1e308")) (parseFloat (js "-1000"))) = false
  /\ price_text (Some (js "1e308")) (Some (js "-1000")) <> Normal (js "NaN").
Proof.
  apply (finite_fields_never_give_NaN (js "1e308") (js "-1000")); reflexivity.
Defined.

End NeverNaN.

(** ** Toasts stay until they are hidden *)

Module ToastMore.
Import Dom Script Props MoreProps Samples.
Import DomFacts PageFacts ScriptFacts FlashFacts PreviewFacts ToastFacts ShapeFacts.

Lemma node_ids_in (n : node) (d : document) (i : nat) :
  In n d -> In i (map eid (elements_of n)) -> In i (ids d).
Proof.
  intros Hn Hi. unfold ids, elements. apply in_map_iff in Hi as (e & <- & He).
  apply in_map. apply in_flat_map. exists n. split; assumption.
Qed.

(** One event, other than its own [hidden.bs.toast], leaves the node of a
    created toast where it is. *)
Lemma toast_survives_step
  (page : document) (w : world) (i : nat) (m : jsstring) (t : severity)
  (ev : event) :
  shape page w -> fresh_eid page <= i ->
  In (toast_markup i m t) (doc w) ->
  ev <> Hidden (i + 1) ->
  In (toast_markup i m t) (doc (after (dispatch w ev))).
Proof.
  intros Hs Hi Hin Hev.
  pose proof Hs as (P & l & Hdoc & HP & Hnd & Hb & Hr & Hcb & Htimer).
  assert (In (toast_markup i m t) (map (toast_of (fresh_eid page)) l)) as Hl.
  { rewrite Hdoc in Hin. apply in_app_or in Hin as [Hin|Hin]; [|exact Hin].
    exfalso. assert (In i (ids P)) as HiP.
    { apply (node_ids_in _ _ _ Hin). rewrite toast_ids. left. reflexivity. }
    rewrite Forall_forall in HP. apply HP in HiP. lia. }
  assert (forall P', In (toast_markup i m t)
                        (P' ++ map (toast_of (fresh_eid page)) l)) as Hkeep.
  { intros P'. apply in_or_app. right. exact Hl. }
  destruct ev as [t0|t0 fs|t0 b|t0|r|r|ms| |a]; unfold dispatch.
  - (* input *)
    destruct (is_bound t0 PriceInput w); [|exact Hin].
    unfold price_input. destruct (price_text _ _) as [s|]; [|exact Hin].
    cbn [after doc set_doc]. unfold set_val.
    pose proof (below_select_id page w Hs "final_price") as Hbelow.
    rewrite Hdoc in Hbelow |- *.
    rewrite update_past_toasts by exact Hbelow. apply Hkeep.
  - (* change *)
    destruct (is_bound t0 FileChange w); [|exact Hin].
    unfold file_change. cbn [after].
    destruct (siblings is_img t0 (doc w)); [exact Hin|].
    destruct fs; exact Hin.
  - (* submit *)
    destruct (is_bound t0 DeleteSubmit w); exact Hin.
  - (* hidden.bs.toast, of another toast *)
    destruct (is_bound t0 ToastHidden w) eqn:Hbound; [|exact Hin].
    cbn [after]. unfold toast_hidden. cbn [doc set_doc].
    apply is_bound_in in Hbound. rewrite Forall_forall in Hb.
    destruct (Hb _ Hbound eq_refl) as (k & Hk). cbn [fst] in Hk. subst t0.
    rewrite Hdoc, hidden_doc by assumption.
    apply in_or_app. right.
    apply in_map_iff in Hl as (x & E & Hx).
    rewrite <- E. apply in_map. apply filter_In. split; [exact Hx|].
    apply negb_true_iff. apply Nat.eqb_neq. intros Hk.
    apply Hev. f_equal.
    apply (f_equal (fun n => match n with Elem e _ => eid e | Text _ => 0 end))
      in E.
    cbn [toast_of toast_markup el eid] in E. unfold toast_rank in Hk. lia.
  - (* read completed *)
    destruct (find_read r w) as [p|] eqn:E; [|exact Hin].
    cbn [after]. unfold reader_onload.
    cbn [doc set_doc drop_read set_reads]. unfold set_attribute.
    rewrite Hdoc, update_past_toasts; [apply Hkeep|].
    rewrite Forall_forall in Hr. apply Hr.
    unfold find_read in E. apply find_some in E. tauto.
  - (* read failed *)
    exact Hin.
  - (* time passes *)
    cbn [after]. destruct (0 <=? ms)%Z; exact Hin.
  - (* a timer runs *)
    destruct (take_due (now w) (timers w)) as [[tm rest]|]; [|exact Hin].
    destruct (action tm). cbn [after run_callback].
    unfold auto_dismiss. cbn [doc set_timers].
    destruct (close_loop_shape (fresh_eid page) l
                (select (hasClass "alert") (doc w)) (set_timers rest w) P)
      as (P' & Hdoc' & _).
    + exact Hdoc.
    + exact HP.
    + rewrite Hdoc.
      rewrite (select_past_toasts (fresh_eid page) (hasClass "alert") P l
                 toast_no_alert).
      apply Forall_forall. intros j Hj. rewrite Forall_forall in HP.
      apply HP. exact (select_in_ids _ P j Hj).
    + exact Hcb.
    + intros b Hb'. right. rewrite Hdoc.
      rewrite (select_past_toasts (fresh_eid page) (hasClass "alert") P l
                 toast_no_alert).
      exact Hb'.
    + rewrite Hdoc'. apply Hkeep.
  - (* the transition of a closing alert ends *)
    destruct (existsb (Nat.eqb a) (closing w)) eqn:Ea; [|exact Hin].
    cbn [after doc set_doc set_closing]. apply existsb_eqb_in in Ea.
    rewrite Hdoc, remove_past_toasts; [apply Hkeep|].
    rewrite Forall_forall in Hcb. constructor; [exact (Hcb a Ea)|constructor].
Qed.

Lemma toast_survives
  (page : document) (i : nat) (m : jsstring) (t : severity)
  (evs : list event) :
  fresh_eid page <= i ->
  Forall (fun ev => ev <> Hidden (i + 1)) evs ->
  forall w,
    reachable page w ->
    In (toast_markup i m t) (doc w) ->
    In (toast_markup i m t) (doc (run w evs)).
Proof.
  intros Hi. induction evs as [|ev evs IH]; intros Hall w Hr Hin; [exact Hin|].
  rewrite run_cons. apply IH.
  - exact (Forall_inv_tail Hall).
  - apply reachable_step. exact Hr.
  - apply (toast_survives_step page); try assumption.
    + apply reachable_shape. exact Hr.
    + exact (Forall_inv Hall).
Qed.

(** X8: the container of a toast the script has created, and the [.toast]
    element in it, stay on the page through every sequence of events that
    does not hold the [hidden.bs.toast] of that [.toast] element: typing
    in the price fields, file reads, delete prompts, the hiding of other
    toasts and the closing of the alerts by the 5000 ms timer do not take
    it away. *)
Theorem toast_stays_until_hidden
  (page : document) (w : world) (i : nat) (evs : list event) :
  reachable page w ->
  is_bound (i + 1) ToastHidden w = true ->
  In i (ids (doc w)) ->
  Forall (fun ev => ev <> Hidden (i + 1)) evs ->
  In i (ids (doc (run w evs))) /\ In (i + 1) (ids (doc (run w evs))).
Proof.
  intros Hr Hbound Hi Hall.
  destruct (reachable_shape page w Hr) as (P & l & Hdoc & HP & Hnd & Hb & _).
  apply is_bound_in in Hbound. rewrite Forall_forall in Hb.
  destruct (Hb _ Hbound eq_refl) as (k & Hk). cbn [fst] in Hk.
  assert (exists m t, In (toast_markup i m t) (doc w)) as (m & t & Hin).
  { rewrite Hdoc, ids_app in Hi. apply in_app_or in Hi as [Hi|Hi].
    - rewrite Forall_forall in HP. apply HP in Hi. lia.
    - apply toasts_ids in Hi as (x & j & Hx & Hj & E).
      exists (snd (fst x)), (snd x). rewrite Hdoc. apply in_or_app. right.
      replace i with (fresh_eid page + 5 * fst (fst x))
        by (unfold toast_rank in E; lia).
      exact (in_map (toast_of (fresh_eid page)) l x Hx). }
  assert (In (toast_markup i m t) (doc (run w evs))) as Hrun.
  { apply (toast_survives page i m t evs); try assumption. lia. }
  split; apply (node_ids_in _ _ _ Hrun); rewrite toast_ids; simpl; tauto.
Qed.

Lemma toast_stays_until_hidden_witness :
  In 3 (ids (doc (run (ready (load flash_page))
                      [Input 0; Elapse 5000; Timeout; AlertClosed 0; Hidden 9])))
  /\ In (3 + 1)
        (ids (doc (run (ready (load flash_page))
                       [Input 0; Elapse 5000; Timeout; AlertClosed 0;
                        Hidden 9]))).
Proof.
  apply (toast_stays_until_hidden flash_page (ready (load flash_page)) 3
           [Input 0; Elapse 5000; Timeout; AlertClosed 0; Hidden 9]).
  - exists []. reflexivity.
  - reflexivity.
  - vm_compute. right. right. right. left. reflexivity.
  - repeat constructor; discriminate.
Defined.

Example toast_outlives_the_alerts :
  ids (doc (run (ready (load flash_page)) [Elapse 5000; Timeout; AlertClosed 0]))
  = [3; 4; 5; 6; 7].
Proof. vm_compute. reflexivity. Qed.

End ToastMore.

(** ** What the handlers leave alone *)

Module FrameFacts.
Import Dom Script Props MoreProps Samples.
Import DomFacts PageFacts ScriptFacts.

Lemma text_content_update_in (ids0 : list nat) (f : element -> element)
  (n : node) :
  text_content (update_in ids0 f n) = text_content n.
Proof.
  induction n as [s|e ks IH] using node_induction; [reflexivity|].
  cbn [update_in text_content].
  induction IH as [|k ks Hk _ IHks]; [reflexivity|].
  cbn [map flat_map]. rewrite Hk, IHks. reflexivity.
Qed.

Lemma texts_update (ids0 : list nat) (f : element -> element) (ks : list node) :
  flat_map text_content (map (update_in ids0 f) ks) = flat_map text_content ks.
Proof.
  induction ks as [|k ks IH]; [reflexivity|].
  cbn [map flat_map]. rewrite text_content_update_in, IH. reflexivity.
Qed.

Section UpdateFrame.
Variable ids0 : list nat.
Variable f : element -> element.
Hypothesis f_eid : forall e, eid (f e) = eid e.

Lemma text_update (i : nat) (d : document) :
  text i (update ids0 f d) = text i d.
Proof.
  unfold text. rewrite (find_node_update ids0 f f_eid).
  destruct (find_node i d) as [[e ks]|]; [|reflexivity].
  cbn [option_map updated snd]. apply texts_update.
Qed.

Lemma attr_update (name : string) (i : nat) (d : document) :
  (forall e, get_attr name (attrs (f e)) = get_attr name (attrs e)) ->
  attr name i (update ids0 f d) = attr name i d.
Proof.
  intros Hf. unfold attr. rewrite (find_node_update ids0 f f_eid).
  destruct (find_node i d) as [[e ks]|]; [|reflexivity].
  cbn [option_map updated fst]. destruct (existsb _ ids0); [apply Hf|reflexivity].
Qed.

Lemma attr_update_out (name : string) (i : nat) (d : document) :
  ~ In i ids0 -> attr name i (update ids0 f d) = attr name i d.
Proof.
  intros Hi. unfold attr. rewrite (find_node_update ids0 f f_eid).
  destruct (find_node i d) as [[e ks]|] eqn:E; [|reflexivity].
  cbn [option_map updated fst]. apply find_node_eid in E. rewrite E.
  rewrite (existsb_eqb_out i ids0 Hi). reflexivity.
Qed.

Lemma val_update (i : nat) (d : document) :
  (forall e, value (f e) = value e) ->
  val [i] (update ids0 f d) = val [i] d.
Proof.
  intros Hf. unfold val. rewrite (find_node_update ids0 f f_eid).
  destruct (find_node i d) as [[e ks]|]; [|reflexivity].
  cbn [option_map updated fst]. destruct (existsb _ ids0); [rewrite Hf|];
    reflexivity.
Qed.

Lemma val_update_out (i : nat) (d : document) :
  ~ In i ids0 -> val [i] (update ids0 f d) = val [i] d.
Proof.
  intros Hi. unfold val. rewrite (find_node_update ids0 f f_eid).
  destruct (find_node i d) as [[e ks]|] eqn:E; [|reflexivity].
  cbn [option_map updated fst]. apply find_node_eid in E. rewrite E.
  rewrite (existsb_eqb_out i ids0 Hi). reflexivity.
Qed.

Lemma tags_update (d : document) :
  (forall e, tag (f e) = tag e) ->
  map tag (elements (update ids0 f d)) = map tag (elements d).
Proof.
  intros Hf. rewrite elements_update, map_map. apply map_ext.
  intros e. unfold touched. destruct (existsb _ ids0); [apply Hf|reflexivity].
Qed.

End UpdateFrame.

Lemma set_doc_same (w : world) : set_doc (doc w) w = w.
Proof. destruct w. reflexivity. Qed.

(** X9: the completion of a file read changes nothing on the page but
    the [src] attribute of the images its [onload] closure holds: the
    elements, their tags, their values, their texts and their other
    attributes are as before, and so is the [src] of every other element. *)
Theorem read_done_changes_src_only
  (w : world) (r i : nat) (name : string) :
  ids (doc (after (dispatch w (ReadDone r)))) = ids (doc w)
  /\ map tag (elements (doc (after (dispatch w (ReadDone r)))))
     = map tag (elements (doc w))
  /\ val [i] (doc (after (dispatch w (ReadDone r)))) = val [i] (doc w)
  /\ text i (doc (after (dispatch w (ReadDone r)))) = text i (doc w)
  /\ (name <> "src" ->
      attr name i (doc (after (dispatch w (ReadDone r)))) = attr name i (doc w))
  /\ ((forall p, find_read r w = Some p -> ~ In i (preview p)) ->
      attr "src" i (doc (after (dispatch w (ReadDone r))))
      = attr "src" i (doc w)).
Proof.
  unfold dispatch. destruct (find_read r w) as [p|] eqn:E.
  2:{ cbn [after]. repeat split; reflexivity. }
  cbn [after]. unfold reader_onload.
  cbn [doc set_doc drop_read set_reads]. unfold set_attribute.
  repeat split.
  - apply ids_update. reflexivity.
  - apply tags_update; reflexivity.
  - apply val_update; reflexivity.
  - apply text_update. reflexivity.
  - intros Hname. apply attr_update; [reflexivity|].
    intros e. cbn [with_attr attrs]. apply get_set_attr_other. exact Hname.
  - intros Hout. apply attr_update_out; [reflexivity|].
    apply (Hout p). reflexivity.
Qed.

Lemma read_done_changes_src_only_witness :
  attr "type" 1
    (doc (after (dispatch (run (ready (load preview_page)) [Change 1 [png_a]])
                          (ReadDone 0))))
  = attr "type" 1 (doc (run (ready (load preview_page)) [Change 1 [png_a]]))
  /\ attr "src" 1
       (doc (after (dispatch (run (ready (load preview_page)) [Change 1 [png_a]])
                             (ReadDone 0))))
     = attr "src" 1 (doc (run (ready (load preview_page)) [Change 1 [png_a]])).
Proof.
  destruct (read_done_changes_src_only
              (run (ready (load preview_page)) [Change 1 [png_a]]) 0 1 "type")
    as (_ & _ & _ & _ & Hother & _).
  destruct (read_done_changes_src_only
              (run (ready (load preview_page)) [Change 1 [png_a]]) 0 1 "src")
    as (_ & _ & _ & _ & _ & Hsrc).
  split.
  - apply Hother. discriminate.
  - apply Hsrc. intros p Hp. vm_compute in Hp. inversion Hp; subst.
    simpl. intros [H|[]]. discriminate H.
Defined.

(** X10: an input event changes nothing but the value of the element
    [$('#final_price')] selects: identities, tags, texts and attributes
    stay, the value of every other element stays, no listener, read, timer
    or prompt is added, and with no [#final_price] on the page the event
    changes nothing at all. *)
Theorem input_writes_final_price_only
  (w : world) (t i : nat) (name : string) :
  ids (doc (after (dispatch w (Input t)))) = ids (doc w)
  /\ map tag (elements (doc (after (dispatch w (Input t)))))
     = map tag (elements (doc w))
  /\ attr name i (doc (after (dispatch w (Input t)))) = attr name i (doc w)
  /\ text i (doc (after (dispatch w (Input t)))) = text i (doc w)
  /\ (~ In i (select_id "final_price" (doc w)) ->
      val [i] (doc (after (dispatch w (Input t)))) = val [i] (doc w))
  /\ (select_id "final_price" (doc w) = [] ->
      after (dispatch w (Input t)) = w)
  /\ set_doc (doc w) (after (dispatch w (Input t))) = w.
Proof.
  unfold dispatch. destruct (is_bound t PriceInput w).
  2:{ cbn [after]. repeat split; try reflexivity. apply set_doc_same. }
  unfold price_input. destruct (price_text _ _) as [s|].
  2:{ cbn [after]. repeat split; try reflexivity. apply set_doc_same. }
  cbn [after doc set_doc]. unfold set_val. repeat split.
  - apply ids_update. reflexivity.
  - apply tags_update; reflexivity.
  - apply attr_update; reflexivity.
  - apply text_update. reflexivity.
  - intros Hout. apply val_update_out; [reflexivity|exact Hout].
  - intros ->. rewrite update_out by (intros j _ []). apply set_doc_same.
  - destruct w. reflexivity.
Qed.

Lemma input_writes_final_price_only_witness :
  val [1] (doc (after (dispatch (ready (load (price_form "19.99" "15")))
                                (Input 2))))
  = val [1] (doc (ready (load (price_form "19.99" "15"))))
  /\ after (dispatch (ready (load preview_page)) (Input 1))
     = ready (load preview_page).
Proof.
  destruct (input_writes_final_price_only
              (ready (load (price_form "19.99" "15"))) 2 1 "name")
    as (_ & _ & _ & _ & Hval & _).
  destruct (input_writes_final_price_only (ready (load preview_page)) 1 0 "name")
    as (_ & _ & _ & _ & _ & Hnone & _).
  split.
  - apply Hval. vm_compute. intros [H|[]]. discriminate H.
  - apply Hnone. reflexivity.
Defined.

End FrameFacts.

(** ** The message of a toast *)

Module TrimFacts.
Import Dom Script Props MoreProps Samples.
Import DomFacts FlashFacts.

Lemma trim_start_split (s : jsstring) :
  exists pre, s = pre ++ trim_start s /\ blank pre = true.
Proof.
  induction s as [|c r (pre & E & Hpre)]; [exists []; split; reflexivity|].
  cbn [trim_start]. destruct (is_white_space c) eqn:Hc.
  - exists (c :: pre). split; [cbn [app]; f_equal; exact E|].
    unfold blank. cbn [forallb]. rewrite Hc. exact Hpre.
  - exists []. split; reflexivity.
Qed.

Lemma trim_start_head (s : jsstring) :
  match trim_start s with
  | [] => True
  | c :: _ => is_white_space c = false
  end.
Proof.
  induction s as [|c r IH]; [exact I|].
  cbn [trim_start]. destruct (is_white_space c) eqn:Hc; [exact IH|exact Hc].
Qed.

Lemma blank_rev (s : jsstring) : blank (rev s) = blank s.
Proof.
  unfold blank. induction s as [|c r IH]; [reflexivity|].
  cbn [rev forallb]. rewrite forallb_app, IH. cbn [forallb].
  rewrite andb_true_r. apply andb_comm.
Qed.

(** [trim] takes white space off both ends, and nothing else. *)
Lemma trim_spec (s : jsstring) :
  exists pre post,
    s = pre ++ trim s ++ post
    /\ blank pre = true /\ blank post = true
    /\ (if blank s then trim s = [] else tight (trim s)).
Proof.
  destruct (trim_start_split s) as (pre & E & Hpre).
  destruct (trim_start_split (rev (trim_start s))) as (tsop & E' & Htsop).
  pose proof (trim_start_head s) as Hhead.
  pose proof (trim_start_head (rev (trim_start s))) as Hlast.
  unfold trim, trim_end.
  set (u := trim_start s) in *. set (v := trim_start (rev u)) in *.
  assert (u = rev v ++ rev tsop) as Hu.
  { rewrite <- rev_app_distr, <- E'. symmetry. apply rev_involutive. }
  exists pre, (rev tsop). split; [|split; [|split]].
  - rewrite <- Hu. exact E.
  - exact Hpre.
  - rewrite blank_rev. exact Htsop.
  - assert (blank s = blank pre && (blank (rev v) && blank (rev tsop))) as Hb.
    { rewrite E at 1. rewrite Hu. unfold blank. rewrite !forallb_app.
      reflexivity. }
    rewrite Hb, Hpre, blank_rev, blank_rev, Htsop, andb_true_r. cbn [andb].
    destruct v as [|c v'].
    + reflexivity.
    + assert (blank (c :: v') = false) as Hv.
      { unfold blank. cbn [forallb]. rewrite Hlast. reflexivity. }
      rewrite Hv. unfold tight. cbn [rev].
      destruct (rev v' ++ [c]) as [|c0 r0] eqn:Er.
      { destruct (rev v'); discriminate Er. }
      split.
      * rewrite Hu in Hhead. cbn [rev] in Hhead. rewrite Er in Hhead.
        exact Hhead.
      * rewrite <- Er. rewrite last_last. exact Hlast.
Qed.

(** X11: the message of a toast is the alert's text without the white
    space at its two ends: the text is the message between two runs of
    white space; an alert with nothing else gets no toast; any other gets
    one [showToast] call, with a message that starts and ends with a
    character that is not white space. *)
Theorem toast_message_is_trimmed_text (w : world) (a : nat) :
  exists pre post,
    text a (doc w) = pre ++ trim (text a (doc w)) ++ post
    /\ blank pre = true /\ blank post = true
    /\ (if blank (text a (doc w))
        then each_alert w a = w
        else tight (trim (text a (doc w)))
             /\ exists type,
                  each_alert w a = showToast (trim (text a (doc w))) type w).
Proof.
  destruct (trim_spec (text a (doc w))) as (pre & post & E & Hpre & Hpost & H).
  exists pre, post. repeat split; try assumption.
  unfold each_alert. destruct (blank (text a (doc w))).
  - rewrite H. reflexivity.
  - split; [exact H|].
    destruct (trim (text a (doc w))) as [|c r]; [destruct H|].
    cbn [string_truthy]. eexists. reflexivity.
Qed.

Example inner_white_space_is_kept :
  trim (js "  Item   deleted. ") = js "Item   deleted."
  /\ trim (10%N :: js "   ") = []
  /\ trim (160%N :: js "ok" ++ [8232%N]) = js "ok".
Proof. vm_compute. repeat split; reflexivity. Qed.

End TrimFacts.

(** ** Recomputing the final price *)

Module PriceStable.
Import Dom Script Props MoreProps Samples.
Import DomFacts PageFacts ScriptFacts FrameFacts.

Section Twice.
Variable ids0 : list nat.
Variable f : element -> element.
Hypothesis f_eid : forall e, eid (f e) = eid e.
Hypothesis f_twice : forall e, f (f e) = f e.

Lemma update_in_twice (n : node) :
  update_in ids0 f (update_in ids0 f n) = update_in ids0 f n.
Proof.
  induction n as [s|e ks IH] using node_induction; [reflexivity|].
  cbn [update_in]. f_equal.
  - destruct (existsb (Nat.eqb (eid e)) ids0) eqn:E.
    + rewrite f_eid, E. apply f_twice.
    + rewrite E. reflexivity.
  - rewrite map_map. apply map_ext_in. intros k Hk.
    rewrite Forall_forall in IH. exact (IH k Hk).
Qed.

Lemma update_twice (d : document) :
  update ids0 f (update ids0 f d) = update ids0 f d.
Proof.
  unfold update. rewrite map_map. apply map_ext. apply update_in_twice.
Qed.

Lemma select_id_update (s : string) (d : document) :
  (forall e, has_id s (f e) = has_id s e) ->
  select_id s (update ids0 f d) = select_id s d.
Proof.
  intros Hf. unfold select_id. rewrite elements_update.
  induction (elements d) as [|e l IH]; [reflexivity|].
  cbn [map filter].
  assert (has_id s (touched ids0 f e) = has_id s e) as ->.
  { unfold touched. destruct (existsb _ ids0); [apply Hf|reflexivity]. }
  destruct (has_id s e); [|exact IH].
  unfold touched. destruct (existsb _ ids0); [rewrite f_eid|]; reflexivity.
Qed.

(** [.val()] of a selection none of whose elements is updated. *)
Lemma val_update_apart (l : list nat) (d : document) :
  (forall i, In i l -> ~ In i ids0) ->
  val l (update ids0 f d) = val l d.
Proof.
  intros H. destruct l as [|i l]; [reflexivity|].
  change (val (i :: l) (update ids0 f d)) with (val [i] (update ids0 f d)).
  change (val (i :: l) d) with (val [i] d).
  apply val_update_out; [exact f_eid|]. apply H. left. reflexivity.
Qed.

End Twice.

Lemma field_is_selected (n : string) (d : document) (i : nat) :
  n = "price" \/ n = "discount" ->
  In i (select (is_input_named n) d) -> In i (select is_price_or_discount d).
Proof.
  intros Hn Hi. unfold select in *. apply in_map_iff in Hi as (e & <- & He).
  apply in_map. apply filter_In in He as [He Hp]. apply filter_In.
  split; [exact He|]. unfold is_price_or_discount.
  destruct Hn as [->| ->]; rewrite Hp; [reflexivity|apply orb_true_r].
Qed.

(** X12: when the output field is not itself one of the price and
    discount fields, the handler reads back what it read before, so a
    second input event with the fields untouched changes nothing: the
    world after two events is the world after one. *)
Theorem recomputing_changes_nothing (w : world) (t t' : nat) :
  (forall o, In o (select_id "final_price" (doc w)) ->
             ~ In o (select is_price_or_discount (doc w))) ->
  is_bound t PriceInput w = true ->
  after (dispatch (after (dispatch w (Input t))) (Input t'))
  = after (dispatch w (Input t)).
Proof.
  intros Hout Hb.
  assert (forall n, n = "price" \/ n = "discount" ->
            forall i, In i (select (is_input_named n) (doc w)) ->
                      ~ In i (select_id "final_price" (doc w))) as Hapart.
  { intros n Hn i Hi Ho. apply (Hout i Ho).
    exact (field_is_selected n (doc w) i Hn Hi). }
  unfold dispatch at 2 3. rewrite Hb.
  unfold price_input at 1 2.
  destruct (price_text (val (select (is_input_named "price") (doc w)) (doc w))
                       (val (select (is_input_named "discount") (doc w)) (doc w)))
    as [s|] eqn:Es; cbn [after].
  2:{ unfold dispatch. destruct (is_bound t' PriceInput w); [|reflexivity].
      unfold price_input. rewrite Es. reflexivity. }
  unfold dispatch.
  change (is_bound t' PriceInput
            (set_doc (set_val (select_id "final_price" (doc w)) s (doc w)) w))
    with (is_bound t' PriceInput w).
  destruct (is_bound t' PriceInput w); [|reflexivity].
  unfold price_input. cbn [doc set_doc]. unfold set_val.
  rewrite !select_update by reflexivity.
  rewrite (val_update_apart (select_id "final_price" (doc w)) (with_value s)
             (fun e => eq_refl)
             (select (is_input_named "price") (doc w)) (doc w)
             (Hapart "price" (or_introl eq_refl))).
  rewrite (val_update_apart (select_id "final_price" (doc w)) (with_value s)
             (fun e => eq_refl)
             (select (is_input_named "discount") (doc w)) (doc w)
             (Hapart "discount" (or_intror eq_refl))).
  rewrite Es. cbn [after].
  rewrite select_id_update by reflexivity.
  rewrite update_twice by reflexivity.
  reflexivity.
Qed.

Lemma recomputing_changes_nothing_witness :
  after (dispatch (after (dispatch (ready (load (price_form "19.99" "15")))
                                   (Input 1))) (Input 2))
  = after (dispatch (ready (load (price_form "19.99" "15"))) (Input 1)).
Proof.
  apply (recomputing_changes_nothing (ready (load (price_form "19.99" "15"))) 1 2).
  - vm_compute. intros o [<-|[]] [H|[H|[]]]; discriminate H.
  - reflexivity.
Defined.

(** Without the condition the second event can write something else: the
    output field is the price field here, and the price it holds after
    the first event is the discounted one. *)
Example output_field_is_price_field :
  let page := [ Elem {| eid := 0; tag := "input";
                        attrs := [("name", js "price"); ("id", js "final_price")];
                        value := js "200" |} [];
                input_field 1 "discount" "50" ] in
  val [0] (doc (run (ready (load page)) [Input 1])) = Some (js "100.00")
  /\ val [0] (doc (run (ready (load page)) [Input 1; Input 1]))
     = Some (js "50.00").
Proof. vm_compute. split; reflexivity. Qed.

End PriceStable.
